(** * Capture-quality sampling, auto-capture and concern-map layout

    A shallow embedding of the algorithmic core of the skin-scan page
    (the scan route component): the quality aggregator of the frame
    sampler, the auto-capture effects, the heatmap anchor centroid and
    the callout column layout.

    Numbers: JavaScript numbers that carry measurements (scores, ratios,
    pixel coordinates) are modelled as exact rationals [Q]; byte values
    of image buffers and millisecond timestamps are modelled as [Z]. *)

From Stdlib Require Import ZArith QArith Qminmax Qabs Qround Lqa Lia.
From Stdlib Require Import Bool List Ascii String Permutation Sorted.
Import ListNotations.

Local Open Scope Q_scope.

(** ** Comparisons on JavaScript numbers *)

Definition Qltb (x y : Q) : bool := negb (Qle_bool y x).
Definition Qgtb (x y : Q) : bool := Qltb y x.
Definition Qgeb (x y : Q) : bool := Qle_bool y x.

(** ** Poses and face observations *)

Inductive Pose : Type := PoseFront | PoseLeft | PoseRight | PoseUnknown.

Definition Pose_eqb (a b : Pose) : bool :=
  match a, b with
  | PoseFront, PoseFront | PoseLeft, PoseLeft
  | PoseRight, PoseRight | PoseUnknown, PoseUnknown => true
  | _, _ => false
  end.

(** The value held by [latestFaceRef]. *)
Record Face : Type := mkFace {
  found : bool;
  coverage : Q;
  noseRatio : Q
}.

Module Quality.

(** The latest sample published by the sampler through [setScanQuality]. *)
Record ScanQuality : Type := mkScanQuality {
  score : Q;
  brightness : Q;
  sharpness : Q;
  faceCoverage : Q;
  pose : Pose;
  warnings : list string
}.

(** The pose expression of the sampler tick; [captureFromCamera] evaluates
    the same expression on [latestFaceRef.current]. *)
Definition poseOf (face : Face) : Pose :=
  if found face && Qgtb (coverage face) 0
  then if Qltb (noseRatio face) 0.46 then PoseLeft
       else if Qgtb (noseRatio face) 0.54 then PoseRight
       else PoseFront
  else PoseUnknown.

Definition brightCentered (b : Q) : Q :=
  Qmax 0 (Qmin 1 (1 - Qabs (b - 0.55) / 0.55)).

Definition sizeScore (cov : Q) : Q := Qmin 1 (cov / 0.2).

Definition scoreOf (b sh : Q) (face : Face) : Q :=
  if found face
  then 0.45 * sh + 0.35 * brightCentered b + 0.2 * sizeScore (coverage face)
  else 0.

Definition warnLow : string := "Lighting is low — move to brighter, even light.".
Definition warnHigh : string := "Lighting is very strong — avoid overexposure.".
Definition warnSoft : string := "Hold still — image looks soft/blurry.".
Definition warnNoFace : string := "No face detected — keep full face in frame.".
Definition warnSmall : string := "Move closer — face is too small in frame.".

(** [warnings.push] under a condition. *)
Definition pushIf (c : bool) (w : string) (ws : list string) : list string :=
  if c then ws ++ [w] else ws.

Definition warningsOf (b sh : Q) (face : Face) : list string :=
  let ws := [] in
  let ws := pushIf (Qltb b 0.25) warnLow ws in
  let ws := pushIf (Qgtb b 0.88) warnHigh ws in
  let ws := pushIf (Qltb sh 0.25) warnSoft ws in
  let ws := pushIf (negb (found face)) warnNoFace ws in
  let ws := pushIf (found face && Qltb (coverage face) 0.08) warnSmall ws in
  ws.

(** The tail of one sampler tick: from the measured brightness and
    sharpness and the latest face observation to the published sample. *)
Definition sample (b sh : Q) (face : Face) : ScanQuality :=
  {| score := scoreOf b sh face;
     brightness := b;
     sharpness := sh;
     faceCoverage := coverage face;
     pose := poseOf face;
     warnings := warningsOf b sh face |}.

(** The aggregate score as the specification words it. *)
Definition spec_brightCentered (b : Q) : Q :=
  Qmax 0 (1 - Qabs (b - 0.55) / 0.55).

Definition spec_sizeScore (cov : Q) : Q := Qmin 1 (cov / 0.20).

Definition spec_score (fnd : bool) (b sh cov : Q) : Q :=
  if fnd
  then 0.45 * sh + 0.35 * spec_brightCentered b + 0.20 * spec_sizeScore cov
  else 0.

End Quality.

(** ** Auto-capture effects *)

Module AutoCapture.
Import Quality.

Definition Blob : Type := list Z.

Record CaptureItem : Type := mkCaptureItem {
  id : string;
  blob : Blob;
  url : string;
  itemPose : Pose
}.

(** The component state the auto-capture effects read and write: the
    [useState] cells and the three refs that outlive a render. *)
Record State : Type := mkState {
  autoCapture : bool;
  cameraOn : bool;
  step : Z;
  captures : list CaptureItem;
  scanQuality : ScanQuality;
  autoCountdown : option Z;
  latestFace : Face;
  lastAutoCaptureAt : Z;
  lastCapturedPose : Pose
}.

Definition setAutoCountdown (v : option Z) (s : State) : State :=
  mkState (autoCapture s) (cameraOn s) (step s) (captures s) (scanQuality s)
          v (latestFace s) (lastAutoCaptureAt s) (lastCapturedPose s).

Definition setCaptures (f : list CaptureItem -> list CaptureItem) (s : State)
  : State :=
  mkState (autoCapture s) (cameraOn s) (step s) (f (captures s))
          (scanQuality s) (autoCountdown s) (latestFace s)
          (lastAutoCaptureAt s) (lastCapturedPose s).

Definition setScanQuality (q : ScanQuality) (s : State) : State :=
  mkState (autoCapture s) (cameraOn s) (step s) (captures s) q
          (autoCountdown s) (latestFace s) (lastAutoCaptureAt s)
          (lastCapturedPose s).

Definition setLatestFace (f : Face) (s : State) : State :=
  mkState (autoCapture s) (cameraOn s) (step s) (captures s) (scanQuality s)
          (autoCountdown s) f (lastAutoCaptureAt s) (lastCapturedPose s).

Definition setLastAutoCaptureAt (t : Z) (s : State) : State :=
  mkState (autoCapture s) (cameraOn s) (step s) (captures s) (scanQuality s)
          (autoCountdown s) (latestFace s) t (lastCapturedPose s).

Definition setLastCapturedPose (p : Pose) (s : State) : State :=
  mkState (autoCapture s) (cameraOn s) (step s) (captures s) (scanQuality s)
          (autoCountdown s) (latestFace s) (lastAutoCaptureAt s) p.

Definition setAutoCapture (b : bool) (s : State) : State :=
  mkState b (cameraOn s) (step s) (captures s) (scanQuality s)
          (autoCountdown s) (latestFace s) (lastAutoCaptureAt s)
          (lastCapturedPose s).

Definition setCameraOn (b : bool) (s : State) : State :=
  mkState (autoCapture s) b (step s) (captures s) (scanQuality s)
          (autoCountdown s) (latestFace s) (lastAutoCaptureAt s)
          (lastCapturedPose s).

Definition setStep (n : Z) (s : State) : State :=
  mkState (autoCapture s) (cameraOn s) n (captures s) (scanQuality s)
          (autoCountdown s) (latestFace s) (lastAutoCaptureAt s)
          (lastCapturedPose s).

(** What the browser hands to one call of [captureFromCamera]: whether
    [videoRef.current] and the 2D context exist, the blob [toBlob]
    resolves with, and the fresh id and object URL. *)
Record Grab : Type := mkGrab {
  video : bool;
  ctx2d : bool;
  blobOut : option Blob;
  newId : string;
  newUrl : string
}.

Definition captureFromCamera (g : Grab) (s : State) : State :=
  if negb (video g) then s
  else
    let pose := poseOf (latestFace s) in
    if negb (ctx2d g) then s
    else
      match blobOut g with
      | None => s
      | Some b =>
          setCaptures
            (fun prev => prev ++ [mkCaptureItem (newId g) b (newUrl g) pose])
            (setLastCapturedPose pose s)
      end.

(** One entry of the [FileList] given to [addFiles], with the id and the
    object URL generated for it. *)
Record FileIn : Type := mkFileIn {
  fileBlob : Blob;
  fileId : string;
  fileUrl : string
}.

Definition addFiles (files : option (list FileIn)) (s : State) : State :=
  match files with
  | None => s
  | Some fs =>
      let next :=
        map (fun f => mkCaptureItem (fileId f) (fileBlob f) (fileUrl f)
                                    PoseUnknown) fs in
      setCaptures (fun prev => prev ++ next) s
  end.

Definition removeCapture (i : string) (s : State) : State :=
  setCaptures (filter (fun x => negb (String.eqb (id x) i))) s.

Definition good (q : ScanQuality) : bool :=
  Qgeb (score q) 0.78 && Nat.eqb (List.length (warnings q)) 0.

Definition samePoseAsLast (s : State) : bool :=
  negb (Pose_eqb (pose (scanQuality s)) PoseUnknown)
  && Pose_eqb (pose (scanQuality s)) (lastCapturedPose s).

(** The effect that arms the countdown; [now] is [Date.now()]. *)
Definition autoStartEffect (now : Z) (s : State) : State :=
  if negb (autoCapture s) || negb (cameraOn s) || negb (step s =? 1)%Z
  then setAutoCountdown None s
  else if (3 <=? List.length (captures s))%nat
  then setAutoCountdown None s
  else if negb (good (scanQuality s))
  then setAutoCountdown None s
  else if samePoseAsLast s
  then setAutoCountdown None s
  else
    match autoCountdown s with
    | None =>
        if (now - lastAutoCaptureAt s >? 2500)%Z
        then setAutoCountdown (Some 3%Z) s
        else s
    | Some _ => s
    end.

(** The one-second timeout armed while the countdown is positive. *)
Definition countdownTick (s : State) : State :=
  match autoCountdown s with
  | None => s
  | Some v =>
      if (v <=? 0)%Z then s else setAutoCountdown (Some (v - 1)%Z) s
  end.

(** The effect that runs when the countdown is zero. *)
Definition autoZeroEffect (now : Z) (g : Grab) (s : State) : State :=
  match autoCountdown s with
  | Some 0%Z =>
      if negb (autoCapture s) || negb (cameraOn s) || negb (step s =? 1)%Z
         || (3 <=? List.length (captures s))%nat
      then setAutoCountdown None s
      else if negb (good (scanQuality s))
      then setAutoCountdown None s
      else if samePoseAsLast s
      then setAutoCountdown None s
      else captureFromCamera g (setAutoCountdown None (setLastAutoCaptureAt now s))
  | _ => s
  end.

(** The checks the two effects share, named for the statements below:
    the feature is switched on with the camera running on the capture
    step, fewer than three captures exist, the sample is good, and the
    sample's pose is not the pose captured last. *)
Definition enabled (s : State) : bool :=
  autoCapture s && cameraOn s && (step s =? 1)%Z.

Definition underBudget (s : State) : bool :=
  (List.length (captures s) <? 3)%nat.

Definition gate (s : State) : bool :=
  enabled s && underBudget s && good (scanQuality s)
  && negb (samePoseAsLast s).

(** Things that happen to the component. *)
Inductive Event : Type :=
| EvSample (q : ScanQuality)
| EvFace (f : Face)
| EvTimer
| EvRender
| EvManualCapture (g : Grab)
| EvAddFiles (files : option (list FileIn))
| EvRemoveCapture (i : string)
| EvSetAutoCapture (b : bool)
| EvSetCameraOn (b : bool)
| EvSetStep (n : Z).

(** An event together with the clock reading and the camera grab that
    the effects it triggers would see, and whether React re-runs the
    start effect and the zero effect after it (an effect is re-run when
    one of its listed dependencies changed). *)
Record Input : Type := mkInput {
  inNow : Z;
  inGrab : Grab;
  inEvent : Event;
  inStart : bool;
  inZero : bool
}.

Definition update (ev : Event) (s : State) : State :=
  match ev with
  | EvSample q => setScanQuality q s
  | EvFace f => setLatestFace f s
  | EvTimer => countdownTick s
  | EvRender => s
  | EvManualCapture g => captureFromCamera g s
  | EvAddFiles files => addFiles files s
  | EvRemoveCapture i => removeCapture i s
  | EvSetAutoCapture b => setAutoCapture b s
  | EvSetCameraOn b => setCameraOn b s
  | EvSetStep n => setStep n s
  end.

(** Writing a ref does not render, every other event does. *)
Definition rerenders (ev : Event) : bool :=
  match ev with
  | EvFace _ => false
  | _ => true
  end.

(** The two auto-capture effects of one commit, in declaration order,
    each one run or skipped.  Both closures read the countdown of the
    same render; running them in sequence on the state agrees with that,
    since the first one changes the countdown only to [null] on a check
    the second repeats, or from [null] to 3, and the second acts on 0
    alone. *)
Definition commit (runStart runZero : bool) (now : Z) (g : Grab) (s : State)
  : State :=
  let s1 := if runStart then autoStartEffect now s else s in
  if runZero then autoZeroEffect now g s1 else s1.

Definition react (i : Input) (s : State) : State :=
  let s' := update (inEvent i) s in
  if rerenders (inEvent i)
  then commit (inStart i) (inZero i) (inNow i) (inGrab i) s'
  else s'.

Fixpoint run (ins : list Input) (s : State) : State :=
  match ins with
  | [] => s
  | i :: rest => run rest (react i s)
  end.

(** Inputs that leave the capture list and the refs to the user alone:
    samples of a given pose, timer ticks, re-renders, face updates and
    the switches. *)
Definition samplesOnly (p : Pose) (i : Input) : bool :=
  match inEvent i with
  | EvSample q => Pose_eqb (pose q) p
  | EvManualCapture _ | EvAddFiles _ | EvRemoveCapture _ => false
  | _ => true
  end.

(** Inputs whose clock reading is within the cooldown of [t]. *)
Definition withinCooldown (t : Z) (i : Input) : bool :=
  (inNow i - t <=? 2500)%Z.

(** Clock readings that never step back, starting from [t]. *)
Fixpoint forwardFrom (t : Z) (ins : list Input) : bool :=
  match ins with
  | [] => true
  | i :: rest => (t <=? inNow i)%Z && forwardFrom (inNow i) rest
  end.

(** While a countdown is armed, the cooldown has elapsed at time [t]. *)
Definition cooledWhileCounting (t : Z) (s : State) : Prop :=
  forall n, autoCountdown s = Some n -> (t - lastAutoCaptureAt s > 2500)%Z.

(** Sample values used by the closed examples further down. *)

(** Countdown at zero on a sample with score 0.9, no warning and pose
    left, front captured last, the last stamp at 10000 ms. *)
Definition atZeroInCooldown : State :=
  mkState true true 1 []
          (mkScanQuality 0.9 0.55 0.9 0.25 PoseLeft [])
          (Some 0%Z) (mkFace true 0.25 0.4) 10000 PoseFront.

Definition okGrab : Grab := mkGrab true true (Some [255%Z]) "a1" "blob:1".

Definition fileItem (n : string) : CaptureItem :=
  mkCaptureItem n [] "blob:x" PoseUnknown.

Definition atZeroFull : State :=
  mkState true true 1 [fileItem "a"; fileItem "b"; fileItem "c"]
          (mkScanQuality 0.9 0.55 0.9 0.25 PoseLeft [])
          (Some 0%Z) (mkFace true 0.25 0.4) 0 PoseFront.

Definition frontSample : ScanQuality :=
  mkScanQuality 0.955 0.55 0.9 0.25 PoseFront [].

Definition idleFront : State :=
  mkState true true 1 []
          frontSample None (mkFace true 0.25 0.5) 0 PoseFront.

Definition frontRun : list Input :=
  [ mkInput 90000 okGrab (EvSample frontSample) true true;
    mkInput 90450 okGrab EvTimer true true;
    mkInput 90900 okGrab EvRender true true;
    mkInput 91350 okGrab (EvSample frontSample) true true ].

Definition leftSample : ScanQuality :=
  mkScanQuality 0.955 0.55 0.9 0.25 PoseLeft [].

Definition rightSample : ScanQuality :=
  mkScanQuality 0.955 0.55 0.9 0.25 PoseRight [].

(** Countdown at zero on a perfect left-pose sample, long after the
    previous auto-capture. *)
Definition atZeroLeft : State :=
  mkState true true 1 []
          leftSample (Some 0%Z) (mkFace true 0.25 0.4) 10000 PoseFront.

Definition cooldownRun : list Input :=
  [ mkInput 50450 okGrab (EvSample rightSample) true true;
    mkInput 50900 okGrab (EvSample rightSample) true true;
    mkInput 51350 okGrab EvRender true true;
    mkInput 52500 okGrab (EvSample rightSample) true true ].

End AutoCapture.

(** ** Points on the still image *)

Module Pt.
Record t : Type := mk { x : Q; y : Q }.
End Pt.
Definition Point : Type := Pt.t.

Definition avg2 (a b : Point) : Point :=
  Pt.mk ((Pt.x a + Pt.x b) / 2) ((Pt.y a + Pt.y b) / 2).

(** [Math.round]: the nearest integer, ties upward. *)
Definition jsRound (q : Q) : Z := Qfloor (q + (1 # 2)).

(** ** Heatmap anchors *)

Module Heatmap.

(** [data[idx]] of the RGBA buffer. *)
Definition alphaAt (data : list Z) (idx : Z) : Z :=
  nth (Z.to_nat idx) data 0%Z.

(** [for (let i = 3; i < data.length; i += 4)]: the running maximum of
    the alpha channel over every pixel. *)
Fixpoint maxAlphaFrom (data : list Z) (maxA : Z) : Z :=
  match data with
  | _ :: _ :: _ :: a :: rest =>
      maxAlphaFrom rest (if (a >? maxA)%Z then a else maxA)
  | _ => maxA
  end.

(** The values a loop [for (let v = 0; v < n; v += 2)] visits. *)
Definition sampled (n : Z) : list Z :=
  map (fun k => (2 * Z.of_nat k)%Z) (seq 0 (Z.to_nat ((n + 1) / 2))).

(** The accumulators [sum], [sumX], [sumY] of [centroid]. *)
Record Acc : Type := mkAcc { sum : Z; sumX : Q; sumY : Q }.

(** The body of the inner loop at column [cx] of row [cy]. *)
Definition visit (data : list Z) (tw minA cy : Z) (acc : Acc) (cx : Z) : Acc :=
  let idx := ((cy * tw + cx) * 4 + 3)%Z in
  let a := alphaAt data idx in
  if (a <? minA)%Z then acc
  else
    let w := a in
    mkAcc (sum acc + w)%Z
          (sumX acc + (inject_Z cx + 0.5) * inject_Z w)
          (sumY acc + (inject_Z cy + 0.5) * inject_Z w).

Definition visitRow (data : list Z) (tw minA : Z) (acc : Acc) (cy : Z) : Acc :=
  fold_left (visit data tw minA cy) (sampled tw) acc.

Definition accumulate (data : list Z) (tw th minA : Z) : Acc :=
  fold_left (visitRow data tw minA) (sampled th) (mkAcc 0 0 0).

Definition centroid (data : list Z) (tw th minA : Z) : option Point :=
  let acc := accumulate data tw th minA in
  if (sum acc <=? 0)%Z then None
  else Some (Pt.mk (sumX acc / inject_Z (sum acc))
                   (sumY acc / inject_Z (sum acc))).

(** Whether some pixel the loops visit has an alpha of at least [minA],
    that is, whether the [continue] is skipped at least once. *)
Definition clears (data : list Z) (tw th minA : Z) : bool :=
  existsb
    (fun cy =>
       existsb
         (fun cx => (minA <=? alphaAt data ((cy * tw + cx) * 4 + 3))%Z)
         (sampled tw))
    (sampled th).

Definition thresh (maxA : Z) : Z :=
  Z.max 40 (jsRound (inject_Z maxA * 0.55)).

(** [a ?? b] on centroids. *)
Definition orElse (a b : option Point) : option Point :=
  match a with
  | Some c => Some c
  | None => b
  end.

(** The centroid in overlay-canvas coordinates, clamped to the canvas. *)
Definition toCanvas (tw th cw ch : Z) (c : Point) : Point :=
  Pt.mk (Qmax 0 (Qmin (inject_Z cw) (Pt.x c / inject_Z tw * inject_Z cw)))
        (Qmax 0 (Qmin (inject_Z ch) (Pt.y c / inject_Z th * inject_Z ch))).

(** A well-formed [Uint8ClampedArray] entry. *)
Definition isByte (a : Z) : bool := (0 <=? a)%Z && (a <=? 255)%Z.

(** The part of [heatmapAnchor] that runs on the image data read back
    from the [tw] by [th] working canvas; [cw] and [ch] are the size of
    the overlay canvas. *)
Definition anchorOfData (tw th : Z) (data : list Z) (cw ch : Z)
  : option Point :=
  let maxA := maxAlphaFrom data 0 in
  if (maxA <=? 0)%Z then None
  else
    match orElse (centroid data tw th (thresh maxA)) (centroid data tw th 1) with
    | None => None
    | Some c => Some (toCanvas tw th cw ch c)
    end.

(** A loaded heatmap image: its natural size and what [getImageData]
    gives once it is drawn onto a canvas of the working size ([None]
    when reading the canvas throws). *)
Record SrcImg : Type := mkSrcImg {
  width : Z;
  height : Z;
  readBack : Z -> Z -> option (list Z)
}.

Record Entry : Type := mkEntry {
  entryId : string;
  img : option SrcImg
}.

Definition Cache : Type := list (string * Point).

Fixpoint cacheGet (c : Cache) (i : string) : option Point :=
  match c with
  | [] => None
  | (k, v) :: rest => if String.eqb k i then Some v else cacheGet rest i
  end.

Definition workingHeight (src : SrcImg) : Z :=
  Z.max 1 (jsRound (inject_Z (160 * height src)
                    / inject_Z (Z.max 1 (width src)))).

(** [heatmapAnchor], threading [heatmapAnchorCache]. *)
Definition heatmapAnchor (hmCtx : bool) (entries : list Entry) (cw ch : Z)
  (cache : Cache) (i : string) : option Point * Cache :=
  match cacheGet cache i with
  | Some p => (Some p, cache)
  | None =>
      if negb hmCtx then (None, cache)
      else
        match find (fun e => String.eqb (entryId e) i) entries with
        | None => (None, cache)
        | Some e =>
            match img e with
            | None => (None, cache)
            | Some srcImg =>
                let tw := 160%Z in
                let th := workingHeight srcImg in
                match readBack srcImg tw th with
                | None => (None, cache)
                | Some data =>
                    match anchorOfData tw th data cw ch with
                    | None => (None, cache)
                    | Some out => (Some out, (i, out) :: cache)
                    end
                end
            end
        end
  end.

(** The landmark-relative points the renderer derives once per image. *)
Record Landmarks : Type := mkLandmarks {
  forehead : Point;
  nose : Point;
  leftCheek : Point;
  rightCheek : Point;
  leftUnderEye : Point;
  rightUnderEye : Point;
  leftEyeOuter : Point;
  rightEyeOuter : Point;
  centre : Point
}.

Definition landmarkAnchor (lm : Landmarks) (i : string) : Point :=
  if String.eqb i "oiliness" then nose lm
  else if String.eqb i "redness" then avg2 (leftCheek lm) (rightCheek lm)
  else if String.eqb i "uneven_tone" then forehead lm
  else if String.eqb i "texture" then avg2 (nose lm) (rightCheek lm)
  else if String.eqb i "puffy_eyes"
  then avg2 (leftUnderEye lm) (rightUnderEye lm)
  else if String.eqb i "wrinkles"
  then avg2 (forehead lm) (avg2 (leftEyeOuter lm) (rightEyeOuter lm))
  else centre lm.

Definition metricAnchor (hmCtx : bool) (entries : list Entry) (cw ch : Z)
  (lm : Landmarks) (cache : Cache) (i : string) : Point * Cache :=
  match heatmapAnchor hmCtx entries cw ch cache i with
  | (Some hm, cache') => (hm, cache')
  | (None, cache') => (landmarkAnchor lm i, cache')
  end.

(** Sample values used by the closed examples further down. *)

(** A 160 by 1 heatmap whose only opaque pixel is at column [col]. *)
Definition onePixelRow (col : nat) (a : Z) : list Z :=
  repeat 0%Z (4 * col + 3) ++ [a] ++ repeat 0%Z (4 * (159 - col)).

Definition onePixelEntries (col : nat) (a : Z) : list Entry :=
  [mkEntry "redness"
     (Some (mkSrcImg 160 1 (fun _ _ => Some (onePixelRow col a))))].

Definition someLandmarks : Landmarks :=
  mkLandmarks (Pt.mk 200 120) (Pt.mk 200 300) (Pt.mk 130 330) (Pt.mk 270 330)
              (Pt.mk 160 250) (Pt.mk 240 250) (Pt.mk 120 230) (Pt.mk 280 230)
              (Pt.mk 200 290).

End Heatmap.

(** ** Callout layout *)

Module Callout.

Record Item : Type := mkItem {
  id : string;
  anchor : Point;
  text : string;
  rgb : string;
  w : Q
}.

Inductive Side : Type := SideLeft | SideRight.

(** What the layout reads from its surroundings: the overlay canvas
    size, the face box and centre, and the text metrics of the font. *)
Record Env : Type := mkEnv {
  canvasWidth : Z;
  canvasHeight : Z;
  minX : Q;
  maxX : Q;
  faceCx : Q;
  fw : Q;
  measureText : string -> Q
}.

Definition pad : Q := 10.
Definition boxH : Q := 28.
Definition gap : Q := 8.
Definition margin : Q := 10.
Definition maxBoxW (e : Env) : Q := Qmin 280 (Qmax 160 (fw e * 0.44)).
Definition colOffset (e : Env) : Q := Qmax 14 (fw e * 0.06).

(** The loop that splits the callouts into the two columns. *)
Definition assign (e : Env) (cols : list Item * list Item) (c : Item)
  : list Item * list Item :=
  let (l, r) := cols in
  let centered := Qltb (Qabs (Pt.x (anchor c) - faceCx e)) (fw e * 0.08) in
  let side :=
    if centered
    then if (List.length l <=? List.length r)%nat then SideLeft else SideRight
    else if Qltb (Pt.x (anchor c)) (faceCx e) then SideLeft else SideRight in
  match side with
  | SideLeft => (l ++ [c], r)
  | SideRight => (l, r ++ [c])
  end.

Definition columns (e : Env) (items : list Item) : list Item * list Item :=
  fold_left (assign e) items ([], []).

(** [sort((a, b) => a.anchor.y - b.anchor.y)], a stable sort. *)
Fixpoint insertByY (c : Item) (sorted : list Item) : list Item :=
  match sorted with
  | [] => [c]
  | h :: t =>
      if Qltb (Pt.y (anchor c)) (Pt.y (anchor h))
      then c :: h :: t
      else h :: insertByY c t
  end.

Definition sortByY (items : list Item) : list Item :=
  fold_left (fun acc c => insertByY c acc) items [].

(** The arguments one call of [drawCallout] receives. *)
Record Placed : Type := mkPlaced {
  item : Item;
  bx : Q;
  by_ : Q;
  bw : Q;
  side : Side
}.

(** The lowest top edge allowed, [canvasEl.height - boxH - margin]. *)
Definition bottom (e : Env) : Q := inject_Z (canvasHeight e) - boxH - margin.

(** Box [q] is clear of an earlier box [p]: it starts a box height and a
    gap below it, unless the final clamp holds it on the bottom bound. *)
Definition stacked (e : Env) (p q : Placed) : Prop :=
  by_ q == bottom e \/ by_ p + boxH + gap <= by_ q.

(** The body of the loop of [placeColumn] for one item; [lastY] is
    [None] while it still holds [-Infinity]. *)
Definition placeOne (e : Env) (sd : Side) (lastY : option Q) (c : Item)
  : Placed :=
  let tw := measureText e (text c) in
  let bw := Qmax 140 (Qmin (maxBoxW e) (tw + 22 + pad)) in
  let bxRaw :=
    match sd with
    | SideLeft => minX e - bw - colOffset e
    | SideRight => maxX e + colOffset e
    end in
  let bx := Qmax margin (Qmin (inject_Z (canvasWidth e) - bw - margin) bxRaw) in
  let y0 := Pt.y (anchor c) - boxH / 2 in
  let y1 := Qmax margin (Qmin (inject_Z (canvasHeight e) - boxH - margin) y0) in
  let y2 :=
    match lastY with
    | Some l => if Qle_bool y1 (l + boxH + gap) then l + boxH + gap else y1
    | None => y1
    end in
  let y3 :=
    if Qgtb y2 (inject_Z (canvasHeight e) - boxH - margin)
    then inject_Z (canvasHeight e) - boxH - margin
    else y2 in
  mkPlaced c bx y3 bw sd.

Fixpoint placeFrom (e : Env) (sd : Side) (lastY : option Q) (items : list Item)
  : list Placed :=
  match items with
  | [] => []
  | c :: rest =>
      let p := placeOne e sd lastY c in
      p :: placeFrom e sd (Some (by_ p)) rest
  end.

Definition placeColumn (e : Env) (items : list Item) (sd : Side)
  : list Placed :=
  placeFrom e sd None items.

(** Both columns as the renderer lays them out. *)
Definition layout (e : Env) (items : list Item) : list Placed * list Placed :=
  let (l, r) := columns e items in
  (placeColumn e (sortByY l) SideLeft, placeColumn e (sortByY r) SideRight).

(** Sample values used by the closed examples further down. *)

(** A 400 by 600 canvas with the face box between x = 100 and x = 300
    and a font seven pixels wide per character. *)
Definition sampleEnv : Env :=
  mkEnv 400 600 100 300 200 200
        (fun t => inject_Z (7 * Z.of_nat (String.length t))).

Definition lowItems : list Item :=
  [ mkItem "redness" (Pt.mk 120 590) "Redness: 40" "244, 63, 94" 0.5;
    mkItem "texture" (Pt.mk 130 595) "Texture: 35" "167, 139, 250" 0.4 ].

Definition spreadItems : list Item :=
  [ mkItem "redness" (Pt.mk 120 300) "Redness: 40" "244, 63, 94" 0.5;
    mkItem "texture" (Pt.mk 130 310) "Texture: 35" "167, 139, 250" 0.4 ].

End Callout.

(** ** Names for the statements about the layout *)

Module CalloutTerms.
Import Callout.

(** The test [Math.abs(c.anchor.x - cx) < fw * 0.08] of the column loop. *)
Definition centred (e : Env) (c : Item) : bool :=
  Qltb (Qabs (Pt.x (anchor c) - faceCx e)) (fw e * 0.08).

(** Anchor heights in reading order. *)
Definition above (a b : Item) : Prop := Pt.y (anchor a) <= Pt.y (anchor b).

(** The items whose anchor height equals [y0], in list order. *)
Definition atHeight (y0 : Q) (l : list Item) : list Item :=
  filter (fun c => Qeq_bool (Pt.y (anchor c)) y0) l.

End CalloutTerms.

Module HeatmapTerms.
Import Heatmap.

(** The weighted sums stay between the least and the greatest pixel
    centre times the total weight. *)
Definition balanced (tw th : Z) (acc : Acc) : Prop :=
  (0 <= sum acc)%Z
  /\ (1 # 2) * inject_Z (sum acc) <= sumX acc
  /\ sumX acc <= (inject_Z tw - (1 # 2)) * inject_Z (sum acc)
  /\ (1 # 2) * inject_Z (sum acc) <= sumY acc
  /\ sumY acc <= (inject_Z th - (1 # 2)) * inject_Z (sum acc).

End HeatmapTerms.

Module AutoCaptureTerms.
Import Quality AutoCapture.

(** The clock reading of the last input of a run that starts at [t]. *)
Definition lastClock (t : Z) (ins : list Input) : Z :=
  fold_left (fun _ i => inNow i) ins t.

(** Inputs other than the capture button and the upload. *)
Definition noManualInput (i : Input) : bool :=
  match inEvent i with
  | EvManualCapture _ | EvAddFiles _ => false
  | _ => true
  end.

(** The countdown is off or shows 0, 1, 2 or 3. *)
Definition countdownInRange (s : State) : Prop :=
  match autoCountdown s with
  | None => True
  | Some v => (0 <= v <= 3)%Z
  end.

(** A re-render at [t0] followed by three timer ticks, the effects being
    re-run each time. *)
Definition countdownRun (g : Grab) (t0 t1 t2 t3 : Z) : list Input :=
  [ mkInput t0 g EvRender true true;
    mkInput t1 g EvTimer true true;
    mkInput t2 g EvTimer true true;
    mkInput t3 g EvTimer true true ].

(** Idle on a perfect left-pose sample, front captured last, long after
    the last auto-capture. *)
Definition idleLeft : State :=
  mkState true true 1 [] leftSample None (mkFace true 0.25 0.4) 10000
          PoseFront.

(** A sample spoilt by low light. *)
Definition darkSample : ScanQuality :=
  mkScanQuality 0.5 0.1 0.9 0.25 PoseLeft
                ["Lighting is low — move to brighter, even light."%string].

End AutoCaptureTerms.

(** ** The detection loop of the live preview *)

Module Detect.

(** [if (x < m) m = x] on a bound that starts at [Infinity]; [None] is
    that start. *)
Definition lower (m : option Q) (x : Q) : option Q :=
  match m with
  | None => Some x
  | Some v => if Qltb x v then Some x else Some v
  end.

(** [if (x > m) m = x] on a bound that starts at [-Infinity]. *)
Definition raise (m : option Q) (x : Q) : option Q :=
  match m with
  | None => Some x
  | Some v => if Qgtb x v then Some x else Some v
  end.

Record Bounds : Type := mkBounds {
  minX : option Q;
  minY : option Q;
  maxX : option Q;
  maxY : option Q
}.

(** The body of [for (const p of lm0)]. *)
Definition stretch (vw vh : Z) (b : Bounds) (p : Point) : Bounds :=
  let x := Pt.x p * inject_Z vw in
  let y := Pt.y p * inject_Z vh in
  mkBounds (lower (minX b) x) (lower (minY b) y)
           (raise (maxX b) x) (raise (maxY b) y).

Definition bounds (vw vh : Z) (lm0 : list Point) : Bounds :=
  fold_left (stretch vw vh) lm0 (mkBounds None None None None).

(** A bound read after the loop.  The loop runs on a non-empty list, so
    the bound is a number then; the infinite start is never read. *)
Definition num (m : option Q) : Q :=
  match m with
  | Some v => v
  | None => 0
  end.

(** [Math.max(1, hi - lo)]. *)
Definition extent (lo hi : option Q) : Q := Qmax 1 (num hi - num lo).

(** What the loop stores in [latestFaceRef] for the landmarks of one
    frame; [lm0] is [res.faceLandmarks?.[0]].  It runs under the guard
    [vw > 0 && vh > 0]. *)
Definition observe (vw vh : Z) (lm0 : option (list Point)) : Face :=
  match lm0 with
  | Some (p :: rest) =>
      let l := p :: rest in
      let b := bounds vw vh l in
      let fw := extent (minX b) (maxX b) in
      let fh := extent (minY b) (maxY b) in
      let area := Qmax 0 (fw * fh) in
      let coverage :=
        Qmax 0 (Qmin 1 (area / (inject_Z vw * inject_Z vh))) in
      let noseX :=
        match nth_error l 1 with
        | Some nose => Pt.x nose * inject_Z vw
        | None => (num (minX b) + num (maxX b)) / 2
        end in
      let noseRatio :=
        Qmax 0 (Qmin 1 ((noseX - num (minX b))
                        / Qmax 1 (num (maxX b) - num (minX b)))) in
      mkFace true coverage noseRatio
  | _ => mkFace false 0 0.5
  end.

(** One animation frame as the loop sees it: whether the landmarker is
    there and the video has data, the video size, [video.currentTime],
    [performance.now()] and the landmarks the detector returns. *)
Record Frame : Type := mkFrame {
  ready : bool;
  vw : Z;
  vh : Z;
  currentTime : Q;
  now : Q;
  faces : option (list Point)
}.

(** The variables the loop keeps between frames, with the times at which
    [computeLiveHeatmap] was called, newest first. *)
Record Loop : Type := mkLoop {
  lastVideoTime : Q;
  lastHeatAt : Q;
  latestFace : Face;
  heatCalls : list Q
}.

Definition start : Loop := mkLoop (-1) 0 (mkFace false 0 0.5) [].

Definition render (f : Frame) (l : Loop) : Loop :=
  if ready f && (0 <? vw f)%Z && (0 <? vh f)%Z
  then
    if negb (Qeq_bool (currentTime f) (lastVideoTime l))
    then
      match faces f with
      | Some (p :: rest) =>
          let face := observe (vw f) (vh f) (faces f) in
          if Qgtb (now f - lastHeatAt l) 250
          then mkLoop (currentTime f) (now f) face (now f :: heatCalls l)
          else mkLoop (currentTime f) (lastHeatAt l) face (heatCalls l)
      | _ =>
          mkLoop (currentTime f) (lastHeatAt l) (mkFace false 0 0.5)
                 (heatCalls l)
      end
    else l
  else l.

Definition frames (fs : list Frame) (l : Loop) : Loop :=
  fold_left (fun acc f => render f acc) fs l.

(** More than 250 ms lie between a heatmap computation and the one
    before it. *)
Definition apart (newer older : Q) : Prop := 250 < newer - older.

(** A face outline of four landmarks on a 640 by 480 video. *)
Definition someFace : list Point :=
  [Pt.mk 0.3 0.2; Pt.mk 0.5 0.5; Pt.mk 0.7 0.8; Pt.mk 0.4 0.6].

End Detect.

Module DetectTerms.
Import Detect.

(** After the loop over a non-empty list every bound is a number and the
    lower bounds lie below the upper ones. *)
Definition finite (b : Bounds) : Prop :=
  (exists a c, minX b = Some a /\ maxX b = Some c /\ a <= c)
  /\ (exists a c, minY b = Some a /\ maxY b = Some c /\ a <= c).

(** The times of the heatmap computations so far are spaced, and the
    newest of them is what [lastHeatAt] holds. *)
Definition throttled (l : Loop) : Prop :=
  0 <= lastHeatAt l
  /\ Sorted apart (heatCalls l)
  /\ Forall (fun t => 250 < t) (heatCalls l)
  /\ match heatCalls l with
     | [] => True
     | h :: _ => lastHeatAt l == h
     end.

(** The landmarks of a face that spans the whole frame, with the nose,
    landmark 1, at the fraction [x] of the width. *)
Definition noseAt (x : Q) : list Point :=
  [Pt.mk 0 0; Pt.mk x 0.5; Pt.mk 1 1].

End DetectTerms.

(** ** Brightness and sharpness of the sampled frame *)

Module Sampler.

(** [for (let i = 0, p = 0; i < data.length; i += 4, p += 1)]: the
    running sum of the luma of every pixel. *)
Fixpoint lumaSum (data : list Z) (sum : Q) : Q :=
  match data with
  | r :: g :: b :: _ :: rest =>
      lumaSum rest
        (sum + (0.2126 * inject_Z r + 0.7152 * inject_Z g
                + 0.0722 * inject_Z b))
  | _ => sum
  end.

Definition brightness (data : list Z) (w h : Z) : Q :=
  Qmax 0 (Qmin 1 (lumaSum data 0 / inject_Z (w * h * 255))).

(** [gray[idx]] of the luma buffer, a [Uint8Array]. *)
Definition grayAt (gray : list Z) (idx : Z) : Z :=
  nth (Z.to_nat idx) gray 0%Z.

(** The eight-neighbour Laplacian at [idx]. *)
Definition lap (gray : list Z) (w idx : Z) : Z :=
  (-8 * grayAt gray idx
   + grayAt gray (idx - 1)
   + grayAt gray (idx + 1)
   + grayAt gray (idx - w)
   + grayAt gray (idx + w)
   + grayAt gray (idx - w - 1)
   + grayAt gray (idx - w + 1)
   + grayAt gray (idx + w - 1)
   + grayAt gray (idx + w + 1))%Z.

(** The running count, mean and sum of squared deviations. *)
Record Stat : Type := mkStat { n : Z; mean : Q; m2 : Q }.

(** The body of the inner loop once [lap] is known. *)
Definition step (st : Stat) (l : Z) : Stat :=
  let n' := (n st + 1)%Z in
  let delta := inject_Z l - mean st in
  let mean' := mean st + delta / inject_Z n' in
  let delta2 := inject_Z l - mean' in
  mkStat n' mean' (m2 st + delta * delta2).

(** The values a loop [for (let v = 1; v < k - 1; v += 1)] visits. *)
Definition inner (k : Z) : list Z :=
  map Z.of_nat (seq 1 (Z.to_nat (k - 2))).

Definition row (gray : list Z) (w : Z) (st : Stat) (yy : Z) : Stat :=
  fold_left (fun acc xx => step acc (lap gray w (yy * w + xx))) (inner w) st.

Definition stats (gray : list Z) (w h : Z) : Stat :=
  fold_left (row gray w) (inner h) (mkStat 0 0 0).

Definition variance (st : Stat) : Q :=
  if (1 <? n st)%Z then m2 st / inject_Z (n st - 1) else 0.

Definition sharpness (gray : list Z) (w h : Z) : Q :=
  Qmax 0 (Qmin 1 (variance (stats gray w h) / 800)).

(** The Laplacian responses in the order the loops visit them. *)
Definition laps (gray : list Z) (w h : Z) : list Z :=
  flat_map (fun yy => map (fun xx => lap gray w (yy * w + xx)) (inner w))
           (inner h).

(** Sums over the responses, for the statements. *)
Definition total (xs : list Z) : Q :=
  fold_right (fun x acc => inject_Z x + acc) 0 xs.

Definition squaredDeviations (c : Q) (xs : list Z) : Q :=
  fold_right (fun x acc => (inject_Z x - c) * (inject_Z x - c) + acc) 0 xs.

(** An image of [k] pixels of one colour. *)
Fixpoint flat (k : nat) (r g b a : Z) : list Z :=
  match k with
  | O => []
  | S k' => r :: g :: b :: a :: flat k' r g b a
  end.

(** A 4 by 4 luma buffer with one bright pixel. *)
Definition spotGray : list Z :=
  [ 10; 10; 10; 10;
    10; 200; 10; 10;
    10; 10; 10; 10;
    10; 10; 10; 10 ]%Z.

End Sampler.

(** ** The live heatmap, pixel by pixel *)

Module LiveHeat.

Definition clamp01 (v : Q) : Q := Qmax 0 (Qmin 1 v).

Definition max3 (r g b : Z) : Z := Z.max (Z.max r g) b.
Definition min3 (r g b : Z) : Z := Z.min (Z.min r g) b.

(** [v] and [s] of the loop body. *)
Definition value (r g b : Z) : Q := inject_Z (max3 r g b) / 255.

Definition saturation (r g b : Z) : Q :=
  if (max3 r g b =? 0)%Z then 0
  else inject_Z (max3 r g b - min3 r g b) / inject_Z (max3 r g b).

Definition redness (r g b : Z) : Q :=
  clamp01 ((inject_Z r - (inject_Z g + inject_Z b) / 2) / 80)
  * (0.55 + 0.45 * value r g b).

Definition shine (r g b : Z) : Q :=
  clamp01 ((value r g b - 0.76) / 0.24)
  * clamp01 ((0.35 - saturation r g b) / 0.35).

(** The four-neighbour Laplacian of the rounded luma, on interior
    pixels only. *)
Definition texture (gray : list Z) (w h x y : Z) : Q :=
  if (0 <? x)%Z && (x <? w - 1)%Z && (0 <? y)%Z && (y <? h - 1)%Z
  then
    let p := (y * w + x)%Z in
    let c := Sampler.grayAt gray p in
    let lap :=
      Z.abs (-4 * c + Sampler.grayAt gray (p - 1) + Sampler.grayAt gray (p + 1)
             + Sampler.grayAt gray (p - w) + Sampler.grayAt gray (p + w)) in
    clamp01 (inject_Z lap / 140)
  else 0.

Inductive Kind : Type := KindRedness | KindShine | KindTexture.

(** [kind] and [m] after the two comparisons. *)
Definition dominant (red sh tx : Q) : Kind * Q :=
  let km := (KindRedness, red) in
  let km := if Qgtb sh (snd km) then (KindShine, sh) else km in
  if Qgtb tx (snd km) then (KindTexture, tx) else km.

(** [c[k] ?? d] on a parsed colour. *)
Definition channel (c : list Z) (k : nat) (d : Z) : Z :=
  match nth_error c k with
  | Some v => v
  | None => d
  end.

(** Storing an integer into a [Uint8ClampedArray]. *)
Definition clampByte (z : Z) : Z := Z.max 0 (Z.min 255 z).

Definition colourOf (primary accent : list Z) (k : Kind) : Z * Z * Z :=
  match k with
  | KindRedness => (244, 63, 94)%Z
  | KindShine =>
      (channel primary 0 56, channel primary 1 189, channel primary 2 248)
  | KindTexture =>
      (channel accent 0 167, channel accent 1 139, channel accent 2 250)
  end.

(** The three signals at pixel [(x, y)] of the probe image [d]. *)
Definition signalsAt (d gray : list Z) (w h x y : Z) : Q * Q * Q :=
  let i := ((y * w + x) * 4)%Z in
  let r := Heatmap.alphaAt d i in
  let g := Heatmap.alphaAt d (i + 1) in
  let b := Heatmap.alphaAt d (i + 2) in
  (redness r g b, shine r g b, texture gray w h x y).

Section WithPow.

(** [Math.pow], left open: the statements hold whatever it returns. *)
Variable pow : Q -> Q -> Q.

Definition alphaOf (m : Q) : Z :=
  jsRound (255 * Qmin 0.55 (pow m 1.2 * 0.6)).

(** The four bytes written at pixel [(x, y)] of the heat image. *)
Definition heatPixel (primary accent : list Z) (d gray : list Z)
  (w h x y : Z) : Z * Z * Z * Z :=
  let '(red, sh, tx) := signalsAt d gray w h x y in
  let (kind, m) := dominant red sh tx in
  if Qltb m 0.12 then (0, 0, 0, 0)%Z
  else
    let '(rr, gg, bb) := colourOf primary accent kind in
    (clampByte rr, clampByte gg, clampByte bb, clampByte (alphaOf m)).

End WithPow.

(** A 3 by 3 probe image, red in the middle, and its luma. *)
Definition redSpot : list Z :=
  flat_map (fun k => if Nat.eqb k 4 then [220; 60; 60; 255]
                     else [90; 90; 90; 255])%Z (seq 0 9).

(** A stand-in for [Math.pow] in the closed example. *)
Definition linearPow (m e : Q) : Q := m.

Definition redSpotGray : list Z :=
  map (fun k => if Nat.eqb k 4 then 94 else 90)%Z (seq 0 9).

End LiveHeat.

(** ** Helpers of the scan page *)

Module Page.

(** The double quote character. *)
Definition dquote : ascii := "034"%char.

(** The character class of the pattern in [escapeSvgText]. *)
Definition special (ch : ascii) : bool :=
  Ascii.eqb ch "&" || Ascii.eqb ch "<" || Ascii.eqb ch ">"
  || Ascii.eqb ch dquote || Ascii.eqb ch "'".

(** A character that needs no escaping inside SVG text or attributes. *)
Definition plain (ch : ascii) : Prop :=
  ch <> "<"%char /\ ch <> ">"%char /\ ch <> dquote /\ ch <> "'"%char.

(** The replacement callback, called on a matched character. *)
Definition entity (ch : ascii) : string :=
  if Ascii.eqb ch "&" then "&amp;"
  else if Ascii.eqb ch "<" then "&lt;"
  else if Ascii.eqb ch ">" then "&gt;"
  else if Ascii.eqb ch dquote then "&quot;"
  else "&#39;".

(** The global replace over the pattern; the five characters are ASCII, so
    working on the bytes of the text is the same as on its code units. *)
Fixpoint escapeSvgText (v : string) : string :=
  match v with
  | EmptyString => EmptyString
  | String ch rest =>
      if special ch
      then String.append (entity ch) (escapeSvgText rest)
      else String ch (escapeSvgText rest)
  end.

(** [toggle], returning the list handed to [setList]. *)
Definition toggle (l : list string) (value : string) : list string :=
  if existsb (String.eqb value) l
  then filter (fun x => negb (String.eqb x value)) l
  else l ++ [value].

Record Metric : Type := mkMetric {
  id : string;
  label : string;
  severity : Q;
  confidence : Q
}.

(** [sort((a, b) => b.severity - a.severity)], a stable sort. *)
Fixpoint insertBySeverity (c : Metric) (sorted : list Metric) : list Metric :=
  match sorted with
  | [] => [c]
  | h :: t =>
      if Qltb (severity h) (severity c)
      then c :: h :: t
      else h :: insertBySeverity c t
  end.

Definition sortBySeverity (ms : list Metric) : list Metric :=
  fold_left (fun acc c => insertBySeverity c acc) ms [].

(** [topConcernMetrics]; [None] is a missing result. *)
Definition topConcernMetrics (result : option (list Metric)) : list Metric :=
  match result with
  | None => []
  | Some metrics =>
      let sorted := sortBySeverity metrics in
      let filtered := filter (fun m => Qgeb (severity m) 12) sorted in
      let pick :=
        if (3 <=? List.length filtered)%nat then filtered
        else firstn 3 sorted in
      firstn 6 pick
  end.

(** Severities in falling order. *)
Definition worseFirst (a b : Metric) : Prop := severity b <= severity a.

(** The canvas size [blobToThumb] picks for an image of the given size;
    a width of 0 makes [maxW / img.width] infinite and the scale 1. *)
Definition thumbSize (width height : Z) : Z * Z :=
  let scale :=
    if (width =? 0)%Z then 1 else Qmin 1 (240 / inject_Z width) in
  (Z.max 1 (jsRound (inject_Z width * scale)),
   Z.max 1 (jsRound (inject_Z height * scale))).

(** An entry of the scan history, the response left abstract. *)
Record StoredAnalysis : Type := mkStored {
  storedId : string;
  createdAt : string;
  thumb : option string;
  response : Z
}.

(** The list [saveToHistory] writes back, given the list [loadHistory]
    returned. *)
Definition saveToHistory (entry : StoredAnalysis)
  (current : list StoredAnalysis) : list StoredAnalysis :=
  firstn 25
    (entry :: filter (fun x => negb (String.eqb (storedId x) (storedId entry)))
                     current).

(** Sample values. *)
Definition someMetrics : list Metric :=
  [ mkMetric "oiliness" "Oiliness" 40 0.8;
    mkMetric "redness" "Redness" 10 0.9;
    mkMetric "texture" "Texture" 55 0.7;
    mkMetric "wrinkles" "Wrinkles" 5 0.6 ].

End Page.

(** * Properties *)

(** ** Comparisons *)

Lemma Qltb_lt (x y : Q) : Qltb x y = true <-> x < y.
Proof.
  unfold Qltb. rewrite negb_true_iff. split; intro H.
  - apply Qnot_le_lt. intro L. apply Qle_bool_iff in L. congruence.
  - destruct (Qle_bool y x) eqn:E; [|reflexivity].
    apply Qle_bool_iff in E. exfalso. exact (Qlt_not_le _ _ H E).
Qed.

Lemma Qltb_ge (x y : Q) : Qltb x y = false <-> y <= x.
Proof.
  unfold Qltb. rewrite negb_false_iff. apply Qle_bool_iff.
Qed.

Lemma Qgtb_gt (x y : Q) : Qgtb x y = true <-> y < x.
Proof. unfold Qgtb. apply Qltb_lt. Qed.

Lemma Qgtb_le (x y : Q) : Qgtb x y = false <-> x <= y.
Proof. unfold Qgtb. apply Qltb_ge. Qed.

Lemma Qgeb_le (x y : Q) : Qgeb x y = true <-> y <= x.
Proof. unfold Qgeb. apply Qle_bool_iff. Qed.

Lemma Pose_eqb_eq (a b : Pose) : Pose_eqb a b = true <-> a = b.
Proof. destruct a, b; simpl; split; congruence. Qed.

(** ** The quality aggregator *)

Section Aggregator.
Import Quality.

Lemma centred_term_le_1 (b : Q) : 1 - Qabs (b - 0.55) / 0.55 <= 1.
Proof.
  assert (A : 0 <= Qabs (b - 0.55)) by apply Qabs_nonneg.
  unfold Qdiv. setoid_replace (/ 0.55) with (20 # 11) by reflexivity.
  lra.
Qed.

Lemma brightCentered_spec (b : Q) : brightCentered b == spec_brightCentered b.
Proof.
  unfold brightCentered, spec_brightCentered.
  rewrite (Q.min_r 1 _ (centred_term_le_1 b)). reflexivity.
Qed.

Lemma brightCentered_range (b : Q) : 0 <= brightCentered b <= 1.
Proof.
  unfold brightCentered. split.
  - apply Q.le_max_l.
  - apply Q.max_lub; [lra | apply Q.le_min_l].
Qed.

Lemma sizeScore_range (cov : Q) : 0 <= cov -> 0 <= sizeScore cov <= 1.
Proof.
  intro H. unfold sizeScore. split.
  - apply Q.min_glb; [lra|].
    unfold Qdiv. setoid_replace (/ 0.2) with (5 # 1) by reflexivity. lra.
  - apply Q.le_min_l.
Qed.

Lemma sizeScore_spec (cov : Q) : sizeScore cov == spec_sizeScore cov.
Proof.
  unfold sizeScore, spec_sizeScore. apply Q.min_compat; [reflexivity|].
  unfold Qdiv. apply Qmult_comp; reflexivity.
Qed.

(** C6: for brightness, sharpness and face coverage in the unit interval
    the published score is the weighted sum of the specification,
    [found ? 0.45*sharpness + 0.35*brightCentered + 0.20*sizeScore : 0]
    with [brightCentered = max(0, 1 - |brightness - 0.55| / 0.55)] and
    [sizeScore = min(1, faceCoverage / 0.20)]; it lies in the unit
    interval and is zero when no face is found. *)
Theorem C6_score_formula_and_range (b sh : Q) (face : Face) :
  0 <= b <= 1 -> 0 <= sh <= 1 -> 0 <= coverage face <= 1 ->
  score (sample b sh face) == spec_score (found face) b sh (coverage face)
  /\ 0 <= score (sample b sh face) <= 1
  /\ (found face = false -> score (sample b sh face) = 0).
Proof.
  intros Hb Hs Hc. cbn [score sample].
  unfold scoreOf, spec_score.
  destruct (found face).
  - pose proof (brightCentered_range b) as Rb.
    pose proof (sizeScore_range (coverage face) (proj1 Hc)) as Rz.
    split; [|split].
    + rewrite brightCentered_spec, sizeScore_spec.
      setoid_replace 0.20 with 0.2 by reflexivity. reflexivity.
    + lra.
    + discriminate.
  - split; [reflexivity|]. split; [lra | reflexivity].
Qed.

Lemma C6_witness :
  score (sample 0.55 0.9 (mkFace true 0.25 0.5))
    == spec_score true 0.55 0.9 0.25
  /\ 0 <= score (sample 0.55 0.9 (mkFace true 0.25 0.5)) <= 1
  /\ (true = false -> score (sample 0.55 0.9 (mkFace true 0.25 0.5)) = 0).
Proof.
  apply (C6_score_formula_and_range 0.55 0.9 (mkFace true 0.25 0.5));
    cbn [coverage]; lra.
Defined.

End Aggregator.

Section Sampler.
Import Quality.

(** The pose expression case by case: with a found face of positive
    coverage the nose ratio decides, [left] below 0.46, [right] above
    0.54 and [front] in between; otherwise the pose is [unknown]. *)
Lemma poseOf_bands (face : Face) :
  (found face = true /\ 0 < coverage face ->
     (noseRatio face < 0.46 -> poseOf face = PoseLeft)
     /\ (0.54 < noseRatio face -> poseOf face = PoseRight)
     /\ (0.46 <= noseRatio face <= 0.54 -> poseOf face = PoseFront))
  /\ (found face = false \/ coverage face <= 0 -> poseOf face = PoseUnknown).
Proof.
  unfold poseOf. split.
  - intros [F C]. rewrite F. apply Qgtb_gt in C. rewrite C. cbn [andb].
    split; [|split].
    + intro L. apply Qltb_lt in L. rewrite L. reflexivity.
    + intro R.
      assert (L : Qltb (noseRatio face) 0.46 = false)
        by (apply Qltb_ge; lra).
      apply Qgtb_gt in R. rewrite L, R. reflexivity.
    + intros [A B]. apply Qltb_ge in A. apply Qgtb_le in B.
      rewrite A, B. reflexivity.
  - intros [F | C].
    + rewrite F. reflexivity.
    + apply Qgtb_le in C. rewrite C, andb_false_r. reflexivity.
Qed.

(** Two observations with the same [found] flag and the same nose ratio
    have the same pose, as long as a found face has a positive
    coverage. *)
Lemma poseOf_by_noseRatio (a b : Face) :
  (found a = true -> 0 < coverage a) ->
  (found b = true -> 0 < coverage b) ->
  found a = found b -> noseRatio a == noseRatio b ->
  poseOf a = poseOf b.
Proof.
  intros Ca Cb F N. unfold poseOf. rewrite <- F.
  destruct (found a) eqn:Fa; [|reflexivity].
  symmetry in F.
  pose proof (Ca eq_refl) as Pa. pose proof (Cb F) as Pb.
  apply Qgtb_gt in Pa, Pb. rewrite Pa, Pb. cbn [andb].
  destruct (Qltb (noseRatio a) 0.46) eqn:La,
           (Qltb (noseRatio b) 0.46) eqn:Lb;
    try apply Qltb_lt in La; try apply Qltb_lt in Lb;
    try apply Qltb_ge in La; try apply Qltb_ge in Lb;
    try reflexivity; try (exfalso; lra).
  destruct (Qgtb (noseRatio a) 0.54) eqn:Ra,
           (Qgtb (noseRatio b) 0.54) eqn:Rb;
    try apply Qgtb_gt in Ra; try apply Qgtb_gt in Rb;
    try apply Qgtb_le in Ra; try apply Qgtb_le in Rb;
    try reflexivity; exfalso; lra.
Qed.

Lemma In_pushIf (c : bool) (w v : string) (ws : list string) :
  In v (pushIf c w ws) <-> In v ws \/ (c = true /\ v = w).
Proof.
  unfold pushIf. destruct c.
  - rewrite in_app_iff. cbn [In]. intuition congruence.
  - intuition congruence.
Qed.

Lemma warnings_distinct :
  NoDup [warnLow; warnHigh; warnSoft; warnNoFace; warnSmall].
Proof.
  repeat constructor; cbn [In]; intuition discriminate.
Qed.

Lemma NoDup_pushIf (c : bool) (w : string) (ws : list string) :
  NoDup ws -> ~ In w ws -> NoDup (pushIf c w ws).
Proof.
  intros N I. unfold pushIf. destruct c; [|exact N].
  apply (Permutation_NoDup (Permutation_cons_append ws w)).
  constructor; assumption.
Qed.

(** Which message is in the list, and when: the five pushes read off. *)
Lemma warningsOf_In (b sh : Q) (face : Face) (w : string) :
  In w (warningsOf b sh face)
  <-> (w = warnLow /\ b < 0.25)
      \/ (w = warnHigh /\ 0.88 < b)
      \/ (w = warnSoft /\ sh < 0.25)
      \/ (w = warnNoFace /\ found face = false)
      \/ (w = warnSmall /\ found face = true /\ coverage face < 0.08).
Proof.
  unfold warningsOf. repeat rewrite In_pushIf. cbn [In].
  rewrite andb_true_iff, negb_true_iff.
  rewrite !Qltb_lt, Qgtb_gt. tauto.
Qed.

Lemma warningsOf_NoDup (b sh : Q) (face : Face) :
  NoDup (warningsOf b sh face).
Proof.
  unfold warningsOf.
  repeat (apply NoDup_pushIf;
          [|repeat rewrite In_pushIf; cbn [In];
            intuition discriminate]).
  constructor.
Qed.

(** C9: the warning list holds exactly the warnings whose threshold
    condition is met: low light iff brightness < 0.25, strong light iff
    brightness > 0.88, softness iff sharpness < 0.25, no face iff nothing
    was found, small face iff a face was found with coverage < 0.08.
    Every one that applies is listed, whatever the score; nothing else
    is in the list, no message is listed twice, and the list is empty
    exactly when no condition is met. *)
Theorem C9_warnings_exact (b sh : Q) (face : Face) :
  let ws := warnings (sample b sh face) in
  ((In warnLow ws <-> b < 0.25)
   /\ (In warnHigh ws <-> 0.88 < b)
   /\ (In warnSoft ws <-> sh < 0.25)
   /\ (In warnNoFace ws <-> found face = false)
   /\ (In warnSmall ws <-> found face = true /\ coverage face < 0.08))
  /\ (forall w, In w ws ->
        In w [warnLow; warnHigh; warnSoft; warnNoFace; warnSmall])
  /\ NoDup ws
  /\ (ws = [] <->
      0.25 <= b <= 0.88 /\ 0.25 <= sh
      /\ found face = true /\ 0.08 <= coverage face).
Proof.
  intro ws. subst ws. cbn [warnings sample].
  pose proof (warningsOf_In b sh face) as M.
  refine (conj _ (conj _ (conj (warningsOf_NoDup b sh face) _))).
  - refine (conj _ (conj _ (conj _ (conj _ _)))); rewrite M;
      (split;
       [ intros [[E C] | [[E C] | [[E C] | [[E C] | [E C]]]]];
         solve [exact C | discriminate E]
       | intro C; tauto ]).
  - intros w I. apply M in I. cbn [In]. intuition.
  - split.
    + intro E. rewrite E in M. cbn [In] in M.
      assert (L : ~ b < 0.25) by (intro C; apply (M warnLow); tauto).
      assert (H : ~ 0.88 < b) by (intro C; apply (M warnHigh); tauto).
      assert (S : ~ sh < 0.25) by (intro C; apply (M warnSoft); tauto).
      assert (F : found face <> false)
        by (intro C; apply (M warnNoFace); tauto).
      assert (F' : found face = true)
        by (destruct (found face); congruence).
      assert (K : ~ coverage face < 0.08)
        by (intro C; apply (M warnSmall); tauto).
      apply Qnot_lt_le in L, H, S, K. tauto.
    + intros [[L H] [S [F K]]]. unfold warningsOf.
      apply Qltb_ge in L, S, K. apply Qgtb_le in H.
      rewrite L, H, S, F, K. reflexivity.
Qed.

Lemma C9_witness :
  warnings (sample 0.55 0.9 (mkFace true 0.25 0.5)) = []
  /\ In warnLow (warnings (sample 0.1 0.1 (mkFace false 0 0.5)))
  /\ In warnSoft (warnings (sample 0.1 0.1 (mkFace false 0 0.5)))
  /\ In warnNoFace (warnings (sample 0.1 0.1 (mkFace false 0 0.5)))
  /\ ~ In warnHigh (warnings (sample 0.1 0.1 (mkFace false 0 0.5)))
  /\ ~ In warnSmall (warnings (sample 0.1 0.1 (mkFace false 0 0.5))).
Proof.
  pose proof (C9_warnings_exact 0.55 0.9 (mkFace true 0.25 0.5)) as Clean.
  pose proof (C9_warnings_exact 0.1 0.1 (mkFace false 0 0.5)) as Dark.
  cbv zeta in Clean, Dark. cbn [found coverage] in Clean, Dark.
  destruct Clean as [_ [_ [_ Empty]]].
  destruct Dark as [[Lo [Hi [So [No Sm]]]] _].
  refine (conj _ (conj _ (conj _ (conj _ (conj _ _))))).
  - apply Empty. repeat split; try reflexivity; lra.
  - apply Lo. lra.
  - apply So. lra.
  - apply No. reflexivity.
  - intro I. apply Hi in I. lra.
  - intro I. apply Sm in I. destruct I as [I _]. discriminate I.
Defined.

End Sampler.

(** ** The auto-capture effects *)

Section AutoCaptureFacts.
Import Quality AutoCapture.

Lemma good_iff (q : ScanQuality) :
  good q = true <-> 0.78 <= score q /\ warnings q = [].
Proof.
  unfold good. rewrite andb_true_iff, Qgeb_le, Nat.eqb_eq.
  split; intros [A B]; split; trivial.
  - destruct (warnings q); [reflexivity | discriminate].
  - rewrite B. reflexivity.
Qed.

Lemma samePoseAsLast_iff (s : State) :
  samePoseAsLast s = true <->
  pose (scanQuality s) <> PoseUnknown
  /\ pose (scanQuality s) = lastCapturedPose s.
Proof.
  unfold samePoseAsLast.
  rewrite andb_true_iff, negb_true_iff, Pose_eqb_eq.
  split; intros [A B]; split; trivial.
  - intro E. apply Pose_eqb_eq in E. congruence.
  - destruct (Pose_eqb (pose (scanQuality s)) PoseUnknown) eqn:E; trivial.
    apply Pose_eqb_eq in E. contradiction.
Qed.

Lemma gate_iff (s : State) :
  gate s = true <->
  (autoCapture s = true /\ cameraOn s = true /\ step s = 1%Z)
  /\ (List.length (captures s) < 3)%nat
  /\ (0.78 <= score (scanQuality s) /\ warnings (scanQuality s) = [])
  /\ (pose (scanQuality s) <> PoseUnknown ->
      pose (scanQuality s) <> lastCapturedPose s).
Proof.
  unfold gate, enabled, underBudget.
  rewrite !andb_true_iff, negb_true_iff, Z.eqb_eq, Nat.ltb_lt, good_iff.
  split.
  - intros [[[[[A B] C] D] [E1 E2]] F].
    refine (conj (conj A (conj B C)) (conj D (conj (conj E1 E2) _))).
    intros U L.
    assert (T : samePoseAsLast s = true)
      by (apply samePoseAsLast_iff; split; assumption).
    congruence.
  - intros [[A [B C]] [D [E F]]].
    refine (conj (conj (conj (conj (conj A B) C) D) E) _).
    destruct (samePoseAsLast s) eqn:T; trivial.
    apply samePoseAsLast_iff in T. destruct T as [U L].
    exfalso. exact (F U L).
Qed.

(** The start effect either clears the countdown or leaves the state as
    it is, except for the one way into a countdown. *)
Lemma autoStartEffect_cases (now : Z) (s : State) :
  (gate s = false /\ autoStartEffect now s = setAutoCountdown None s)
  \/ (gate s = true /\ autoCountdown s = None
      /\ (now - lastAutoCaptureAt s > 2500)%Z
      /\ autoStartEffect now s = setAutoCountdown (Some 3%Z) s)
  \/ (gate s = true /\ autoStartEffect now s = s
      /\ (autoCountdown s = None -> (now - lastAutoCaptureAt s <= 2500)%Z)).
Proof.
  unfold autoStartEffect, gate, enabled, underBudget.
  destruct (autoCapture s); cbn [negb orb andb]; [|left; split; reflexivity].
  destruct (cameraOn s); cbn [negb orb andb]; [|left; split; reflexivity].
  destruct (step s =? 1)%Z; cbn [negb orb andb]; [|left; split; reflexivity].
  rewrite Nat.ltb_antisym.
  destruct (3 <=? List.length (captures s))%nat; cbn [negb andb];
    [left; split; reflexivity|].
  destruct (good (scanQuality s)); cbn [negb andb];
    [|left; split; reflexivity].
  destruct (samePoseAsLast s); cbn [negb];
    [left; split; reflexivity|].
  right. destruct (autoCountdown s) as [v|] eqn:C.
  - right. repeat split. discriminate.
  - destruct (now - lastAutoCaptureAt s >? 2500)%Z eqn:T.
    + left. repeat split. apply Z.gtb_lt in T. lia.
    + right. repeat split. intros _.
      destruct (Z.gtb_spec (now - lastAutoCaptureAt s) 2500); [discriminate|lia].
Qed.

(** At zero, the zero effect either just clears the countdown or stamps
    the clock, clears the countdown and calls [captureFromCamera]. *)
Lemma autoZeroEffect_at_zero (now : Z) (g : Grab) (s : State) :
  autoCountdown s = Some 0%Z ->
  autoZeroEffect now g s =
  if gate s
  then captureFromCamera g (setAutoCountdown None (setLastAutoCaptureAt now s))
  else setAutoCountdown None s.
Proof.
  intro Z0. unfold autoZeroEffect, gate, enabled, underBudget. rewrite Z0.
  destruct (autoCapture s); cbn [negb orb andb]; [|reflexivity].
  destruct (cameraOn s); cbn [negb orb andb]; [|reflexivity].
  destruct (step s =? 1)%Z; cbn [negb orb andb]; [|reflexivity].
  rewrite Nat.ltb_antisym.
  destruct (3 <=? List.length (captures s))%nat; cbn [negb andb];
    [reflexivity|].
  destruct (good (scanQuality s)); cbn [negb andb]; [|reflexivity].
  destruct (samePoseAsLast s); reflexivity.
Qed.

Lemma autoZeroEffect_off_zero (now : Z) (g : Grab) (s : State) :
  autoCountdown s <> Some 0%Z -> autoZeroEffect now g s = s.
Proof.
  intro N. unfold autoZeroEffect.
  destruct (autoCountdown s) as [[|p|p]|]; try reflexivity. congruence.
Qed.

(** [captureFromCamera] touches the capture list and the last pose only. *)
Lemma captureFromCamera_frame (g : Grab) (s : State) :
  autoCountdown (captureFromCamera g s) = autoCountdown s
  /\ lastAutoCaptureAt (captureFromCamera g s) = lastAutoCaptureAt s
  /\ autoCapture (captureFromCamera g s) = autoCapture s
  /\ cameraOn (captureFromCamera g s) = cameraOn s
  /\ step (captureFromCamera g s) = step s
  /\ scanQuality (captureFromCamera g s) = scanQuality s.
Proof.
  unfold captureFromCamera.
  destruct (video g), (ctx2d g), (blobOut g); cbn; repeat split.
Qed.

Lemma captureFromCamera_ok (g : Grab) (s : State) (b : Blob) :
  video g = true -> ctx2d g = true -> blobOut g = Some b ->
  captures (captureFromCamera g s)
  = captures s
      ++ [mkCaptureItem (newId g) b (newUrl g) (poseOf (latestFace s))]
  /\ lastCapturedPose (captureFromCamera g s) = poseOf (latestFace s).
Proof.
  intros V C B. unfold captureFromCamera. rewrite V, C, B. cbn.
  split; reflexivity.
Qed.

End AutoCaptureFacts.

Section AutoCaptureClaims.
Import Quality AutoCapture.

Lemma setAutoCountdown_same (s : State) :
  setAutoCountdown (autoCountdown s) s = s.
Proof. destruct s; reflexivity. Qed.

(** While the shared checks fail, a commit can only clear the countdown,
    whichever of the two effects run. *)
Lemma commit_blocked (rs rz : bool) (now : Z) (g : Grab) (s : State) :
  gate s = false ->
  commit rs rz now g s = setAutoCountdown None s
  \/ commit rs rz now g s = s.
Proof.
  intro G. unfold commit.
  assert (S : autoStartEffect now s = setAutoCountdown None s).
  { destruct (autoStartEffect_cases now s) as [[_ E] | [[T _] | [T _]]];
      congruence. }
  assert (Z : forall s', autoCountdown s' = None ->
                         autoZeroEffect now g s' = s')
    by (intros s' N; apply autoZeroEffect_off_zero; rewrite N; discriminate).
  destruct rs, rz.
  - left. rewrite S. apply Z. reflexivity.
  - left. exact S.
  - destruct (autoCountdown s) as [[|v|v]|] eqn:C.
    + left. rewrite (autoZeroEffect_at_zero now g s C), G. reflexivity.
    + right. apply autoZeroEffect_off_zero. rewrite C. discriminate.
    + right. apply autoZeroEffect_off_zero. rewrite C. discriminate.
    + right. apply Z. exact C.
  - right. reflexivity.
Qed.

Lemma gate_same_pose (s : State) :
  samePoseAsLast s = true -> gate s = false.
Proof.
  intro P. unfold gate. rewrite P. cbn [negb]. apply andb_false_r.
Qed.

Lemma gate_over_budget (s : State) :
  (3 <= List.length (captures s))%nat -> gate s = false.
Proof.
  intro B. unfold gate, underBudget.
  assert (E : (List.length (captures s) <? 3)%nat = false)
    by (apply Nat.ltb_ge; exact B).
  rewrite E, andb_false_r. reflexivity.
Qed.

(** C2 as worded fails: the zero effect does not look at the cooldown.
    With the countdown at zero, a good left-pose sample, front captured
    last and only 1000 ms since the last auto-capture, it captures and
    restamps the clock. *)
Lemma C2_counterexample :
  autoCountdown atZeroInCooldown = Some 0%Z
  /\ (11000 - lastAutoCaptureAt atZeroInCooldown >? 2500)%Z = false
  /\ captures (autoZeroEffect 11000 okGrab atZeroInCooldown)
     = [mkCaptureItem "a1" [255%Z] "blob:1" PoseLeft]
  /\ lastAutoCaptureAt (autoZeroEffect 11000 okGrab atZeroInCooldown) = 11000%Z
  /\ autoZeroEffect 11000 okGrab atZeroInCooldown
     <> setAutoCountdown None atZeroInCooldown.
Proof.
  refine (conj _ (conj _ (conj _ (conj _ _)))); try reflexivity.
  intro E. apply (f_equal lastAutoCaptureAt) in E. discriminate E.
Qed.

(** C2 (amended): when the countdown is zero the effect re-checks that
    auto-capture is on with the camera running on the capture step, that
    fewer than three captures exist, that the sample is good (score at
    least 0.78 and no warning) and that a known pose differs from the
    pose captured last; the cooldown is not looked at again.  When all
    of these hold it stamps [lastAutoCaptureAt] with the current time,
    returns to idle and calls [captureFromCamera], which on a successful
    frame grab appends the capture and records its pose (that of the
    latest face observation) as [lastCapturedPose].  When any of them
    fails it only returns to idle. *)
Theorem C2_zero_effect_revalidates (now : Z) (g : Grab) (s : State) :
  autoCountdown s = Some 0%Z ->
  (gate s = true ->
     autoCountdown (autoZeroEffect now g s) = None
     /\ lastAutoCaptureAt (autoZeroEffect now g s) = now
     /\ (forall b, video g = true -> ctx2d g = true -> blobOut g = Some b ->
           captures (autoZeroEffect now g s)
           = captures s
               ++ [mkCaptureItem (newId g) b (newUrl g)
                                 (poseOf (latestFace s))]
           /\ lastCapturedPose (autoZeroEffect now g s)
              = poseOf (latestFace s)))
  /\ (gate s = false -> autoZeroEffect now g s = setAutoCountdown None s).
Proof.
  intro Z0. rewrite (autoZeroEffect_at_zero now g s Z0). split; intro G;
    rewrite G; [|reflexivity].
  set (s1 := setAutoCountdown None (setLastAutoCaptureAt now s)).
  destruct (captureFromCamera_frame g s1) as [A [B _]].
  refine (conj _ (conj _ _)).
  - rewrite A. reflexivity.
  - rewrite B. reflexivity.
  - intros b V C Bl. exact (captureFromCamera_ok g s1 b V C Bl).
Qed.

Lemma C2_witness :
  (gate atZeroInCooldown = true ->
     autoCountdown (autoZeroEffect 11000 okGrab atZeroInCooldown) = None
     /\ lastAutoCaptureAt (autoZeroEffect 11000 okGrab atZeroInCooldown) = 11000%Z
     /\ (forall b, video okGrab = true -> ctx2d okGrab = true ->
           blobOut okGrab = Some b ->
           captures (autoZeroEffect 11000 okGrab atZeroInCooldown)
           = captures atZeroInCooldown
               ++ [mkCaptureItem (newId okGrab) b (newUrl okGrab)
                                 (poseOf (latestFace atZeroInCooldown))]
           /\ lastCapturedPose (autoZeroEffect 11000 okGrab atZeroInCooldown)
              = poseOf (latestFace atZeroInCooldown)))
  /\ (gate atZeroInCooldown = false ->
      autoZeroEffect 11000 okGrab atZeroInCooldown = setAutoCountdown None atZeroInCooldown).
Proof.
  apply (C2_zero_effect_revalidates 11000 okGrab atZeroInCooldown). reflexivity.
Defined.

(** C5: with three or more captures the start effect never arms a
    countdown, whatever the sample, the pose and the clock say: it leaves
    the countdown at [null].  A countdown that is at zero is reset to
    [null] by the zero effect without a capture: the capture list, the
    time stamp and the last captured pose stay as they were.  The same
    holds of the two effects run together after a render: no countdown
    is started, a countdown at zero is cleared, nothing is captured. *)
Theorem C5_budget_blocks_auto_capture (now : Z) (g : Grab) (s : State) :
  (3 <= List.length (captures s))%nat ->
  (autoStartEffect now s = setAutoCountdown None s
   /\ autoCountdown (autoStartEffect now s) = None
   /\ captures (autoStartEffect now s) = captures s
   /\ lastAutoCaptureAt (autoStartEffect now s) = lastAutoCaptureAt s
   /\ lastCapturedPose (autoStartEffect now s) = lastCapturedPose s)
  /\ (autoCountdown s = Some 0%Z ->
      autoZeroEffect now g s = setAutoCountdown None s
      /\ autoCountdown (autoZeroEffect now g s) = None
      /\ captures (autoZeroEffect now g s) = captures s
      /\ lastAutoCaptureAt (autoZeroEffect now g s) = lastAutoCaptureAt s
      /\ lastCapturedPose (autoZeroEffect now g s) = lastCapturedPose s)
  /\ (forall rs rz,
      (commit rs rz now g s = setAutoCountdown None s
       \/ commit rs rz now g s = s)
      /\ (autoCountdown s = None ->
          autoCountdown (commit rs rz now g s) = None)
      /\ (rs = true -> autoCountdown (commit rs rz now g s) = None)
      /\ (rz = true -> autoCountdown s = Some 0%Z ->
          autoCountdown (commit rs rz now g s) = None)
      /\ captures (commit rs rz now g s) = captures s
      /\ lastAutoCaptureAt (commit rs rz now g s) = lastAutoCaptureAt s
      /\ lastCapturedPose (commit rs rz now g s) = lastCapturedPose s).
Proof.
  intro B. pose proof (gate_over_budget s B) as G.
  assert (S : autoStartEffect now s = setAutoCountdown None s).
  { destruct (autoStartEffect_cases now s) as [[_ E] | [[T _] | [T _]]];
      congruence. }
  assert (Z : autoCountdown s = Some 0%Z ->
              autoZeroEffect now g s = setAutoCountdown None s).
  { intro Z0. rewrite (autoZeroEffect_at_zero now g s Z0), G. reflexivity. }
  refine (conj _ (conj _ _)).
  - rewrite S. repeat split.
  - intro Z0. rewrite (Z Z0). repeat split.
  - intros rs rz.
    assert (Off : forall s', autoCountdown s' = None ->
                             autoZeroEffect now g s' = s')
      by (intros s' N; apply autoZeroEffect_off_zero; rewrite N;
          discriminate).
    refine (conj (commit_blocked rs rz now g s G) _).
    unfold commit. destruct rs, rz; rewrite ?S, ?Off by reflexivity;
      cbn [setAutoCountdown autoCountdown captures lastAutoCaptureAt
           lastCapturedPose];
      try (repeat split; congruence).
    destruct (autoCountdown s) as [[|v|v]|] eqn:C.
    + rewrite (Z eq_refl).
      cbn [setAutoCountdown autoCountdown captures lastAutoCaptureAt
           lastCapturedPose].
      repeat split; congruence.
    + rewrite autoZeroEffect_off_zero by (rewrite C; discriminate).
      rewrite C. repeat split; congruence.
    + rewrite autoZeroEffect_off_zero by (rewrite C; discriminate).
      rewrite C. repeat split; congruence.
    + rewrite (Off s C). rewrite C. repeat split; congruence.
Qed.

Lemma C5_witness :
  (autoStartEffect 99000 atZeroFull = setAutoCountdown None atZeroFull
   /\ autoCountdown (autoStartEffect 99000 atZeroFull) = None
   /\ captures (autoStartEffect 99000 atZeroFull) = captures atZeroFull
   /\ lastAutoCaptureAt (autoStartEffect 99000 atZeroFull) = lastAutoCaptureAt atZeroFull
   /\ lastCapturedPose (autoStartEffect 99000 atZeroFull) = lastCapturedPose atZeroFull)
  /\ (autoCountdown atZeroFull = Some 0%Z ->
      autoZeroEffect 99000 okGrab atZeroFull = setAutoCountdown None atZeroFull
      /\ autoCountdown (autoZeroEffect 99000 okGrab atZeroFull) = None
      /\ captures (autoZeroEffect 99000 okGrab atZeroFull) = captures atZeroFull
      /\ lastAutoCaptureAt (autoZeroEffect 99000 okGrab atZeroFull) = lastAutoCaptureAt atZeroFull
      /\ lastCapturedPose (autoZeroEffect 99000 okGrab atZeroFull) = lastCapturedPose atZeroFull)
  /\ (forall rs rz,
      (commit rs rz 99000 okGrab atZeroFull = setAutoCountdown None atZeroFull
       \/ commit rs rz 99000 okGrab atZeroFull = atZeroFull)
      /\ (autoCountdown atZeroFull = None ->
          autoCountdown (commit rs rz 99000 okGrab atZeroFull) = None)
      /\ (rs = true -> autoCountdown (commit rs rz 99000 okGrab atZeroFull) = None)
      /\ (rz = true -> autoCountdown atZeroFull = Some 0%Z ->
          autoCountdown (commit rs rz 99000 okGrab atZeroFull) = None)
      /\ captures (commit rs rz 99000 okGrab atZeroFull) = captures atZeroFull
      /\ lastAutoCaptureAt (commit rs rz 99000 okGrab atZeroFull) = lastAutoCaptureAt atZeroFull
      /\ lastCapturedPose (commit rs rz 99000 okGrab atZeroFull) = lastCapturedPose atZeroFull).
Proof.
  apply (C5_budget_blocks_auto_capture 99000 okGrab atZeroFull). cbn. lia.
Defined.

End AutoCaptureClaims.

Section AutoCaptureRuns.
Import Quality AutoCapture.

Lemma countdownTick_frame (s : State) :
  captures (countdownTick s) = captures s
  /\ lastAutoCaptureAt (countdownTick s) = lastAutoCaptureAt s
  /\ lastCapturedPose (countdownTick s) = lastCapturedPose s
  /\ scanQuality (countdownTick s) = scanQuality s
  /\ (autoCountdown s = None -> countdownTick s = s).
Proof.
  unfold countdownTick. destruct (autoCountdown s) as [v|].
  - destruct (v <=? 0)%Z; cbn; repeat split; discriminate.
  - repeat split.
Qed.

(** One input of a run that only delivers samples of the pose captured
    last: nothing is captured and no countdown is left standing. *)
Lemma react_same_pose (p : Pose) (i : Input) (s : State) :
  p <> PoseUnknown ->
  lastCapturedPose s = p -> pose (scanQuality s) = p ->
  samplesOnly p i = true ->
  lastCapturedPose (react i s) = p
  /\ pose (scanQuality (react i s)) = p
  /\ captures (react i s) = captures s
  /\ lastAutoCaptureAt (react i s) = lastAutoCaptureAt s
  /\ (autoCountdown s = None -> autoCountdown (react i s) = None).
Proof.
  intros U L Q S. unfold react, samplesOnly in *.
  destruct (countdownTick_frame s) as [T1 [T2 [T3 [T4 T5]]]].
  assert (K : forall s',
             lastCapturedPose s' = p -> pose (scanQuality s') = p ->
             captures s' = captures s ->
             lastAutoCaptureAt s' = lastAutoCaptureAt s ->
             (autoCountdown s = None -> autoCountdown s' = None) ->
             let s2 := commit (inStart i) (inZero i) (inNow i) (inGrab i) s' in
             lastCapturedPose s2 = p
             /\ pose (scanQuality s2) = p
             /\ captures s2 = captures s
             /\ lastAutoCaptureAt s2 = lastAutoCaptureAt s
             /\ (autoCountdown s = None -> autoCountdown s2 = None)).
  { intros s' L' Q' C' A' N'. cbn zeta.
    assert (G : gate s' = false).
    { apply gate_same_pose, samePoseAsLast_iff. split; congruence. }
    destruct (commit_blocked (inStart i) (inZero i) (inNow i) (inGrab i) s' G)
      as [E | E]; rewrite E; cbn; auto. }
  destruct (inEvent i) as [q | f | | | g | fs | r | b | b | n];
    cbn [update rerenders] in *; try discriminate S.
  - apply Pose_eqb_eq in S. apply K; cbn; auto.
  - cbn. auto.
  - apply K; try congruence. intro N. rewrite (T5 N). exact N.
  - apply K; auto.
  - apply K; cbn; auto.
  - apply K; cbn; auto.
  - apply K; cbn; auto.
Qed.

Lemma run_same_pose (p : Pose) (ins : list Input) :
  p <> PoseUnknown ->
  forall s,
  lastCapturedPose s = p -> pose (scanQuality s) = p ->
  forallb (samplesOnly p) ins = true ->
  captures (run ins s) = captures s
  /\ lastAutoCaptureAt (run ins s) = lastAutoCaptureAt s
  /\ lastCapturedPose (run ins s) = p
  /\ (autoCountdown s = None -> autoCountdown (run ins s) = None).
Proof.
  intro U. induction ins as [|i rest IH]; intros s L Q F; cbn [run].
  - auto.
  - cbn [forallb] in F. apply andb_true_iff in F. destruct F as [Fi Fr].
    destruct (react_same_pose p i s U L Q Fi) as [L' [Q' [C' [A' N']]]].
    destruct (IH (react i s) L' Q' Fr) as [C2 [A2 [L2 N2]]].
    repeat split; try congruence. intro N. apply N2, N', N.
Qed.

(** C3: while the sample's pose is a known pose equal to the pose
    captured last, the start effect clears the countdown instead of
    arming it and the zero effect clears it without capturing; so with
    front captured last, no run of front-pose samples (with timer ticks
    and re-renders in between) starts a countdown or captures. *)
Theorem C3_same_pose_never_fires :
  (forall now g s,
      pose (scanQuality s) <> PoseUnknown ->
      pose (scanQuality s) = lastCapturedPose s ->
      autoStartEffect now s = setAutoCountdown None s
      /\ (autoCountdown s = Some 0%Z ->
          autoZeroEffect now g s = setAutoCountdown None s))
  /\ (forall ins s,
      lastCapturedPose s = PoseFront ->
      pose (scanQuality s) = PoseFront ->
      forallb (samplesOnly PoseFront) ins = true ->
      captures (run ins s) = captures s
      /\ lastAutoCaptureAt (run ins s) = lastAutoCaptureAt s
      /\ lastCapturedPose (run ins s) = PoseFront
      /\ (autoCountdown s = None -> autoCountdown (run ins s) = None)).
Proof.
  split.
  - intros now g s U L.
    assert (G : gate s = false)
      by (apply gate_same_pose, samePoseAsLast_iff; split; assumption).
    split.
    + destruct (autoStartEffect_cases now s) as [[_ E] | [[T _] | [T _]]];
        congruence.
    + intro Z0. rewrite (autoZeroEffect_at_zero now g s Z0), G. reflexivity.
  - intros ins s L Q F. apply run_same_pose; trivial. discriminate.
Qed.

Lemma zero_effect_stamps (now : Z) (g : Grab) (s : State) :
  autoCountdown s = Some 0%Z -> gate s = true ->
  autoCountdown (autoZeroEffect now g s) = None
  /\ lastAutoCaptureAt (autoZeroEffect now g s) = now.
Proof.
  intros Z0 G. rewrite (autoZeroEffect_at_zero now g s Z0), G.
  destruct (captureFromCamera_frame g
              (setAutoCountdown None (setLastAutoCaptureAt now s)))
    as [A [B _]].
  rewrite A, B. split; reflexivity.
Qed.

(** One input within the cooldown leaves an idle machine idle. *)
Lemma react_within_cooldown (t : Z) (i : Input) (s : State) :
  autoCountdown s = None -> lastAutoCaptureAt s = t ->
  withinCooldown t i = true ->
  autoCountdown (react i s) = None /\ lastAutoCaptureAt (react i s) = t.
Proof.
  intros N L W. unfold withinCooldown in W. apply Z.leb_le in W.
  assert (K : forall s', autoCountdown s' = None -> lastAutoCaptureAt s' = t ->
             let s2 := commit (inStart i) (inZero i) (inNow i) (inGrab i) s' in
             autoCountdown s2 = None /\ lastAutoCaptureAt s2 = t).
  { intros s' N' L'. cbn zeta. unfold commit.
    assert (S : let s1 := if inStart i then autoStartEffect (inNow i) s'
                          else s' in
                autoCountdown s1 = None /\ lastAutoCaptureAt s1 = t).
    { cbn zeta. destruct (inStart i); [|auto].
      destruct (autoStartEffect_cases (inNow i) s')
        as [[_ E] | [[_ [_ [T _]]] | [_ [E _]]]].
      - rewrite E. cbn. auto.
      - lia.
      - rewrite E. auto. }
    cbn zeta in S. destruct S as [S1 S2].
    destruct (inZero i); [|auto].
    rewrite autoZeroEffect_off_zero by (rewrite S1; discriminate). auto. }
  unfold react.
  destruct (inEvent i) as [q | f | | | g | fs | r | b | b | n];
    cbn [update rerenders].
  - apply K; cbn; assumption.
  - cbn. auto.
  - destruct (countdownTick_frame s) as [_ [_ [_ [_ T]]]].
    rewrite (T N). apply K; assumption.
  - apply K; assumption.
  - destruct (captureFromCamera_frame g s) as [A [B _]].
    apply K; congruence.
  - apply K; destruct fs; cbn; assumption.
  - apply K; cbn; assumption.
  - apply K; cbn; assumption.
  - apply K; cbn; assumption.
  - apply K; cbn; assumption.
Qed.

Lemma run_within_cooldown (t : Z) (ins : list Input) :
  forall s,
  autoCountdown s = None -> lastAutoCaptureAt s = t ->
  forallb (withinCooldown t) ins = true ->
  autoCountdown (run ins s) = None /\ lastAutoCaptureAt (run ins s) = t.
Proof.
  induction ins as [|i rest IH]; intros s N L F; cbn [run].
  - auto.
  - cbn [forallb] in F. apply andb_true_iff in F. destruct F as [Fi Fr].
    destruct (react_within_cooldown t i s N L Fi) as [N' L'].
    apply IH; assumption.
Qed.

(** C4: right after an auto-capture at time [now] the machine is idle
    with [lastAutoCaptureAt = now], and whatever happens while the clock
    reads at most [now + 2500] (perfect samples included) the countdown
    stays unarmed: a new one needs strictly more than 2500 ms. *)
Theorem C4_cooldown_blocks_restart
  (now : Z) (g : Grab) (s : State) (ins : list Input) :
  autoCountdown s = Some 0%Z -> gate s = true ->
  forallb (withinCooldown now) ins = true ->
  autoCountdown (autoZeroEffect now g s) = None
  /\ lastAutoCaptureAt (autoZeroEffect now g s) = now
  /\ autoCountdown (run ins (autoZeroEffect now g s)) = None.
Proof.
  intros Z0 G F.
  destruct (zero_effect_stamps now g s Z0 G) as [N L].
  refine (conj N (conj L _)).
  apply (run_within_cooldown now ins _ N L F).
Qed.

(** With a clock that only moves forward the cooldown needs no second
    look: a countdown is armed only once it has elapsed, and the stamp
    moves only when the countdown ends. *)
Lemma commit_cooled (rs rz : bool) (now : Z) (g : Grab) (s : State) :
  cooledWhileCounting now s ->
  cooledWhileCounting now (commit rs rz now g s).
Proof.
  intro P. unfold commit.
  assert (P1 : cooledWhileCounting now
                 (if rs then autoStartEffect now s else s)).
  { destruct rs; [|exact P].
    destruct (autoStartEffect_cases now s)
      as [[_ E] | [[_ [_ [T E]]] | [_ [E _]]]]; rewrite E.
    - intros n C. discriminate C.
    - intros n _. cbn. exact T.
    - exact P. }
  destruct rz; [|exact P1].
  set (s1 := if rs then autoStartEffect now s else s) in *.
  destruct (autoCountdown s1) as [[|v|v]|] eqn:C.
  - rewrite (autoZeroEffect_at_zero now g s1 C). destruct (gate s1).
    + intros n N.
      destruct (captureFromCamera_frame g
                  (setAutoCountdown None (setLastAutoCaptureAt now s1)))
        as [A _].
      rewrite A in N. discriminate N.
    + intros n N. discriminate N.
  - rewrite autoZeroEffect_off_zero by (rewrite C; discriminate). exact P1.
  - rewrite autoZeroEffect_off_zero by (rewrite C; discriminate). exact P1.
  - rewrite autoZeroEffect_off_zero by (rewrite C; discriminate). exact P1.
Qed.

Lemma react_cooled (t : Z) (i : Input) (s : State) :
  (t <= inNow i)%Z ->
  cooledWhileCounting t s -> cooledWhileCounting (inNow i) (react i s).
Proof.
  intros Le P.
  assert (U : cooledWhileCounting (inNow i) (update (inEvent i) s)).
  { intros n C.
    assert (X : lastAutoCaptureAt (update (inEvent i) s) = lastAutoCaptureAt s
                /\ exists m, autoCountdown s = Some m).
    { destruct (inEvent i) as [q | f | | | g | fs | r | b | b | k];
        cbn [update] in *;
        try (split; [reflexivity | exists n; exact C]).
      - destruct (countdownTick_frame s) as [_ [T2 _]]. split; [exact T2|].
        unfold countdownTick in C. destruct (autoCountdown s) as [v|] eqn:E;
          [exists v; reflexivity | congruence].
      - destruct (captureFromCamera_frame g s) as [A [B _]].
        split; [exact B|]. exists n. congruence.
      - destruct fs; split; try reflexivity; exists n; exact C. }
    destruct X as [L [m M]]. rewrite L. pose proof (P m M). lia. }
  unfold react. destruct (rerenders (inEvent i)); [|exact U].
  apply commit_cooled. exact U.
Qed.

Lemma run_cooled (ins : list Input) :
  forall t s,
    forwardFrom t ins = true ->
    cooledWhileCounting t s ->
    exists t', (t <= t')%Z /\ cooledWhileCounting t' (run ins s).
Proof.
  induction ins as [|i rest IH]; intros t s F P; cbn [run].
  - exists t. split; [lia | exact P].
  - cbn [forwardFrom] in F. apply andb_true_iff in F. destruct F as [Le F].
    apply Z.leb_le in Le.
    destruct (IH (inNow i) (react i s) F (react_cooled t i s Le P))
      as [t' [Le' P']].
    exists t'. split; [lia | exact P'].
Qed.

End AutoCaptureRuns.

Section AutoCaptureWitnesses.
Import Quality AutoCapture.

Lemma C3_witness :
  (autoStartEffect 90000 idleFront = setAutoCountdown None idleFront
   /\ (autoCountdown idleFront = Some 0%Z ->
       autoZeroEffect 90000 okGrab idleFront
       = setAutoCountdown None idleFront))
  /\ (captures (run frontRun idleFront) = captures idleFront
      /\ lastAutoCaptureAt (run frontRun idleFront)
         = lastAutoCaptureAt idleFront
      /\ lastCapturedPose (run frontRun idleFront) = PoseFront
      /\ (autoCountdown idleFront = None ->
          autoCountdown (run frontRun idleFront) = None)).
Proof.
  split.
  - apply (proj1 C3_same_pose_never_fires 90000%Z okGrab idleFront).
    + cbn. discriminate.
    + reflexivity.
  - apply (proj2 C3_same_pose_never_fires frontRun idleFront);
      reflexivity.
Defined.

Lemma C4_witness :
  autoCountdown (autoZeroEffect 50000 okGrab atZeroLeft) = None
  /\ lastAutoCaptureAt (autoZeroEffect 50000 okGrab atZeroLeft) = 50000%Z
  /\ autoCountdown (run cooldownRun (autoZeroEffect 50000 okGrab atZeroLeft))
     = None.
Proof.
  apply (C4_cooldown_blocks_restart 50000%Z okGrab atZeroLeft cooldownRun);
    reflexivity.
Defined.

(** The same run one millisecond later arms the countdown: the bound of
    the cooldown is tight. *)
Example cooldown_elapsed_restarts :
  autoCountdown
    (run (cooldownRun ++ [mkInput 52501 okGrab (EvSample rightSample) true true])
         (autoZeroEffect 50000 okGrab atZeroLeft))
  = Some 3%Z.
Proof. reflexivity. Qed.

(** C10: neither the capture button nor the upload looks at the number
    of captures.  In every state a successful frame grab appends exactly
    one capture and an upload appends one capture per file, so from
    three captures on the list grows past the budget of the automatic
    path. *)
Theorem C10_manual_paths_ignore_budget :
  (forall g s b,
      video g = true -> ctx2d g = true -> blobOut g = Some b ->
      captures (captureFromCamera g s)
      = captures s
          ++ [mkCaptureItem (newId g) b (newUrl g) (poseOf (latestFace s))]
      /\ List.length (captures (captureFromCamera g s))
         = S (List.length (captures s)))
  /\ (forall fs s,
      captures (addFiles (Some fs) s)
      = captures s
          ++ map (fun f => mkCaptureItem (fileId f) (fileBlob f) (fileUrl f)
                                         PoseUnknown) fs
      /\ List.length (captures (addFiles (Some fs) s))
         = (List.length (captures s) + List.length fs)%nat)
  /\ (forall now g' rs rz g s b,
      (3 <= List.length (captures s))%nat ->
      video g = true -> ctx2d g = true -> blobOut g = Some b ->
      (3 < List.length
             (captures (react (mkInput now g' (EvManualCapture g) rs rz)
                              s)))%nat)
  /\ (forall now g' rs rz f s,
      (3 <= List.length (captures s))%nat ->
      (3 < List.length
             (captures (react (mkInput now g' (EvAddFiles (Some [f])) rs rz)
                              s)))%nat).
Proof.
  refine (conj _ (conj _ (conj _ _))).
  - intros g s b V C B.
    destruct (captureFromCamera_ok g s b V C B) as [E _].
    split; [exact E|]. rewrite E, length_app. cbn. lia.
  - intros fs s. cbn. split; [reflexivity|].
    rewrite length_app, length_map. reflexivity.
  - intros now g' rs rz g s b L V C B.
    destruct (captureFromCamera_ok g s b V C B) as [E _].
    unfold react. cbn [inEvent update rerenders inNow inGrab inStart inZero].
    assert (L' : (3 <= List.length (captures (captureFromCamera g s)))%nat)
      by (rewrite E, length_app; cbn; lia).
    destruct (commit_blocked rs rz now g' _ (gate_over_budget _ L'))
      as [K | K]; rewrite K; cbn [captures setAutoCountdown];
      rewrite E, length_app; cbn; lia.
  - intros now g' rs rz f s L.
    unfold react. cbn [inEvent update rerenders inNow inGrab inStart inZero].
    assert (L' : (3 <= List.length (captures (addFiles (Some [f]) s)))%nat)
      by (cbn; rewrite length_app; cbn; lia).
    destruct (commit_blocked rs rz now g' _ (gate_over_budget _ L'))
      as [K | K]; rewrite K; cbn; rewrite length_app; cbn; lia.
Qed.

Lemma C10_witness :
  (captures (captureFromCamera okGrab atZeroFull)
   = captures atZeroFull
       ++ [mkCaptureItem (newId okGrab) [255%Z] (newUrl okGrab)
                         (poseOf (latestFace atZeroFull))]
   /\ List.length (captures (captureFromCamera okGrab atZeroFull))
      = S (List.length (captures atZeroFull)))
  /\ (3 < List.length
            (captures (react (mkInput 99000 okGrab (EvManualCapture okGrab)
                                      true true)
                             atZeroFull)))%nat
  /\ (3 < List.length
            (captures (react (mkInput 99000 okGrab
                                (EvAddFiles (Some [mkFileIn [1%Z] "f1" "blob:2"]))
                                true true)
                             atZeroFull)))%nat.
Proof.
  refine (conj _ (conj _ _)).
  - apply (proj1 C10_manual_paths_ignore_budget okGrab atZeroFull [255%Z]);
      reflexivity.
  - apply (proj1 (proj2 (proj2 C10_manual_paths_ignore_budget))
             99000%Z okGrab true true okGrab atZeroFull [255%Z]);
      try reflexivity; cbn; lia.
  - apply (proj2 (proj2 (proj2 C10_manual_paths_ignore_budget))
             99000%Z okGrab true true (mkFileIn [1%Z] "f1" "blob:2")
             atZeroFull).
    cbn. lia.
Defined.

End AutoCaptureWitnesses.

(** ** The heatmap anchor *)

Section HeatmapFacts.
Import Heatmap.

(** A loop that adds a positive weight on a hit and skips otherwise ends
    with a positive total exactly when it met a hit. *)
Lemma fold_hits {A : Type} (f : Acc -> A -> Acc) (hit : A -> bool) :
  (forall acc a, hit a = false -> f acc a = acc) ->
  (forall acc a, hit a = true -> (sum acc < sum (f acc a))%Z) ->
  forall l acc,
    (existsb hit l = false -> fold_left f l acc = acc)
    /\ (existsb hit l = true -> (sum acc < sum (fold_left f l acc))%Z)
    /\ (sum acc <= sum (fold_left f l acc))%Z.
Proof.
  intros Miss Hit. induction l as [|a l IH]; intro acc; cbn [existsb fold_left].
  - repeat split; [discriminate | lia].
  - destruct (IH (f acc a)) as [I1 [I2 I3]].
    destruct (hit a) eqn:H; cbn [orb].
    + pose proof (Hit acc a H). repeat split; [discriminate | lia | lia].
    + rewrite (Miss acc a H) in *. repeat split; assumption.
Qed.

Lemma visit_miss (data : list Z) (tw minA cy : Z) (acc : Acc) (cx : Z) :
  (minA <=? alphaAt data ((cy * tw + cx) * 4 + 3))%Z = false ->
  visit data tw minA cy acc cx = acc.
Proof.
  intro M. unfold visit. apply Z.leb_gt in M.
  destruct (Z.ltb_spec (alphaAt data ((cy * tw + cx) * 4 + 3)) minA);
    [reflexivity | lia].
Qed.

Lemma visit_hit (data : list Z) (tw minA cy : Z) (acc : Acc) (cx : Z) :
  (1 <= minA)%Z ->
  (minA <=? alphaAt data ((cy * tw + cx) * 4 + 3))%Z = true ->
  (sum acc < sum (visit data tw minA cy acc cx))%Z.
Proof.
  intros P H. unfold visit. apply Z.leb_le in H.
  destruct (Z.ltb_spec (alphaAt data ((cy * tw + cx) * 4 + 3)) minA);
    [lia | cbn [sum]; lia].
Qed.

Lemma centroid_none_iff (data : list Z) (tw th minA : Z) :
  (1 <= minA)%Z ->
  centroid data tw th minA = None <-> clears data tw th minA = false.
Proof.
  intro P. unfold centroid, accumulate.
  set (hitX := fun cy cx =>
                 (minA <=? alphaAt data ((cy * tw + cx) * 4 + 3))%Z).
  set (hitY := fun cy => existsb (hitX cy) (sampled tw)).
  assert (Row : forall cy acc,
             (hitY cy = false -> visitRow data tw minA acc cy = acc)
             /\ (hitY cy = true ->
                 (sum acc < sum (visitRow data tw minA acc cy))%Z)).
  { intros cy acc. unfold visitRow, hitY.
    destruct (fold_hits (visit data tw minA cy) (hitX cy)
                (fun a c => visit_miss data tw minA cy a c)
                (fun a c => visit_hit data tw minA cy a c P)
                (sampled tw) acc) as [R1 [R2 _]].
    split; assumption. }
  destruct (fold_hits (visitRow data tw minA) hitY
              (fun a c => proj1 (Row c a)) (fun a c => proj2 (Row c a))
              (sampled th) (mkAcc 0 0 0)) as [F1 [F2 _]].
  replace (clears data tw th minA) with (existsb hitY (sampled th))
    by reflexivity.
  destruct (existsb hitY (sampled th)) eqn:E.
  - pose proof (F2 eq_refl) as G. cbn [sum] in G.
    destruct (Z.leb_spec (sum (fold_left (visitRow data tw minA) (sampled th)
                                         (mkAcc 0 0 0))) 0); [lia|].
    split; discriminate.
  - rewrite (F1 eq_refl). cbn. split; reflexivity.
Qed.

Lemma clears_mono (data : list Z) (tw th a b : Z) :
  (a <= b)%Z -> clears data tw th b = true -> clears data tw th a = true.
Proof.
  intros L. unfold clears. rewrite !existsb_exists.
  intros [cy [Iy H]]. exists cy. split; [exact Iy|].
  rewrite existsb_exists in *. destruct H as [cx [Ix H]].
  exists cx. split; [exact Ix|]. apply Z.leb_le in H. apply Z.leb_le. lia.
Qed.

Lemma thresh_ge_40 (maxA : Z) : (40 <= thresh maxA)%Z.
Proof. unfold thresh. lia. Qed.

(** The running maximum dominates its start and every alpha entry. *)
Lemma maxAlphaFrom_ge_fuel (n : nat) :
  forall data m, (List.length data <= n)%nat -> (m <= maxAlphaFrom data m)%Z.
Proof.
  induction n as [|n IH]; intros data m L;
    destruct data as [|r [|g [|b [|a rest]]]]; cbn [maxAlphaFrom];
    try lia; cbn [List.length] in L; try lia.
  assert (L' : (List.length rest <= n)%nat) by lia.
  pose proof (IH rest (if (a >? m)%Z then a else m) L').
  destruct (Z.gtb_spec a m); lia.
Qed.

Lemma maxAlphaFrom_ge (data : list Z) (m : Z) : (m <= maxAlphaFrom data m)%Z.
Proof. apply (maxAlphaFrom_ge_fuel (List.length data)). lia. Qed.

Lemma maxAlphaFrom_alpha_fuel (n : nat) :
  forall data m k,
    (List.length data <= n)%nat ->
    (nth (4 * k + 3) data 0 <= Z.max 0 (maxAlphaFrom data m))%Z.
Proof.
  induction n as [|n IH]; intros data m k L;
    destruct data as [|r [|g [|b [|a rest]]]];
    try (rewrite nth_overflow by (cbn [List.length]; lia); lia);
    cbn [List.length] in L; try lia.
  cbn [maxAlphaFrom].
  pose proof (maxAlphaFrom_ge rest (if (a >? m)%Z then a else m)) as G.
  destruct k as [|k].
  - cbn [nth Nat.mul Nat.add]. destruct (Z.gtb_spec a m); lia.
  - replace (4 * S k + 3)%nat with (S (S (S (S (4 * k + 3)))))%nat by lia.
    cbn [nth]. apply IH. lia.
Qed.

Lemma maxAlphaFrom_alpha (data : list Z) (m : Z) (k : nat) :
  (nth (4 * k + 3) data 0 <= Z.max 0 (maxAlphaFrom data m))%Z.
Proof. apply (maxAlphaFrom_alpha_fuel (List.length data)). lia. Qed.

End HeatmapFacts.

Section HeatmapClaims.
Import Heatmap.

Lemma sampled_In (n v : Z) : In v (sampled n) -> (0 <= v < n)%Z.
Proof.
  unfold sampled. rewrite in_map_iff. intros [k [E I]].
  apply in_seq in I. subst v.
  assert (Z.of_nat k < (n + 1) / 2)%Z by lia.
  pose proof (Z.mul_div_le (n + 1) 2). lia.
Qed.

Lemma alphaAt_le_max (data : list Z) (tw cy cx : Z) :
  (0 <= cy)%Z -> (0 <= cx < tw)%Z ->
  (alphaAt data ((cy * tw + cx) * 4 + 3) <= Z.max 0 (maxAlphaFrom data 0))%Z.
Proof.
  intros Y X. unfold alphaAt.
  replace (Z.to_nat ((cy * tw + cx) * 4 + 3))
    with (4 * Z.to_nat (cy * tw + cx) + 3)%nat by nia.
  apply maxAlphaFrom_alpha.
Qed.

Lemma clears_false_iff (data : list Z) (tw th minA : Z) :
  clears data tw th minA = false <->
  forall cy cx, In cy (sampled th) -> In cx (sampled tw) ->
                (alphaAt data ((cy * tw + cx) * 4 + 3) < minA)%Z.
Proof.
  unfold clears. split.
  - intros E cy cx Iy Ix.
    destruct (Z.leb_spec minA (alphaAt data ((cy * tw + cx) * 4 + 3)))
      as [L|L]; [|exact L].
    exfalso. assert (T : existsb
      (fun cy0 => existsb
         (fun cx0 => (minA <=? alphaAt data ((cy0 * tw + cx0) * 4 + 3))%Z)
         (sampled tw)) (sampled th) = true).
    { apply existsb_exists. exists cy. split; [exact Iy|].
      apply existsb_exists. exists cx. split; [exact Ix|].
      apply Z.leb_le. exact L. }
    congruence.
  - intro A.
    destruct (existsb _ (sampled th)) eqn:E; [|reflexivity].
    apply existsb_exists in E. destruct E as [cy [Iy E]].
    apply existsb_exists in E. destruct E as [cx [Ix E]].
    apply Z.leb_le in E. pose proof (A cy cx Iy Ix). lia.
Qed.

Lemma no_alpha_no_clear (data : list Z) (tw th : Z) :
  (maxAlphaFrom data 0 <= 0)%Z -> clears data tw th 1 = false.
Proof.
  intro M. apply clears_false_iff. intros cy cx Iy Ix.
  apply sampled_In in Iy. apply sampled_In in Ix.
  pose proof (alphaAt_le_max data tw cy cx (proj1 Iy) Ix).
  lia.
Qed.

Lemma alphaAt_byte (data : list Z) (idx : Z) :
  forallb isByte data = true -> (0 <= alphaAt data idx <= 255)%Z.
Proof.
  intro B. unfold alphaAt.
  destruct (nth_in_or_default (Z.to_nat idx) data 0%Z) as [I|D].
  - rewrite forallb_forall in B. specialize (B _ I).
    unfold isByte in B. apply andb_true_iff in B. lia.
  - rewrite D. lia.
Qed.

(** [anchorOfData] by cases on what the sampling loops see. *)
Lemma anchorOfData_cases (tw th cw ch : Z) (data : list Z) :
  let t := thresh (maxAlphaFrom data 0) in
  (clears data tw th t = true ->
     exists c, centroid data tw th t = Some c
               /\ anchorOfData tw th data cw ch = Some (toCanvas tw th cw ch c))
  /\ (clears data tw th t = false -> clears data tw th 1 = true ->
     exists c, centroid data tw th 1 = Some c
               /\ anchorOfData tw th data cw ch = Some (toCanvas tw th cw ch c))
  /\ (anchorOfData tw th data cw ch = None <-> clears data tw th 1 = false).
Proof.
  intro t. subst t. set (t := thresh (maxAlphaFrom data 0)).
  assert (T1 : (1 <= t)%Z) by (pose proof (thresh_ge_40 (maxAlphaFrom data 0)); subst t; lia).
  pose proof (centroid_none_iff data tw th t T1) as Ct.
  pose proof (centroid_none_iff data tw th 1 (Z.le_refl 1)) as C1.
  assert (Pos : clears data tw th 1 = true ->
                (maxAlphaFrom data 0 <=? 0)%Z = false).
  { intro K. destruct (Z.leb_spec (maxAlphaFrom data 0) 0) as [L|L];
      [|reflexivity].
    rewrite (no_alpha_no_clear data tw th L) in K. discriminate. }
  unfold anchorOfData. fold t.
  refine (conj _ (conj _ _)).
  - intro K. rewrite (Pos (clears_mono data tw th 1 t T1 K)).
    destruct (centroid data tw th t) as [c|] eqn:E.
    + exists c. split; reflexivity.
    + rewrite (proj1 Ct eq_refl) in K. discriminate.
  - intros Kt K1. rewrite (Pos K1). rewrite (proj2 Ct Kt). cbn [orElse].
    destruct (centroid data tw th 1) as [c|] eqn:E.
    + exists c. split; reflexivity.
    + rewrite (proj1 C1 eq_refl) in K1. discriminate.
  - destruct (maxAlphaFrom data 0 <=? 0)%Z eqn:M.
    + apply Z.leb_le in M. rewrite (no_alpha_no_clear data tw th M).
      split; reflexivity.
    + destruct (clears data tw th 1) eqn:K1.
      * split; [|discriminate]. 
        destruct (centroid data tw th t) as [c|]; cbn [orElse];
          [discriminate|].
        destruct (centroid data tw th 1) as [c|] eqn:E; [discriminate|].
        intros _. exact (proj1 C1 eq_refl).
      * split; [reflexivity|]. intros _.
        assert (Kt : clears data tw th t = false).
        { destruct (clears data tw th t) eqn:Kt; [|reflexivity].
          rewrite (clears_mono data tw th 1 t T1 Kt) in K1. discriminate. }
        rewrite (proj2 Ct Kt), (proj2 C1 eq_refl). reflexivity.
Qed.

(** C8 as worded fails: the maximum is taken over every pixel but the
    centroid loops visit every second row and column only.  A heatmap
    whose one opaque pixel sits at column 1 has a nonzero alpha, yet both
    centroids are empty and no anchor is returned. *)
Lemma C8_counterexample :
  List.length (onePixelRow 1 255) = 640%nat
  /\ forallb isByte (onePixelRow 1 255) = true
  /\ alphaAt (onePixelRow 1 255) 7 = 255%Z
  /\ maxAlphaFrom (onePixelRow 1 255) 0 = 255%Z
  /\ heatmapAnchor true (onePixelEntries 1 255) 400 600 [] "redness"
     = (None, [])
  /\ metricAnchor true (onePixelEntries 1 255) 400 600 someLandmarks []
                  "redness"
     = (avg2 (leftCheek someLandmarks) (rightCheek someLandmarks), []).
Proof. vm_compute. repeat split. Qed.

(** C8 (amended): on the image data read back for a metric, the anchor
    is the canvas-scaled weighted centroid of the visited pixels (every
    second row and column) whose alpha is at least
    [max(40, round(0.55 * maxAlpha))]; when no visited pixel reaches
    that, it is the centroid of the visited pixels with nonzero alpha
    instead; and no anchor is returned exactly when every visited pixel
    has alpha zero, in which case [metricAnchor] answers with the fixed
    landmark point. *)
Theorem C8_heatmap_anchor_fallback
  (entries : list Entry) (cw ch : Z) (lm : Landmarks) (cache : Cache)
  (i : string) (e : Entry) (src : SrcImg) (data : list Z) :
  cacheGet cache i = None ->
  find (fun e => String.eqb (entryId e) i) entries = Some e ->
  img e = Some src ->
  readBack src 160 (workingHeight src) = Some data ->
  forallb isByte data = true ->
  let th := workingHeight src in
  let t := thresh (maxAlphaFrom data 0) in
  let res := fst (heatmapAnchor true entries cw ch cache i) in
  (clears data 160 th t = true ->
     exists c, centroid data 160 th t = Some c
               /\ res = Some (toCanvas 160 th cw ch c))
  /\ (clears data 160 th t = false -> clears data 160 th 1 = true ->
     exists c, centroid data 160 th 1 = Some c
               /\ res = Some (toCanvas 160 th cw ch c))
  /\ (res = None <->
      forall cy cx, In cy (sampled th) -> In cx (sampled 160) ->
                    alphaAt data ((cy * 160 + cx) * 4 + 3) = 0%Z)
  /\ (res = None ->
      metricAnchor true entries cw ch lm cache i = (landmarkAnchor lm i, cache)).
Proof.
  intros Miss Fnd Img Rd Bytes th t res.
  destruct (anchorOfData_cases 160 th cw ch data) as [A [B C]].
  assert (R : heatmapAnchor true entries cw ch cache i
              = match anchorOfData 160 th data cw ch with
                | None => (None, cache)
                | Some out => (Some out, (i, out) :: cache)
                end).
  { unfold heatmapAnchor. rewrite Miss. cbn [negb]. rewrite Fnd, Img.
    rewrite Rd. reflexivity. }
  assert (R1 : res = anchorOfData 160 th data cw ch).
  { subst res. rewrite R. destruct (anchorOfData 160 th data cw ch);
      reflexivity. }
  refine (conj _ (conj _ (conj _ _))).
  - intro K. destruct (A K) as [c [E1 E2]]. exists c.
    split; [exact E1 | congruence].
  - intros Kt K1. destruct (B Kt K1) as [c [E1 E2]]. exists c.
    split; [exact E1 | congruence].
  - rewrite R1, C, clears_false_iff. split; intros H cy cx Iy Ix.
    + pose proof (H cy cx Iy Ix).
      pose proof (alphaAt_byte data ((cy * 160 + cx) * 4 + 3) Bytes). lia.
    + rewrite (H cy cx Iy Ix). lia.
  - intro N. unfold metricAnchor. rewrite R.
    rewrite R1 in N. rewrite N. reflexivity.
Qed.

Lemma C8_witness :
  (exists c, centroid (onePixelRow 2 200) 160 1 (thresh 200) = Some c
             /\ fst (heatmapAnchor true (onePixelEntries 2 200) 400 600 []
                                   "redness")
                = Some (toCanvas 160 1 400 600 c))
  /\ (exists c, centroid (onePixelRow 2 30) 160 1 1 = Some c
             /\ fst (heatmapAnchor true (onePixelEntries 2 30) 400 600 []
                                   "redness")
                = Some (toCanvas 160 1 400 600 c))
  /\ metricAnchor true (onePixelEntries 1 255) 400 600 someLandmarks []
                  "redness"
     = (landmarkAnchor someLandmarks "redness", []).
Proof.
  refine (conj _ (conj _ _)).
  - apply (proj1 (C8_heatmap_anchor_fallback
             (onePixelEntries 2 200) 400 600 someLandmarks [] "redness"
             (mkEntry "redness"
                (Some (mkSrcImg 160 1 (fun _ _ => Some (onePixelRow 2 200)))))
             (mkSrcImg 160 1 (fun _ _ => Some (onePixelRow 2 200)))
             (onePixelRow 2 200)
             eq_refl eq_refl eq_refl eq_refl eq_refl)).
    vm_compute. reflexivity.
  - apply (proj1 (proj2 (C8_heatmap_anchor_fallback
             (onePixelEntries 2 30) 400 600 someLandmarks [] "redness"
             (mkEntry "redness"
                (Some (mkSrcImg 160 1 (fun _ _ => Some (onePixelRow 2 30)))))
             (mkSrcImg 160 1 (fun _ _ => Some (onePixelRow 2 30)))
             (onePixelRow 2 30)
             eq_refl eq_refl eq_refl eq_refl eq_refl)));
      vm_compute; reflexivity.
  - apply (proj2 (proj2 (proj2 (C8_heatmap_anchor_fallback
             (onePixelEntries 1 255) 400 600 someLandmarks [] "redness"
             (mkEntry "redness"
                (Some (mkSrcImg 160 1 (fun _ _ => Some (onePixelRow 1 255)))))
             (mkSrcImg 160 1 (fun _ _ => Some (onePixelRow 1 255)))
             (onePixelRow 1 255)
             eq_refl eq_refl eq_refl eq_refl eq_refl)))).
    vm_compute. reflexivity.
Defined.

End HeatmapClaims.

(** ** The callout columns *)

Section CalloutFacts.
Import Callout.

Lemma placeOne_le_bottom (e : Env) (sd : Side) (lastY : option Q) (c : Item) :
  by_ (placeOne e sd lastY c) <= bottom e.
Proof.
  unfold placeOne, bottom. cbn [by_].
  match goal with |- context [Qgtb ?a ?b] => destruct (Qgtb a b) eqn:G end.
  - apply Qle_refl.
  - apply Qgtb_le in G. exact G.
Qed.

Lemma placeOne_below (e : Env) (sd : Side) (l : Q) (c : Item) :
  by_ (placeOne e sd (Some l) c) == bottom e
  \/ l + boxH + gap <= by_ (placeOne e sd (Some l) c).
Proof.
  unfold placeOne, bottom. cbn [by_].
  match goal with |- context [Qgtb ?a ?b] => destruct (Qgtb a b) eqn:G end.
  - left. reflexivity.
  - right.
    match goal with |- context [Qle_bool ?a ?b] =>
      destruct (Qle_bool a b) eqn:L end.
    + apply Qle_refl.
    + apply Qlt_le_weak. apply Qltb_lt. unfold Qltb. rewrite L. reflexivity.
Qed.

Lemma placeFrom_le_bottom (e : Env) (sd : Side) (items : list Item) :
  forall lastY, Forall (fun p => by_ p <= bottom e) (placeFrom e sd lastY items).
Proof.
  induction items as [|c rest IH]; intro lastY; cbn [placeFrom];
    constructor.
  - apply placeOne_le_bottom.
  - apply IH.
Qed.

Lemma placeFrom_below (e : Env) (sd : Side) (items : list Item) :
  forall l,
    l <= bottom e ->
    Forall (fun p => by_ p == bottom e \/ l + boxH + gap <= by_ p)
           (placeFrom e sd (Some l) items).
Proof.
  induction items as [|c rest IH]; intros l Lb; cbn [placeFrom];
    constructor.
  - apply placeOne_below.
  - set (p := placeOne e sd (Some l) c).
    pose proof (placeOne_le_bottom e sd (Some l) c) as Pb. fold p in Pb.
    pose proof (placeOne_below e sd l c) as Pl. fold p in Pl.
    pose proof (placeFrom_le_bottom e sd rest (Some (by_ p))) as Fb.
    specialize (IH (by_ p) Pb).
    rewrite Forall_forall in *. intros q Iq.
    specialize (IH q Iq). specialize (Fb q Iq). cbn beta in *.
    destruct IH as [E | G]; [left; exact E|].
    destruct Pl as [E | G'].
    + left. unfold boxH, gap in *. lra.
    + right. unfold boxH, gap in *. lra.
Qed.

Lemma placeFrom_stacked (e : Env) (sd : Side) (items : list Item) :
  forall lastY, ForallOrdPairs (stacked e) (placeFrom e sd lastY items).
Proof.
  induction items as [|c rest IH]; intro lastY; cbn [placeFrom];
    constructor.
  - apply placeFrom_below. apply placeOne_le_bottom.
  - apply IH.
Qed.

Lemma ordPairs_nth {A : Type} (R : A -> A -> Prop) (l : list A) :
  ForallOrdPairs R l ->
  forall i j a b, (i < j)%nat ->
    nth_error l i = Some a -> nth_error l j = Some b -> R a b.
Proof.
  induction 1 as [|x l Hx Hl IH]; intros i j a b Lt Ni Nj.
  - destruct i; discriminate.
  - destruct j as [|j]; [lia|]. cbn [nth_error] in Nj.
    destruct i as [|i]; cbn [nth_error] in Ni.
    + injection Ni as <-. rewrite Forall_forall in Hx.
      apply Hx. eapply nth_error_In. exact Nj.
    + apply (IH i j); [lia | assumption | assumption].
Qed.

(** C1 as worded fails near the bottom edge: two callouts of the left
    column anchored at y = 590 and y = 595 on a canvas 600 high are both
    put at the bottom bound 562, so their intervals [562, 590] coincide. *)
Lemma C1_counterexample :
  map by_ (fst (layout sampleEnv lowItems)) = [562; 562]
  /\ map (fun p => by_ p + boxH) (fst (layout sampleEnv lowItems))
     = [590; 590]
  /\ snd (layout sampleEnv lowItems) = [].
Proof. vm_compute. repeat split. Qed.

(** C1 (amended): of two boxes placed in one column, the later one
    starts at least a box height plus the 8px gap below the earlier one,
    so their vertical intervals are disjoint, unless the later box is
    held at the bottom bound [canvasHeight - boxH - margin] by the final
    clamp. *)
Theorem C1_column_boxes_stacked
  (e : Env) (items : list Item) (sd : Side) (i j : nat) (p q : Placed) :
  (i < j)%nat ->
  nth_error (placeColumn e items sd) i = Some p ->
  nth_error (placeColumn e items sd) j = Some q ->
  by_ q == bottom e
  \/ (by_ p + boxH + gap <= by_ q /\ by_ p + boxH < by_ q).
Proof.
  intros Lt Ni Nj.
  destruct (ordPairs_nth (stacked e) _ (placeFrom_stacked e sd items None)
              i j p q Lt Ni Nj) as [B | S].
  - left. exact B.
  - right. split; [exact S|]. unfold gap in S. lra.
Qed.

Lemma C1_witness :
  by_ (mkPlaced (mkItem "texture" (Pt.mk 130 310) "Texture: 35"
                        "167, 139, 250" 0.4) 10 (644 # 2) 140 SideLeft)
  == bottom sampleEnv
  \/ (by_ (mkPlaced (mkItem "redness" (Pt.mk 120 300) "Redness: 40"
                            "244, 63, 94" 0.5) 10 (572 # 2) 140 SideLeft)
       + boxH + gap
       <= by_ (mkPlaced (mkItem "texture" (Pt.mk 130 310) "Texture: 35"
                                "167, 139, 250" 0.4) 10 (644 # 2) 140 SideLeft)
      /\ by_ (mkPlaced (mkItem "redness" (Pt.mk 120 300) "Redness: 40"
                               "244, 63, 94" 0.5) 10 (572 # 2) 140 SideLeft)
         + boxH
         < by_ (mkPlaced (mkItem "texture" (Pt.mk 130 310) "Texture: 35"
                                 "167, 139, 250" 0.4) 10 (644 # 2) 140 SideLeft)).
Proof.
  apply (C1_column_boxes_stacked sampleEnv spreadItems SideLeft 0 1).
  - lia.
  - vm_compute. reflexivity.
  - vm_compute. reflexivity.
Defined.

End CalloutFacts.

(** ** More on the callout layout *)

Section CalloutColumns.
Import Callout CalloutTerms.

Lemma assign_spec (e : Env) (l r : list Item) (c : Item) :
  (assign e (l, r) c = (l ++ [c], r)
   /\ (centred e c = true \/ Pt.x (anchor c) < faceCx e))
  \/ (assign e (l, r) c = (l, r ++ [c])
      /\ (centred e c = true \/ faceCx e <= Pt.x (anchor c))).
Proof.
  unfold assign, centred.
  destruct (Qltb (Qabs (Pt.x (anchor c) - faceCx e)) (fw e * 0.08)).
  - destruct (List.length l <=? List.length r)%nat;
      [left | right]; split; auto.
  - destruct (Qltb (Pt.x (anchor c)) (faceCx e)) eqn:L.
    + left. split; [reflexivity|]. right. apply Qltb_lt. exact L.
    + right. split; [reflexivity|]. right. apply Qltb_ge. exact L.
Qed.

Lemma columns_from (e : Env) (items : list Item) :
  forall l r,
    Forall (fun c => centred e c = true \/ Pt.x (anchor c) < faceCx e) l ->
    Forall (fun c => centred e c = true \/ faceCx e <= Pt.x (anchor c)) r ->
    let out := fold_left (assign e) items (l, r) in
    Permutation (l ++ r ++ items) (fst out ++ snd out)
    /\ Forall (fun c => centred e c = true \/ Pt.x (anchor c) < faceCx e)
              (fst out)
    /\ Forall (fun c => centred e c = true \/ faceCx e <= Pt.x (anchor c))
              (snd out).
Proof.
  induction items as [|c rest IH]; intros l r Fl Fr; cbn [fold_left].
  - cbn zeta. cbn [fst snd]. rewrite app_nil_r. auto.
  - destruct (assign_spec e l r c) as [[E S] | [E S]]; rewrite E.
    + assert (Fl' : Forall (fun c0 => centred e c0 = true
                                      \/ Pt.x (anchor c0) < faceCx e)
                           (l ++ [c]))
        by (apply Forall_app; split; [exact Fl | constructor; auto]).
      destruct (IH (l ++ [c]) r Fl' Fr) as [P [A B]].
      refine (conj _ (conj A B)).
      rewrite <- P. rewrite <- app_assoc. cbn [app].
      apply Permutation_app_head. symmetry. apply Permutation_middle.
    + assert (Fr' : Forall (fun c0 => centred e c0 = true
                                      \/ faceCx e <= Pt.x (anchor c0))
                           (r ++ [c]))
        by (apply Forall_app; split; [exact Fr | constructor; auto]).
      destruct (IH l (r ++ [c]) Fl Fr') as [P [A B]].
      refine (conj _ (conj A B)).
      rewrite <- P. rewrite <- app_assoc. reflexivity.
Qed.

(** X1: Every callout goes to exactly one column; the left column holds only
    callouts that are centred or anchored left of the face centre, the
    right column only centred ones or ones anchored at or right of it. *)
Theorem columns_partition (e : Env) (items : list Item) :
  Permutation items (fst (columns e items) ++ snd (columns e items))
  /\ Forall (fun c => centred e c = true \/ Pt.x (anchor c) < faceCx e)
            (fst (columns e items))
  /\ Forall (fun c => centred e c = true \/ faceCx e <= Pt.x (anchor c))
            (snd (columns e items)).
Proof.
  exact (columns_from e items [] [] (Forall_nil _) (Forall_nil _)).
Qed.

Lemma insertByY_perm (c : Item) (l : list Item) :
  Permutation (c :: l) (insertByY c l).
Proof.
  induction l as [|h t IH]; cbn [insertByY].
  - reflexivity.
  - destruct (Qltb (Pt.y (anchor c)) (Pt.y (anchor h))).
    + reflexivity.
    + rewrite perm_swap. apply perm_skip. exact IH.
Qed.

Lemma insertByY_sorted (c : Item) (l : list Item) :
  StronglySorted above l -> StronglySorted above (insertByY c l).
Proof.
  induction 1 as [|h t St IH Fa]; cbn [insertByY].
  - repeat constructor.
  - destruct (Qltb (Pt.y (anchor c)) (Pt.y (anchor h))) eqn:L.
    + apply Qltb_lt in L. constructor.
      * constructor; assumption.
      * constructor.
        -- unfold above. apply Qlt_le_weak. exact L.
        -- rewrite Forall_forall in *. intros x Ix. unfold above in *.
           specialize (Fa x Ix). lra.
    + apply Qltb_ge in L. constructor; [exact IH|].
      rewrite Forall_forall in *. intros x Ix.
      apply (Permutation_in _ (Permutation_sym (insertByY_perm c t))) in Ix.
      destruct Ix as [<- | Ix]; [exact L | exact (Fa x Ix)].
Qed.

Lemma atHeight_app (y0 : Q) (l1 l2 : list Item) :
  atHeight y0 (l1 ++ l2) = atHeight y0 l1 ++ atHeight y0 l2.
Proof. apply filter_app. Qed.

Lemma atHeight_none (y0 : Q) (l : list Item) :
  Forall (fun x => y0 < Pt.y (anchor x)) l -> atHeight y0 l = [].
Proof.
  induction 1 as [|x l Hx Hl IH]; unfold atHeight; cbn [filter].
  - reflexivity.
  - destruct (Qeq_bool (Pt.y (anchor x)) y0) eqn:E.
    + apply Qeq_bool_iff in E. lra.
    + exact IH.
Qed.

(** In a sorted list the new item goes behind the items of its height. *)
Lemma insertByY_stable (y0 : Q) (c : Item) (l : list Item) :
  StronglySorted above l ->
  atHeight y0 (insertByY c l) = atHeight y0 l ++ atHeight y0 [c].
Proof.
  induction 1 as [|h t St IH Fa]; cbn [insertByY].
  - reflexivity.
  - destruct (Qltb (Pt.y (anchor c)) (Pt.y (anchor h))) eqn:L.
    + apply Qltb_lt in L.
      change (c :: h :: t) with ([c] ++ h :: t). rewrite atHeight_app.
      destruct (Qeq_bool (Pt.y (anchor c)) y0) eqn:E.
      * apply Qeq_bool_iff in E.
        assert (N : atHeight y0 (h :: t) = []).
        { apply atHeight_none. constructor; [lra|].
          rewrite Forall_forall in *. intros x Ix.
          specialize (Fa x Ix). unfold above in Fa. lra. }
        rewrite N, app_nil_r. reflexivity.
      * assert (Hc : atHeight y0 [c] = [])
          by (unfold atHeight; cbn [filter]; rewrite E; reflexivity).
        rewrite Hc, app_nil_r. reflexivity.
    + change (h :: insertByY c t) with ([h] ++ insertByY c t).
      change (h :: t) with ([h] ++ t).
      rewrite !atHeight_app, IH, app_assoc. reflexivity.
Qed.

Lemma sortByY_from (items : list Item) :
  forall acc,
    StronglySorted above acc ->
    let out := fold_left (fun a c => insertByY c a) items acc in
    Permutation (acc ++ items) out
    /\ StronglySorted above out
    /\ (forall y0, atHeight y0 out = atHeight y0 acc ++ atHeight y0 items).
Proof.
  induction items as [|c rest IH]; intros acc S; cbn [fold_left].
  - cbn zeta. rewrite app_nil_r. repeat split; auto.
    intro y0. cbn. rewrite app_nil_r. reflexivity.
  - destruct (IH (insertByY c acc) (insertByY_sorted c acc S)) as [P [S' St]].
    refine (conj _ (conj S' _)).
    + rewrite <- P. rewrite <- (insertByY_perm c acc).
      symmetry. apply Permutation_middle.
    + intro y0. rewrite (St y0), (insertByY_stable y0 c acc S).
      rewrite <- app_assoc, <- atHeight_app. reflexivity.
Qed.

(** X2: The column sort is a stable sort by anchor height: the result holds
    the same callouts top to bottom, and callouts of one height keep the
    order they had. *)
Theorem sortByY_stable_sort (items : list Item) :
  Permutation items (sortByY items)
  /\ StronglySorted above (sortByY items)
  /\ (forall y0, atHeight y0 (sortByY items) = atHeight y0 items).
Proof.
  exact (sortByY_from items [] (SSorted_nil _)).
Qed.

End CalloutColumns.

Section CalloutBoxes.
Import Callout CalloutTerms.

Lemma placeFrom_items (e : Env) (sd : Side) (items : list Item) :
  forall lastY,
    map item (placeFrom e sd lastY items) = items
    /\ Forall (fun p => side p = sd) (placeFrom e sd lastY items).
Proof.
  induction items as [|c rest IH]; intro lastY; cbn [placeFrom map].
  - split; [reflexivity | constructor].
  - destruct (IH (Some (by_ (placeOne e sd lastY c)))) as [M F].
    split; [rewrite M; reflexivity | constructor; [reflexivity | exact F]].
Qed.

(** X3: The layout draws one box per callout: the boxes of the two columns
    together carry exactly the callouts it was given, the left column's
    boxes are drawn on the left side and the right column's on the
    right, and within a column the boxes follow the anchors top to
    bottom. *)
Theorem layout_one_box_per_callout (e : Env) (items : list Item) :
  Permutation items
    (map item (fst (layout e items)) ++ map item (snd (layout e items)))
  /\ Forall (fun p => side p = SideLeft) (fst (layout e items))
  /\ Forall (fun p => side p = SideRight) (snd (layout e items))
  /\ StronglySorted above (map item (fst (layout e items)))
  /\ StronglySorted above (map item (snd (layout e items))).
Proof.
  unfold layout.
  destruct (columns_from e items [] [] (Forall_nil _) (Forall_nil _))
    as [P _]. cbn [app] in P. fold (columns e items) in P.
  destruct (columns e items) as [l r]. cbn [fst snd] in *.
  unfold placeColumn.
  destruct (placeFrom_items e SideLeft (sortByY l) None) as [Ml Fl].
  destruct (placeFrom_items e SideRight (sortByY r) None) as [Mr Fr].
  destruct (sortByY_from l [] (SSorted_nil _)) as [Pl [Sl _]].
  destruct (sortByY_from r [] (SSorted_nil _)) as [Pr [Sr _]].
  cbn [app] in Pl, Pr. fold (sortByY l) in Pl, Sl. fold (sortByY r) in Pr, Sr.
  rewrite Ml, Mr. repeat split; trivial.
  rewrite P. apply Permutation_app; assumption.
Qed.

Lemma maxBoxW_range (e : Env) : 160 <= maxBoxW e <= 280.
Proof.
  unfold maxBoxW. split.
  - apply Q.min_glb; [lra | apply Q.le_max_l].
  - apply Q.le_min_l.
Qed.

(** X4: Every box is between 140 and 280 pixels wide and starts at least the
    margin from the left canvas edge; when the canvas is wide enough for
    the box and both margins, the box also ends at least the margin
    before the right edge. *)
Theorem box_within_canvas_width
  (e : Env) (sd : Side) (lastY : option Q) (c : Item) :
  let p := placeOne e sd lastY c in
  (140 <= bw p <= 280)
  /\ margin <= bx p
  /\ (bw p + margin + margin <= inject_Z (canvasWidth e) ->
      bx p + bw p <= inject_Z (canvasWidth e) - margin).
Proof.
  cbn zeta. unfold placeOne. cbn [bw bx].
  set (w := Qmax 140 (Qmin (maxBoxW e) (measureText e (text c) + 22 + pad))).
  assert (W : 140 <= w <= 280).
  { subst w. split; [apply Q.le_max_l|].
    apply Q.max_lub; [lra|].
    pose proof (maxBoxW_range e).
    pose proof (Q.le_min_l (maxBoxW e) (measureText e (text c) + 22 + pad)).
    lra. }
  refine (conj W (conj (Q.le_max_l _ _) _)).
  intro Fit.
  match goal with |- Qmax margin (Qmin ?a ?b) + w <= _ =>
    pose proof (Q.le_min_l a b) as M;
    assert (X : Qmax margin (Qmin a b) <= a)
      by (apply Q.max_lub; [lra | exact M])
  end.
  lra.
Qed.

Lemma placeOne_ge_margin (e : Env) (sd : Side) (lastY : option Q) (c : Item) :
  margin <= bottom e -> margin <= by_ (placeOne e sd lastY c).
Proof.
  intro B. unfold placeOne, bottom in *. cbn [by_].
  set (y1 := Qmax margin
               (Qmin (inject_Z (canvasHeight e) - boxH - margin)
                     (Pt.y (anchor c) - boxH / 2))).
  assert (Y1 : margin <= y1) by apply Q.le_max_l.
  match goal with |- context [Qgtb ?a ?b] => destruct (Qgtb a b) eqn:G end;
    [exact B|].
  destruct lastY as [l|]; [|exact Y1].
  destruct (Qle_bool y1 (l + boxH + gap)) eqn:L; [|exact Y1].
  apply Qle_bool_iff in L. lra.
Qed.

Lemma placeFrom_ge_margin (e : Env) (sd : Side) (items : list Item) :
  margin <= bottom e ->
  forall lastY,
    Forall (fun p => margin <= by_ p) (placeFrom e sd lastY items).
Proof.
  intro B. induction items as [|c rest IH]; intro lastY; cbn [placeFrom];
    constructor.
  - apply placeOne_ge_margin. exact B.
  - apply IH.
Qed.

(** X5: On a canvas at least 48 pixels high every box of a column lies
    between the top margin and the bottom bound, and the boxes come in
    vertical order: a later box never sits above an earlier one. *)
Theorem column_boxes_ordered_within_canvas
  (e : Env) (items : list Item) (sd : Side) (i j : nat) (p q : Placed) :
  margin <= bottom e ->
  (i < j)%nat ->
  nth_error (placeColumn e items sd) i = Some p ->
  nth_error (placeColumn e items sd) j = Some q ->
  margin <= by_ p /\ by_ p <= by_ q /\ by_ q <= bottom e.
Proof.
  intros B Lt Ni Nj. unfold placeColumn in *.
  pose proof (placeFrom_ge_margin e sd items B None) as Fm.
  pose proof (placeFrom_le_bottom e sd items None) as Fb.
  rewrite Forall_forall in Fm, Fb.
  pose proof (Fm p (nth_error_In _ _ Ni)) as Mp.
  pose proof (Fb p (nth_error_In _ _ Ni)) as Bp.
  pose proof (Fb q (nth_error_In _ _ Nj)) as Bq.
  refine (conj Mp (conj _ Bq)).
  destruct (ordPairs_nth (stacked e) _ (placeFrom_stacked e sd items None)
              i j p q Lt Ni Nj) as [E | S].
  - rewrite E. exact Bp.
  - unfold boxH, gap in S. lra.
Qed.

Lemma column_boxes_ordered_witness :
  margin <= 572 # 2 /\ (572 # 2) <= 644 # 2 /\ (644 # 2) <= bottom sampleEnv.
Proof.
  apply (column_boxes_ordered_within_canvas sampleEnv spreadItems SideLeft 0 1
           (mkPlaced (mkItem "redness" (Pt.mk 120 300) "Redness: 40"
                             "244, 63, 94" 0.5) 10 (572 # 2) 140 SideLeft)
           (mkPlaced (mkItem "texture" (Pt.mk 130 310) "Texture: 35"
                             "167, 139, 250" 0.4) 10 (644 # 2) 140 SideLeft)).
  - vm_compute. discriminate.
  - lia.
  - vm_compute. reflexivity.
  - vm_compute. reflexivity.
Defined.

Lemma box_within_canvas_width_witness :
  margin <= bx (placeOne sampleEnv SideLeft None
                  (mkItem "redness" (Pt.mk 120 300) "Redness: 40"
                          "244, 63, 94" 0.5))
  /\ bx (placeOne sampleEnv SideLeft None
            (mkItem "redness" (Pt.mk 120 300) "Redness: 40"
                    "244, 63, 94" 0.5))
      + bw (placeOne sampleEnv SideLeft None
              (mkItem "redness" (Pt.mk 120 300) "Redness: 40"
                      "244, 63, 94" 0.5))
      <= inject_Z (canvasWidth sampleEnv) - margin.
Proof.
  destruct (box_within_canvas_width sampleEnv SideLeft None
              (mkItem "redness" (Pt.mk 120 300) "Redness: 40"
                      "244, 63, 94" 0.5)) as [_ [M F]].
  split; [exact M|]. apply F. vm_compute. discriminate.
Defined.

End CalloutBoxes.

(** ** More on the heatmap anchor *)

Section HeatmapCentroid.
Import Heatmap HeatmapTerms.

Lemma fold_left_inv_In {A B : Type} (f : A -> B -> A) (P : A -> Prop)
  (l : list B) :
  (forall acc b, In b l -> P acc -> P (f acc b)) ->
  forall acc, P acc -> P (fold_left f l acc).
Proof.
  induction l as [|b l IH]; intros Step acc Pa; cbn [fold_left].
  - exact Pa.
  - apply IH.
    + intros acc' b' Ib. apply Step. right. exact Ib.
    + apply Step; [left; reflexivity | exact Pa].
Qed.

Lemma inject_Z_le0 (z : Z) : (0 <= z)%Z -> 0 <= inject_Z z.
Proof. intro H. change 0 with (inject_Z 0). rewrite <- Zle_Qle. exact H. Qed.

Lemma visit_balanced (data : list Z) (tw th minA cy cx : Z) (acc : Acc) :
  (0 <= minA)%Z -> (0 <= cx < tw)%Z -> (0 <= cy < th)%Z ->
  balanced tw th acc -> balanced tw th (visit data tw minA cy acc cx).
Proof.
  intros M X Y [S [X1 [X2 [Y1 Y2]]]]. unfold visit.
  set (a := alphaAt data ((cy * tw + cx) * 4 + 3)).
  destruct (Z.ltb_spec a minA) as [L|L];
    [repeat split; assumption|].
  assert (A0 : 0 <= inject_Z a) by (apply inject_Z_le0; lia).
  assert (Cx0 : 0 <= inject_Z cx) by (apply inject_Z_le0; lia).
  assert (Cy0 : 0 <= inject_Z cy) by (apply inject_Z_le0; lia).
  assert (Cx1 : inject_Z cx + 1 <= inject_Z tw).
  { change 1 with (inject_Z 1). rewrite <- inject_Z_plus, <- Zle_Qle. lia. }
  assert (Cy1 : inject_Z cy + 1 <= inject_Z th).
  { change 1 with (inject_Z 1). rewrite <- inject_Z_plus, <- Zle_Qle. lia. }
  pose proof (Qmult_le_0_compat _ _ Cx0 A0) as PX0.
  pose proof (Qmult_le_0_compat _ _ Cy0 A0) as PY0.
  assert (PX1 : 0 <= (inject_Z tw - inject_Z cx - 1) * inject_Z a)
    by (apply Qmult_le_0_compat; [lra | exact A0]).
  assert (PY1 : 0 <= (inject_Z th - inject_Z cy - 1) * inject_Z a)
    by (apply Qmult_le_0_compat; [lra | exact A0]).
  unfold balanced. cbn [sum sumX sumY]. rewrite inject_Z_plus.
  setoid_replace 0.5 with (1 # 2) by reflexivity.
  repeat split; try lia; nra.
Qed.

Lemma accumulate_balanced (data : list Z) (tw th minA : Z) :
  (0 <= minA)%Z -> balanced tw th (accumulate data tw th minA).
Proof.
  intro M. unfold accumulate.
  apply fold_left_inv_In.
  - intros acc cy Iy B. unfold visitRow.
    apply fold_left_inv_In; [|exact B].
    intros acc' cx Ix B'.
    apply visit_balanced; auto using sampled_In.
  - unfold balanced. cbn [sum sumX sumY]. change (inject_Z 0) with 0.
    repeat split; try lia; lra.
Qed.

(** X6: A centroid lies inside the working image, between the centres of
    its first and last pixel in both directions; scaled to a canvas of
    non-negative size it lands on the canvas without being clamped. *)
Theorem centroid_inside_image
  (data : list Z) (tw th minA cw ch : Z) (c : Point) :
  (0 <= minA)%Z -> (0 <= cw)%Z -> (0 <= ch)%Z ->
  centroid data tw th minA = Some c ->
  ((1 # 2) <= Pt.x c <= inject_Z tw - (1 # 2))
  /\ ((1 # 2) <= Pt.y c <= inject_Z th - (1 # 2))
  /\ Pt.x (toCanvas tw th cw ch c) == Pt.x c / inject_Z tw * inject_Z cw
  /\ Pt.y (toCanvas tw th cw ch c) == Pt.y c / inject_Z th * inject_Z ch
  /\ (0 <= Pt.x (toCanvas tw th cw ch c) <= inject_Z cw)
  /\ (0 <= Pt.y (toCanvas tw th cw ch c) <= inject_Z ch).
Proof.
  intros M Cw Ch E. unfold centroid in E.
  destruct (accumulate_balanced data tw th minA M) as [S [X1 [X2 [Y1 Y2]]]].
  destruct (Z.leb_spec (sum (accumulate data tw th minA)) 0) as [L|L];
    [discriminate E|].
  injection E as <-. cbn [Pt.x Pt.y].
  set (acc := accumulate data tw th minA) in *.
  assert (S0 : 0 < inject_Z (sum acc)).
  { change 0 with (inject_Z 0). rewrite <- Zlt_Qlt. exact L. }
  assert (Bx : (1 # 2) <= sumX acc / inject_Z (sum acc)
               <= inject_Z tw - (1 # 2)).
  { split; [apply Qle_shift_div_l | apply Qle_shift_div_r]; assumption. }
  assert (By : (1 # 2) <= sumY acc / inject_Z (sum acc)
               <= inject_Z th - (1 # 2)).
  { split; [apply Qle_shift_div_l | apply Qle_shift_div_r]; assumption. }
  set (x := sumX acc / inject_Z (sum acc)) in *.
  set (y := sumY acc / inject_Z (sum acc)) in *.
  assert (Tw : 0 < inject_Z tw) by lra.
  assert (Th : 0 < inject_Z th) by lra.
  assert (Cw0 : 0 <= inject_Z cw) by (apply inject_Z_le0; exact Cw).
  assert (Ch0 : 0 <= inject_Z ch) by (apply inject_Z_le0; exact Ch).
  assert (Rx : 0 <= x / inject_Z tw <= 1).
  { split; [apply Qle_shift_div_l | apply Qle_shift_div_r]; lra. }
  assert (Ry : 0 <= y / inject_Z th <= 1).
  { split; [apply Qle_shift_div_l | apply Qle_shift_div_r]; lra. }
  assert (Px : 0 <= x / inject_Z tw * inject_Z cw <= inject_Z cw).
  { split; [apply Qmult_le_0_compat; lra|].
    assert (0 <= (1 - x / inject_Z tw) * inject_Z cw)
      by (apply Qmult_le_0_compat; lra).
    lra. }
  assert (Py : 0 <= y / inject_Z th * inject_Z ch <= inject_Z ch).
  { split; [apply Qmult_le_0_compat; lra|].
    assert (0 <= (1 - y / inject_Z th) * inject_Z ch)
      by (apply Qmult_le_0_compat; lra).
    lra. }
  assert (Ex : Pt.x (toCanvas tw th cw ch (Pt.mk x y))
               == x / inject_Z tw * inject_Z cw).
  { unfold toCanvas. cbn [Pt.x].
    rewrite (Q.min_r _ _ (proj2 Px)). apply Q.max_r. exact (proj1 Px). }
  assert (Ey : Pt.y (toCanvas tw th cw ch (Pt.mk x y))
               == y / inject_Z th * inject_Z ch).
  { unfold toCanvas. cbn [Pt.y].
    rewrite (Q.min_r _ _ (proj2 Py)). apply Q.max_r. exact (proj1 Py). }
  refine (conj Bx (conj By (conj Ex (conj Ey _)))).
  rewrite Ex, Ey. split; assumption.
Qed.

Lemma centroid_inside_image_witness :
  ((1 # 2) <= Pt.x (Pt.mk (5000 # 2000) (1000 # 2000)) <= inject_Z 160 - (1 # 2))
  /\ ((1 # 2) <= Pt.y (Pt.mk (5000 # 2000) (1000 # 2000)) <= inject_Z 1 - (1 # 2))
  /\ Pt.x (toCanvas 160 1 400 600 (Pt.mk (5000 # 2000) (1000 # 2000)))
     == Pt.x (Pt.mk (5000 # 2000) (1000 # 2000)) / inject_Z 160 * inject_Z 400
  /\ Pt.y (toCanvas 160 1 400 600 (Pt.mk (5000 # 2000) (1000 # 2000)))
     == Pt.y (Pt.mk (5000 # 2000) (1000 # 2000)) / inject_Z 1 * inject_Z 600
  /\ (0 <= Pt.x (toCanvas 160 1 400 600 (Pt.mk (5000 # 2000) (1000 # 2000)))
      <= inject_Z 400)
  /\ (0 <= Pt.y (toCanvas 160 1 400 600 (Pt.mk (5000 # 2000) (1000 # 2000)))
      <= inject_Z 600).
Proof.
  apply (centroid_inside_image (onePixelRow 2 200) 160 1 40 400 600);
    try lia.
  vm_compute. reflexivity.
Defined.

End HeatmapCentroid.

Section HeatmapCache.
Import Heatmap.

Lemma heatmapAnchor_shape (hmCtx : bool) (entries : list Entry) (cw ch : Z)
  (cache : Cache) (i : string) :
  (exists p, cacheGet cache i = Some p
             /\ heatmapAnchor hmCtx entries cw ch cache i = (Some p, cache))
  \/ (cacheGet cache i = None
      /\ heatmapAnchor hmCtx entries cw ch cache i = (None, cache))
  \/ (exists out, cacheGet cache i = None
                  /\ heatmapAnchor hmCtx entries cw ch cache i
                     = (Some out, (i, out) :: cache)).
Proof.
  unfold heatmapAnchor. destruct (cacheGet cache i) as [p|] eqn:G.
  - left. exists p. split; reflexivity.
  - right. destruct hmCtx; cbn [negb]; [|left; split; reflexivity].
    destruct (find _ entries) as [e|]; [|left; split; reflexivity].
    destruct (img e) as [src|]; [|left; split; reflexivity].
    destruct (readBack src 160 (workingHeight src)) as [data|];
      [|left; split; reflexivity].
    destruct (anchorOfData 160 (workingHeight src) data cw ch) as [out|].
    + right. exists out. split; reflexivity.
    + left. split; reflexivity.
Qed.

(** X7: The anchor cache: once an anchor was found for a metric, every later
    call for that metric returns the same anchor from the cache, whatever
    the images and the canvas are by then; a call that finds no anchor
    leaves the cache as it was; and no call touches what is cached for
    another metric. *)
Theorem heatmapAnchor_cache (hmCtx : bool) (entries : list Entry) (cw ch : Z)
  (cache : Cache) (i : string) :
  (forall p,
      fst (heatmapAnchor hmCtx entries cw ch cache i) = Some p ->
      forall hmCtx' entries' cw' ch',
        heatmapAnchor hmCtx' entries' cw' ch'
                      (snd (heatmapAnchor hmCtx entries cw ch cache i)) i
        = (Some p, snd (heatmapAnchor hmCtx entries cw ch cache i)))
  /\ (fst (heatmapAnchor hmCtx entries cw ch cache i) = None ->
      snd (heatmapAnchor hmCtx entries cw ch cache i) = cache)
  /\ (forall j, j <> i ->
      cacheGet (snd (heatmapAnchor hmCtx entries cw ch cache i)) j
      = cacheGet cache j).
Proof.
  destruct (heatmapAnchor_shape hmCtx entries cw ch cache i)
    as [[p [G E]] | [[G E] | [out [G E]]]]; rewrite E; cbn [fst snd].
  - refine (conj _ (conj _ _)).
    + intros q Q hmCtx' entries' cw' ch'. injection Q as <-.
      unfold heatmapAnchor. rewrite G. reflexivity.
    + discriminate.
    + reflexivity.
  - refine (conj _ (conj _ _)).
    + discriminate.
    + reflexivity.
    + reflexivity.
  - refine (conj _ (conj _ _)).
    + intros q Q hmCtx' entries' cw' ch'. injection Q as <-.
      unfold heatmapAnchor. cbn [cacheGet]. rewrite String.eqb_refl.
      reflexivity.
    + discriminate.
    + intros j N. cbn [cacheGet].
      destruct (String.eqb_spec i j) as [->|_]; [contradiction|reflexivity].
Qed.

End HeatmapCache.

(** ** More on the auto-capture effects *)

Section AutoCaptureMore.
Import Quality AutoCapture AutoCaptureTerms.

Lemma gate_setAutoCountdown (v : option Z) (s : State) :
  gate (setAutoCountdown v s) = gate s.
Proof. reflexivity. Qed.

Lemma autoStartEffect_counting (now : Z) (s : State) (v : Z) :
  gate s = true -> autoCountdown s = Some v -> autoStartEffect now s = s.
Proof.
  intros G C.
  destruct (autoStartEffect_cases now s) as [[F _] | [[_ [N _]] | [_ [E _]]]];
    congruence.
Qed.

Lemma autoStartEffect_arms (now : Z) (s : State) :
  gate s = true -> autoCountdown s = None ->
  (now - lastAutoCaptureAt s > 2500)%Z ->
  autoStartEffect now s = setAutoCountdown (Some 3%Z) s.
Proof.
  intros G C T.
  destruct (autoStartEffect_cases now s)
    as [[F _] | [[_ [_ [_ E]]] | [_ [_ N]]]].
  - congruence.
  - exact E.
  - specialize (N C). lia.
Qed.

(** A timer tick with both effects re-run, while the gate holds and the
    countdown shows [v + 1] with [v] positive, only counts down. *)
Lemma tick_counts_down (now : Z) (g : Grab) (s : State) (v : Z) :
  gate s = true -> (0 < v)%Z -> autoCountdown s = Some (v + 1)%Z ->
  react (mkInput now g EvTimer true true) s = setAutoCountdown (Some v) s.
Proof.
  intros G V C. unfold react. cbn [inEvent update rerenders inStart inZero
                                   inNow inGrab].
  unfold countdownTick. rewrite C.
  destruct (Z.leb_spec (v + 1) 0); [lia|].
  replace (v + 1 - 1)%Z with v by lia.
  unfold commit.
  rewrite (autoStartEffect_counting now (setAutoCountdown (Some v) s) v G
             eq_refl).
  apply autoZeroEffect_off_zero. cbn. intro E. injection E as E. lia.
Qed.

(** X8: The countdown runs to its end: from an idle state in which all
    checks pass and the cooldown has elapsed, a re-render arms the
    countdown at 3 and the third timer tick after it stamps the clock,
    returns to idle and, the frame grab succeeding, appends the capture
    with the pose of the latest face observation. *)
Theorem countdown_runs_to_capture
  (s : State) (g : Grab) (b : Blob) (t0 t1 t2 t3 : Z) :
  gate s = true -> autoCountdown s = None ->
  (t0 - lastAutoCaptureAt s > 2500)%Z ->
  video g = true -> ctx2d g = true -> blobOut g = Some b ->
  autoCountdown (run [mkInput t0 g EvRender true true] s) = Some 3%Z
  /\ autoCountdown (run (countdownRun g t0 t1 t2 t3) s) = None
  /\ lastAutoCaptureAt (run (countdownRun g t0 t1 t2 t3) s) = t3
  /\ captures (run (countdownRun g t0 t1 t2 t3) s)
     = captures s
         ++ [mkCaptureItem (newId g) b (newUrl g) (poseOf (latestFace s))]
  /\ lastCapturedPose (run (countdownRun g t0 t1 t2 t3) s)
     = poseOf (latestFace s).
Proof.
  intros G C T V X B.
  assert (R0 : react (mkInput t0 g EvRender true true) s
               = setAutoCountdown (Some 3%Z) s).
  { unfold react. cbn [inEvent update rerenders inStart inZero inNow inGrab].
    unfold commit. rewrite (autoStartEffect_arms t0 s G C T).
    apply autoZeroEffect_off_zero. cbn. discriminate. }
  split; [cbn [run]; rewrite R0; reflexivity|].
  unfold countdownRun. cbn [run]. rewrite R0.
  rewrite (tick_counts_down t1 g (setAutoCountdown (Some 3%Z) s) 2 G)
    by (try lia; reflexivity).
  rewrite (tick_counts_down t2 g
             (setAutoCountdown (Some 2%Z) (setAutoCountdown (Some 3%Z) s))
             1 G)
    by (try lia; reflexivity).
  (* the last tick reaches zero and the zero effect fires *)
  unfold react. cbn [inEvent update rerenders inStart inZero inNow inGrab].
  set (s2 := setAutoCountdown (Some 1%Z)
               (setAutoCountdown (Some 2%Z) (setAutoCountdown (Some 3%Z) s))).
  assert (K : countdownTick s2 = setAutoCountdown (Some 0%Z) s2)
    by reflexivity.
  rewrite K. unfold commit.
  set (s3 := setAutoCountdown (Some 0%Z) s2).
  assert (G3 : gate s3 = true) by exact G.
  rewrite (autoStartEffect_counting t3 s3 0 G3 eq_refl).
  rewrite (autoZeroEffect_at_zero t3 g s3 eq_refl), G3.
  set (s4 := setAutoCountdown None (setLastAutoCaptureAt t3 s3)).
  destruct (captureFromCamera_frame g s4) as [A [L _]].
  destruct (captureFromCamera_ok g s4 b V X B) as [Cp Ps].
  rewrite A, L, Cp, Ps. repeat split.
Qed.

Lemma countdown_runs_to_capture_witness :
  autoCountdown (run [mkInput 50000 okGrab EvRender true true] idleLeft)
  = Some 3%Z
  /\ autoCountdown (run (countdownRun okGrab 50000 51000 52000 53000) idleLeft)
     = None
  /\ lastAutoCaptureAt
       (run (countdownRun okGrab 50000 51000 52000 53000) idleLeft)
     = 53000%Z
  /\ captures (run (countdownRun okGrab 50000 51000 52000 53000) idleLeft)
     = captures idleLeft
         ++ [mkCaptureItem (newId okGrab) [255%Z] (newUrl okGrab)
                           (poseOf (latestFace idleLeft))]
  /\ lastCapturedPose
       (run (countdownRun okGrab 50000 51000 52000 53000) idleLeft)
     = poseOf (latestFace idleLeft).
Proof.
  apply (countdown_runs_to_capture idleLeft okGrab [255%Z]
           50000 51000 52000 53000); reflexivity.
Defined.

(** X9: A countdown is called off as soon as a check fails: when the start
    effect is re-run on a state whose checks do not pass (a sample that
    is not good, the pose captured last, a full budget, auto-capture
    switched off), the countdown is cleared whatever it showed and
    nothing is captured or stamped. *)
Theorem failed_check_aborts_countdown (i : Input) (s : State) :
  rerenders (inEvent i) = true -> inStart i = true ->
  gate (update (inEvent i) s) = false ->
  autoCountdown (react i s) = None
  /\ captures (react i s) = captures (update (inEvent i) s)
  /\ lastAutoCaptureAt (react i s) = lastAutoCaptureAt (update (inEvent i) s)
  /\ lastCapturedPose (react i s) = lastCapturedPose (update (inEvent i) s).
Proof.
  intros R S G. unfold react. rewrite R, S. unfold commit.
  set (s' := update (inEvent i) s) in *.
  assert (E : autoStartEffect (inNow i) s' = setAutoCountdown None s').
  { destruct (autoStartEffect_cases (inNow i) s')
      as [[_ E] | [[T _] | [T _]]]; congruence. }
  rewrite E.
  destruct (inZero i);
    [rewrite autoZeroEffect_off_zero by (cbn; discriminate)|];
    cbn; repeat split.
Qed.

Lemma failed_check_aborts_countdown_witness :
  autoCountdown (react (mkInput 51000 okGrab (EvSample darkSample) true true)
                       (setAutoCountdown (Some 2%Z) idleLeft)) = None
  /\ captures (react (mkInput 51000 okGrab (EvSample darkSample) true true)
                     (setAutoCountdown (Some 2%Z) idleLeft))
     = captures (update (EvSample darkSample)
                        (setAutoCountdown (Some 2%Z) idleLeft))
  /\ lastAutoCaptureAt
       (react (mkInput 51000 okGrab (EvSample darkSample) true true)
              (setAutoCountdown (Some 2%Z) idleLeft))
     = lastAutoCaptureAt (update (EvSample darkSample)
                                 (setAutoCountdown (Some 2%Z) idleLeft))
  /\ lastCapturedPose
       (react (mkInput 51000 okGrab (EvSample darkSample) true true)
              (setAutoCountdown (Some 2%Z) idleLeft))
     = lastCapturedPose (update (EvSample darkSample)
                                (setAutoCountdown (Some 2%Z) idleLeft)).
Proof.
  apply (failed_check_aborts_countdown
           (mkInput 51000 okGrab (EvSample darkSample) true true)
           (setAutoCountdown (Some 2%Z) idleLeft)); reflexivity.
Defined.

End AutoCaptureMore.

Section AutoCaptureInvariants.
Import Quality AutoCapture AutoCaptureTerms.

(** X10: With a clock that never steps back, an armed countdown always has the
    cooldown behind it: from an idle state, after any run of inputs, if
    the countdown shows a number then more than 2500 ms have passed
    since the last auto-capture stamp.  In particular the zero effect
    only ever fires after the cooldown. *)
Theorem forward_clock_keeps_cooldown
  (t : Z) (ins : list Input) (s : State) (n : Z) :
  forwardFrom t ins = true ->
  autoCountdown s = None ->
  autoCountdown (run ins s) = Some n ->
  (lastClock t ins - lastAutoCaptureAt (run ins s) > 2500)%Z.
Proof.
  intros F C.
  assert (P : cooledWhileCounting t s) by (intros m M; congruence).
  clear C. revert t s F P n.
  induction ins as [|i rest IH]; intros t s F P n; cbn [run].
  - intro M. exact (P n M).
  - cbn [forwardFrom] in F. apply andb_true_iff in F. destruct F as [Le F].
    apply Z.leb_le in Le.
    unfold lastClock. cbn [fold_left]. fold (lastClock (inNow i) rest).
    apply IH; [exact F|]. apply (react_cooled t); assumption.
Qed.

Lemma forward_clock_keeps_cooldown_witness :
  (lastClock 50000 [mkInput 50000 okGrab EvRender true true;
                    mkInput 51000 okGrab EvTimer true true]
   - lastAutoCaptureAt
       (run [mkInput 50000 okGrab EvRender true true;
             mkInput 51000 okGrab EvTimer true true] idleLeft)
   > 2500)%Z.
Proof.
  apply (forward_clock_keeps_cooldown 50000
           [mkInput 50000 okGrab EvRender true true;
            mkInput 51000 okGrab EvTimer true true]
           idleLeft 2); reflexivity.
Defined.

Lemma captureFromCamera_length (g : Grab) (s : State) :
  (List.length (captures s) <= List.length (captures (captureFromCamera g s))
   <= S (List.length (captures s)))%nat.
Proof.
  unfold captureFromCamera.
  destruct (video g), (ctx2d g), (blobOut g); cbn; try lia.
  rewrite length_app. cbn. lia.
Qed.

Lemma gate_under_budget (s : State) :
  gate s = true -> (List.length (captures s) < 3)%nat.
Proof. intro G. apply gate_iff in G. apply G. Qed.

Lemma start_effect_frame (now : Z) (s : State) :
  captures (autoStartEffect now s) = captures s
  /\ (autoCountdown (autoStartEffect now s) = None
      \/ autoCountdown (autoStartEffect now s) = Some 3%Z
      \/ autoCountdown (autoStartEffect now s) = autoCountdown s).
Proof.
  destruct (autoStartEffect_cases now s)
    as [[_ E] | [[_ [_ [_ E]]] | [_ [E _]]]]; rewrite E; cbn; auto.
Qed.

Lemma zero_effect_budget (now : Z) (g : Grab) (s : State) :
  (List.length (captures s) <= 3)%nat ->
  (List.length (captures (autoZeroEffect now g s)) <= 3)%nat
  /\ (autoCountdown (autoZeroEffect now g s) = None
      \/ autoCountdown (autoZeroEffect now g s) = autoCountdown s).
Proof.
  intro L. destruct (autoCountdown s) as [[|v|v]|] eqn:C;
    try (rewrite autoZeroEffect_off_zero by (rewrite C; discriminate);
         rewrite C; auto).
  rewrite (autoZeroEffect_at_zero now g s C).
  destruct (gate s) eqn:G; [|cbn; auto].
  set (s1 := setAutoCountdown None (setLastAutoCaptureAt now s)).
  pose proof (captureFromCamera_length g s1) as B.
  destruct (captureFromCamera_frame g s1) as [A _].
  pose proof (gate_under_budget s G) as U.
  change (captures s1) with (captures s) in B.
  split; [lia | left; rewrite A; reflexivity].
Qed.

Lemma update_no_manual (i : Input) (s : State) :
  noManualInput i = true ->
  (List.length (captures (update (inEvent i) s)) <= List.length (captures s))%nat
  /\ (countdownInRange s -> countdownInRange (update (inEvent i) s)).
Proof.
  unfold noManualInput, countdownInRange.
  destruct (inEvent i) as [q | f | | | g | fs | r | b | b | k];
    cbn [update]; intro N; try discriminate N; cbn;
    try (split; [lia | auto]).
  - split.
    + destruct (countdownTick_frame s) as [E _]. rewrite E. lia.
    + unfold countdownTick. destruct (autoCountdown s) as [v|] eqn:C;
        [|rewrite C; auto].
      destruct (Z.leb_spec v 0); [rewrite C; auto|]. cbn. lia.
  - split; [apply filter_length_le | auto].
Qed.

(** X11: The automatic path keeps to its budget: as long as nobody presses
    the capture button or uploads a file, a list of at most three
    captures never grows beyond three, whatever samples, ticks and
    re-renders arrive (each capture taken as one step). *)
Theorem auto_path_never_exceeds_budget (ins : list Input) (s : State) :
  forallb noManualInput ins = true ->
  (List.length (captures s) <= 3)%nat ->
  (List.length (captures (run ins s)) <= 3)%nat.
Proof.
  revert s. induction ins as [|i rest IH]; intros s F L; cbn [run].
  - exact L.
  - cbn [forallb] in F. apply andb_true_iff in F. destruct F as [Fi Fr].
    apply IH; [exact Fr|].
    destruct (update_no_manual i s Fi) as [U _].
    unfold react. destruct (rerenders (inEvent i)); [|lia].
    unfold commit.
    set (s' := update (inEvent i) s) in *.
    assert (L1 : (List.length
                    (captures (if inStart i
                               then autoStartEffect (inNow i) s' else s'))
                  <= 3)%nat).
    { destruct (inStart i); [|lia].
      destruct (start_effect_frame (inNow i) s') as [E _]. rewrite E. lia. }
    destruct (inZero i); [|exact L1].
    apply zero_effect_budget. exact L1.
Qed.

Lemma auto_path_never_exceeds_budget_witness :
  (List.length
     (captures (run (countdownRun okGrab 50000 51000 52000 53000
                       ++ countdownRun okGrab 60000 61000 62000 63000)
                    (setCaptures (fun _ => [fileItem "a"; fileItem "b"])
                                 idleLeft)))
   <= 3)%nat.
Proof.
  apply (auto_path_never_exceeds_budget
           (countdownRun okGrab 50000 51000 52000 53000
              ++ countdownRun okGrab 60000 61000 62000 63000)
           (setCaptures (fun _ => [fileItem "a"; fileItem "b"]) idleLeft)).
  - reflexivity.
  - cbn. lia.
Defined.

(** X12: The countdown only ever shows 3, 2, 1 or 0: no run of inputs takes
    it out of that range, it is never negative. *)
Theorem countdown_stays_in_range (ins : list Input) (s : State) :
  countdownInRange s -> countdownInRange (run ins s).
Proof.
  revert s. induction ins as [|i rest IH]; intros s R; cbn [run].
  - exact R.
  - apply IH. unfold react.
    assert (U : countdownInRange (update (inEvent i) s)).
    { destruct (inEvent i) as [q | f | | | g | fs | r | b | b | k] eqn:Ev;
        cbn [update]; try exact R.
      - unfold countdownInRange, countdownTick in *.
        destruct (autoCountdown s) as [v|] eqn:C; [|rewrite C; auto].
        destruct (Z.leb_spec v 0); [rewrite C; auto|]. cbn. lia.
      - unfold countdownInRange in *.
        destruct (captureFromCamera_frame g s) as [A _]. rewrite A. exact R.
      - destruct fs; exact R. }
    destruct (rerenders (inEvent i)); [|exact U].
    unfold commit. set (s' := update (inEvent i) s) in *.
    assert (U1 : countdownInRange
                   (if inStart i then autoStartEffect (inNow i) s' else s')).
    { destruct (inStart i); [|exact U].
      destruct (start_effect_frame (inNow i) s') as [_ [E | [E | E]]];
        unfold countdownInRange in *; rewrite E; auto. lia. }
    destruct (inZero i); [|exact U1].
    set (s1 := if inStart i then autoStartEffect (inNow i) s' else s') in *.
    unfold countdownInRange in *.
    destruct (autoCountdown s1) as [[|v|v]|] eqn:C;
      try (rewrite autoZeroEffect_off_zero by (rewrite C; discriminate);
           rewrite C; exact U1).
    rewrite (autoZeroEffect_at_zero (inNow i) (inGrab i) s1 C).
    destruct (gate s1); [|cbn; exact I].
    destruct (captureFromCamera_frame (inGrab i)
                (setAutoCountdown None (setLastAutoCaptureAt (inNow i) s1)))
      as [A _].
    rewrite A. cbn. exact I.
Qed.

Lemma countdown_stays_in_range_witness :
  countdownInRange (run (countdownRun okGrab 50000 51000 52000 53000) idleLeft).
Proof.
  apply (countdown_stays_in_range
           (countdownRun okGrab 50000 51000 52000 53000) idleLeft).
  exact I.
Defined.

(** X13: Removing a capture takes out every item with that id and nothing
    else: afterwards no item has the id, an id that does not occur
    leaves the list as it is, and an uploaded file removed again by its
    fresh id gives back the list from before the upload. *)
Theorem removeCapture_exact (i : string) (s : State) :
  Forall (fun c => id c <> i) (captures (removeCapture i s))
  /\ ((forall c, In c (captures s) -> id c <> i) ->
      captures (removeCapture i s) = captures s)
  /\ (forall f,
      fileId f = i -> (forall c, In c (captures s) -> id c <> i) ->
      captures (removeCapture i (addFiles (Some [f]) s)) = captures s).
Proof.
  assert (K : forall l,
             (forall c, In c l -> id c <> i) ->
             filter (fun x => negb (String.eqb (id x) i)) l = l).
  { induction l as [|c l IH]; intro H; cbn [filter]; [reflexivity|].
    destruct (String.eqb_spec (id c) i) as [E|_].
    - exfalso. exact (H c (or_introl eq_refl) E).
    - cbn [negb]. rewrite IH; [reflexivity|].
      intros c' I'. apply H. right. exact I'. }
  refine (conj _ (conj _ _)).
  - cbn. apply Forall_forall. intros c Ic.
    apply filter_In in Ic. destruct Ic as [_ N].
    apply negb_true_iff in N. apply String.eqb_neq. exact N.
  - intro H. cbn. apply K. exact H.
  - intros f Fi H. cbn. rewrite filter_app. cbn [filter].
    rewrite Fi, String.eqb_refl. cbn [negb]. rewrite app_nil_r.
    apply K. exact H.
Qed.

End AutoCaptureInvariants.

(** ** The detection loop *)

Section DetectFacts.
Import Detect DetectTerms.

Lemma lower_raise_step (lo hi : option Q) (a c x : Q) :
  lo = Some a -> hi = Some c -> a <= c ->
  exists a' c', lower lo x = Some a' /\ raise hi x = Some c' /\ a' <= c'.
Proof.
  intros -> -> L. unfold lower, raise.
  destruct (Qltb x a) eqn:E1; destruct (Qgtb x c) eqn:E2;
    eexists; eexists; (split; [reflexivity | split; [reflexivity|]]).
  - lra.
  - apply Qltb_lt in E1. lra.
  - apply Qgtb_gt in E2. lra.
  - exact L.
Qed.

Lemma stretch_finite (vw vh : Z) (b : Bounds) (p : Point) :
  finite b -> finite (stretch vw vh b p).
Proof.
  intros [[a [c [A [C L]]]] [a' [c' [A' [C' L']]]]].
  unfold stretch, finite. cbn [minX maxX minY maxY]. split.
  - destruct (lower_raise_step _ _ a c (Pt.x p * inject_Z vw) A C L)
      as [u [v [U [V W]]]].
    exists u, v. auto.
  - destruct (lower_raise_step _ _ a' c' (Pt.y p * inject_Z vh) A' C' L')
      as [u [v [U [V W]]]].
    exists u, v. auto.
Qed.

Lemma bounds_finite (vw vh : Z) (p : Point) (rest : list Point) :
  finite (bounds vw vh (p :: rest)).
Proof.
  unfold bounds. cbn [fold_left].
  apply fold_left_inv_In.
  - intros acc q _. apply stretch_finite.
  - unfold stretch, finite. cbn. split; eexists; eexists;
      (split; [reflexivity | split; [reflexivity | apply Qle_refl]]).
Qed.

Lemma extent_ge_1 (lo hi : option Q) : 1 <= extent lo hi.
Proof. unfold extent. apply Q.le_max_l. Qed.

Lemma clamp_unit (v : Q) : 0 <= Qmax 0 (Qmin 1 v) <= 1.
Proof.
  split; [apply Q.le_max_l|]. apply Q.max_lub; [lra | apply Q.le_min_l].
Qed.

Lemma observe_found_ranges (vw vh : Z) (p : Point) (rest : list Point) :
  (0 < vw)%Z -> (0 < vh)%Z ->
  found (observe vw vh (Some (p :: rest))) = true
  /\ 0 < coverage (observe vw vh (Some (p :: rest))) <= 1
  /\ 0 <= noseRatio (observe vw vh (Some (p :: rest))) <= 1
  /\ finite (bounds vw vh (p :: rest))
  /\ observe vw vh None = mkFace false 0 0.5
  /\ observe vw vh (Some []) = mkFace false 0 0.5.
Proof.
  intros W H. cbn [observe found coverage noseRatio].
  set (b := bounds vw vh (p :: rest)).
  refine (conj eq_refl (conj _ (conj (clamp_unit _)
            (conj (bounds_finite vw vh p rest) (conj eq_refl eq_refl))))).
  split; [|apply clamp_unit].
  pose proof (extent_ge_1 (minX b) (maxX b)) as Fw.
  pose proof (extent_ge_1 (minY b) (maxY b)) as Fh.
  set (fw := extent (minX b) (maxX b)) in *.
  set (fh := extent (minY b) (maxY b)) in *.
  assert (A : 1 <= fw * fh).
  { assert (0 <= (fw - 1) * (fh - 1)) by (apply Qmult_le_0_compat; lra).
    lra. }
  assert (A' : 0 < Qmax 0 (fw * fh)).
  { apply Qlt_le_trans with (fw * fh); [lra | apply Q.le_max_r]. }
  assert (D : 0 < inject_Z vw * inject_Z vh).
  { rewrite <- inject_Z_mult. change 0 with (inject_Z 0).
    rewrite <- Zlt_Qlt. lia. }
  assert (Q0 : 0 < Qmax 0 (fw * fh) / (inject_Z vw * inject_Z vh)).
  { apply Qlt_shift_div_l; [exact D | lra]. }
  apply Qlt_le_trans
    with (Qmin 1 (Qmax 0 (fw * fh) / (inject_Z vw * inject_Z vh)));
    [|apply Q.le_max_r].
  apply Q.min_glb_lt; [lra | exact Q0].
Qed.

(** X14: What the loop publishes for a frame with landmarks, on a video of
    positive size: a found face whose coverage is positive and at most 1
    and whose nose ratio is between 0 and 1; the bounding box it is
    computed from is finite.  Without landmarks it publishes the
    not-found observation. *)
Theorem observe_ranges (vw vh : Z) (p : Point) (rest : list Point) :
  (0 < vw)%Z -> (0 < vh)%Z ->
  found (observe vw vh (Some (p :: rest))) = true
  /\ 0 < coverage (observe vw vh (Some (p :: rest))) <= 1
  /\ 0 <= noseRatio (observe vw vh (Some (p :: rest))) <= 1
  /\ finite (bounds vw vh (p :: rest))
  /\ observe vw vh None = mkFace false 0 0.5
  /\ observe vw vh (Some []) = mkFace false 0 0.5.
Proof. exact (observe_found_ranges vw vh p rest). Qed.

Lemma observe_ranges_witness :
  found (observe 640 480 (Some someFace)) = true
  /\ 0 < coverage (observe 640 480 (Some someFace)) <= 1
  /\ 0 <= noseRatio (observe 640 480 (Some someFace)) <= 1
  /\ finite (bounds 640 480 someFace)
  /\ observe 640 480 None = mkFace false 0 0.5
  /\ observe 640 480 (Some []) = mkFace false 0 0.5.
Proof.
  apply (observe_ranges 640 480 (Pt.mk 0.3 0.2)
           [Pt.mk 0.5 0.5; Pt.mk 0.7 0.8; Pt.mk 0.4 0.6]); lia.
Defined.

Lemma render_throttled (f : Frame) (l : Loop) :
  throttled l -> throttled (render f l).
Proof.
  intros [P [S [F Hd]]]. unfold render.
  destruct (ready f && (0 <? vw f)%Z && (0 <? vh f)%Z);
    [|repeat split; assumption].
  destruct (negb (Qeq_bool (currentTime f) (lastVideoTime l)));
    [|repeat split; assumption].
  destruct (faces f) as [[|p rest]|];
    try (unfold throttled; cbn; repeat split; assumption).
  destruct (Qgtb (now f - lastHeatAt l) 250) eqn:G;
    [|unfold throttled; cbn; repeat split; assumption].
  apply Qgtb_gt in G. unfold throttled. cbn [lastHeatAt heatCalls].
  refine (conj _ (conj _ (conj _ _))).
  - lra.
  - constructor; [exact S|].
    destruct (heatCalls l) as [|h t]; constructor.
    unfold apart. rewrite <- Hd. exact G.
  - constructor; [lra | exact F].
  - reflexivity.
Qed.

(** X16: The live heatmap is throttled: over any sequence of frames, from the
    start of the loop, each call of [computeLiveHeatmap] comes more than
    250 ms after the one before it (so at most four fall into any
    second), and none comes within the first 250 ms of the clock. *)
Theorem heatmap_calls_throttled (fs : list Frame) :
  Sorted apart (heatCalls (frames fs start))
  /\ Forall (fun t => 250 < t) (heatCalls (frames fs start)).
Proof.
  assert (T : throttled (frames fs start)).
  { unfold frames. apply fold_left_inv_In.
    - intros acc f _. apply render_throttled.
    - unfold throttled, start. cbn. repeat split; try constructor. lra. }
  destruct T as [_ [S [F _]]]. split; assumption.
Qed.

End DetectFacts.

Section DetectPose.
Import Detect DetectTerms Quality.

(** Whatever the loop has stored in [latestFaceRef] is the observation of
    some frame taken under its guard [vw > 0 && vh > 0]; the value the
    ref starts with is the observation of a frame without a face. *)
Lemma loop_stores_observations (fs : list Frame) :
  exists vw vh lm0,
    (0 < vw)%Z /\ (0 < vh)%Z
    /\ latestFace (frames fs start) = observe vw vh lm0.
Proof.
  unfold frames.
  apply (fold_left_inv_In (fun acc f => render f acc)
           (fun l => exists vw vh lm0,
                (0 < vw)%Z /\ (0 < vh)%Z
                /\ latestFace l = observe vw vh lm0)).
  - intros l f _ P. unfold render.
    destruct (ready f && (0 <? vw f)%Z && (0 <? vh f)%Z) eqn:G;
      [|exact P].
    apply andb_true_iff in G. destruct G as [G H].
    apply andb_true_iff in G. destruct G as [_ W].
    apply Z.ltb_lt in W, H.
    destruct (negb (Qeq_bool (currentTime f) (lastVideoTime l)));
      [|exact P].
    destruct (faces f) as [[|p rest]|] eqn:Fc.
    + exists 1%Z, 1%Z, None. cbn [latestFace observe]. repeat split; lia.
    + exists (vw f), (vh f), (Some (p :: rest)).
      destruct (Qgtb (now f - lastHeatAt l) 250); cbn [latestFace];
        repeat split; assumption.
    + exists 1%Z, 1%Z, None. cbn [latestFace observe]. repeat split; lia.
  - exists 1%Z, 1%Z, None. cbn [latestFace start observe].
    repeat split; lia.
Qed.

(** Every observation taken under the guard has a nose ratio in the unit
    interval and, when a face is found, a positive coverage. *)
Lemma observe_positive (vw vh : Z) (lm0 : option (list Point)) :
  (0 < vw)%Z -> (0 < vh)%Z ->
  0 <= noseRatio (observe vw vh lm0) <= 1
  /\ (found (observe vw vh lm0) = true -> 0 < coverage (observe vw vh lm0)).
Proof.
  intros W H. destruct lm0 as [[|p rest]|].
  - cbn [observe noseRatio found]. split; [lra | discriminate].
  - destruct (observe_found_ranges vw vh p rest W H) as [_ [C [N _]]].
    split; [exact N | intros _; apply C].
  - cbn [observe noseRatio found]. split; [lra | discriminate].
Qed.

(** C7: the pose is a function of the nose ratio.  On every observation
    the detection loop stores (any landmarks, a video of positive size)
    the nose ratio lies in [0, 1] and the pose of a found face is [left]
    below 0.46, [right] above 0.54 and [front] in between, both bounds
    included; it is [unknown] when no face is found; two observations
    with the same found flag and the same nose ratio have the same pose.
    The ref the two pose expressions read holds such an observation
    after any sequence of frames, from its initial value on. *)
Theorem C7_pose_classification (vw vh : Z) (lm0 : option (list Point)) :
  (0 < vw)%Z -> (0 < vh)%Z ->
  let face := observe vw vh lm0 in
  0 <= noseRatio face <= 1
  /\ (found face = true ->
      (noseRatio face < 0.46 -> poseOf face = PoseLeft)
      /\ (0.54 < noseRatio face -> poseOf face = PoseRight)
      /\ (0.46 <= noseRatio face <= 0.54 -> poseOf face = PoseFront))
  /\ (found face = false -> poseOf face = PoseUnknown)
  /\ (forall vw' vh' lm0',
      (0 < vw')%Z -> (0 < vh')%Z ->
      found (observe vw' vh' lm0') = found face ->
      noseRatio (observe vw' vh' lm0') == noseRatio face ->
      poseOf (observe vw' vh' lm0') = poseOf face)
  /\ (forall fs, exists vw' vh' lm0',
      (0 < vw')%Z /\ (0 < vh')%Z
      /\ latestFace (frames fs start) = observe vw' vh' lm0').
Proof.
  intros W H face.
  destruct (observe_positive vw vh lm0 W H) as [N C]. fold face in N, C.
  destruct (poseOf_bands face) as [B U].
  refine (conj N (conj _ (conj _ (conj _ loop_stores_observations)))).
  - intro F. apply B. split; [exact F | exact (C F)].
  - intro F. apply U. left. exact F.
  - intros vw' vh' lm0' W' H' F E.
    destruct (observe_positive vw' vh' lm0' W' H') as [_ C'].
    apply poseOf_by_noseRatio; assumption.
Qed.

Lemma C7_witness :
  poseOf (observe 100 100 (Some (noseAt 0.45))) = PoseLeft
  /\ poseOf (observe 100 100 (Some (noseAt 0.5))) = PoseFront
  /\ poseOf (observe 100 100 (Some (noseAt 0.55))) = PoseRight
  /\ poseOf (observe 100 100 (Some (noseAt 0.46))) = PoseFront
  /\ poseOf (observe 100 100 (Some (noseAt 0.54))) = PoseFront
  /\ poseOf (observe 100 100 None) = PoseUnknown.
Proof.
  assert (P : forall x,
             found (observe 100 100 (Some (noseAt x))) = true
             -> (noseRatio (observe 100 100 (Some (noseAt x))) < 0.46 ->
                 poseOf (observe 100 100 (Some (noseAt x))) = PoseLeft)
                /\ (0.54 < noseRatio (observe 100 100 (Some (noseAt x))) ->
                    poseOf (observe 100 100 (Some (noseAt x))) = PoseRight)
                /\ (0.46 <= noseRatio (observe 100 100 (Some (noseAt x)))
                    <= 0.54 ->
                    poseOf (observe 100 100 (Some (noseAt x))) = PoseFront)).
  { intro x.
    exact (proj1 (proj2 (C7_pose_classification 100 100 (Some (noseAt x))
                           eq_refl eq_refl))). }
  refine (conj _ (conj _ (conj _ (conj _ (conj _ _))))).
  - apply (proj1 (P 0.45 eq_refl)). vm_compute. reflexivity.
  - apply (proj2 (proj2 (P 0.5 eq_refl))). split; vm_compute; discriminate.
  - apply (proj1 (proj2 (P 0.55 eq_refl))). vm_compute. reflexivity.
  - apply (proj2 (proj2 (P 0.46 eq_refl))). split; vm_compute; discriminate.
  - apply (proj2 (proj2 (P 0.54 eq_refl))). split; vm_compute; discriminate.
  - apply (proj1 (proj2 (proj2 (C7_pose_classification 100 100 None
                                  eq_refl eq_refl)))).
    reflexivity.
Defined.

End DetectPose.

Section DetectToSampler.
Import Detect DetectTerms Quality.

Lemma poseOf_known (face : Face) :
  found face = true -> 0 < coverage face -> poseOf face <> PoseUnknown.
Proof.
  intros F C. unfold poseOf. rewrite F. apply Qgtb_gt in C. rewrite C.
  cbn [andb].
  destruct (Qltb (noseRatio face) 0.46); [discriminate|].
  destruct (Qgtb (noseRatio face) 0.54); discriminate.
Qed.

(** X15: From the detection loop to the sampler: for the observation of any
    frame on a video of positive size, and a brightness and sharpness in
    the unit interval, the published sample has a score and a face
    coverage in the unit interval; its pose is unknown exactly when no
    face was found; and when no face was found the score is zero, the
    no-face warning is listed and the sample does not pass the good
    check of the auto-capture. *)
Theorem sample_of_observation
  (b sh : Q) (vw vh : Z) (lm0 : option (list Point)) :
  (0 < vw)%Z -> (0 < vh)%Z -> 0 <= b <= 1 -> 0 <= sh <= 1 ->
  (0 <= score (sample b sh (observe vw vh lm0)) <= 1)
  /\ (0 <= faceCoverage (sample b sh (observe vw vh lm0)) <= 1)
  /\ (pose (sample b sh (observe vw vh lm0)) = PoseUnknown
      <-> found (observe vw vh lm0) = false)
  /\ (found (observe vw vh lm0) = false ->
      score (sample b sh (observe vw vh lm0)) = 0
      /\ In warnNoFace (warnings (sample b sh (observe vw vh lm0)))
      /\ AutoCapture.good (sample b sh (observe vw vh lm0)) = false).
Proof.
  intros W H Hb Hs.
  assert (Cases :
    (found (observe vw vh lm0) = true
     /\ 0 < coverage (observe vw vh lm0) <= 1)
    \/ observe vw vh lm0 = mkFace false 0 0.5).
  { destruct lm0 as [[|p rest]|]; [right; reflexivity| |right; reflexivity].
    left. destruct (observe_found_ranges vw vh p rest W H) as [F [C _]].
    split; assumption. }
  destruct Cases as [[F C] | E].
  - set (face := observe vw vh lm0) in *.
    cbn [score faceCoverage pose warnings sample].
    refine (conj _ (conj _ (conj _ _))).
    + unfold scoreOf. rewrite F.
      pose proof (brightCentered_range b).
      pose proof (sizeScore_range (coverage face)). lra.
    + lra.
    + split; [|congruence]. intro U. exfalso.
      exact (poseOf_known face F (proj1 C) U).
    + congruence.
  - rewrite E. cbn [score faceCoverage pose warnings sample found].
    refine (conj _ (conj _ (conj _ _))).
    + cbn. lra.
    + cbn. lra.
    + split; reflexivity.
    + intros _. refine (conj eq_refl (conj _ _)).
      * unfold warningsOf. rewrite !In_pushIf. cbn [found negb].
        left. right. split; reflexivity.
      * unfold AutoCapture.good. cbn [warnings sample].
        unfold warningsOf, pushIf. cbn [found negb andb].
        destruct (Qltb b 0.25), (Qgtb b 0.88), (Qltb sh 0.25);
          reflexivity.
Qed.

Lemma sample_of_observation_witness :
  (0 <= score (sample 0.55 0.9 (observe 640 480 (Some someFace))) <= 1)
  /\ (0 <= faceCoverage (sample 0.55 0.9 (observe 640 480 (Some someFace)))
      <= 1)
  /\ (pose (sample 0.55 0.9 (observe 640 480 (Some someFace))) = PoseUnknown
      <-> found (observe 640 480 (Some someFace)) = false)
  /\ (found (observe 640 480 (Some someFace)) = false ->
      score (sample 0.55 0.9 (observe 640 480 (Some someFace))) = 0
      /\ In warnNoFace
            (warnings (sample 0.55 0.9 (observe 640 480 (Some someFace))))
      /\ AutoCapture.good (sample 0.55 0.9 (observe 640 480 (Some someFace)))
         = false).
Proof.
  apply (sample_of_observation 0.55 0.9 640 480 (Some someFace));
    try lia; lra.
Defined.

End DetectToSampler.

(** ** Brightness and sharpness *)

Section SamplerFacts.
Import Sampler.

Lemma fold_left_flat_map {A B C : Type} (f : A -> C -> A) (g : B -> list C)
  (l : list B) :
  forall a,
    fold_left f (flat_map g l) a
    = fold_left (fun acc b => fold_left f (g b) acc) l a.
Proof.
  induction l as [|b l IH]; intro a; cbn [flat_map fold_left].
  - reflexivity.
  - rewrite fold_left_app. apply IH.
Qed.

Lemma fold_left_map {A B C : Type} (f : A -> C -> A) (g : B -> C)
  (l : list B) :
  forall a, fold_left f (map g l) a = fold_left (fun acc b => f acc (g b)) l a.
Proof.
  induction l as [|b l IH]; intro a; cbn [map fold_left];
    [reflexivity | apply IH].
Qed.

Lemma fold_left_same {A B : Type} (f g : A -> B -> A) (l : list B) :
  (forall a b, f a b = g a b) ->
  forall a, fold_left f l a = fold_left g l a.
Proof.
  intro E. induction l as [|b l IH]; intro a; cbn [fold_left];
    [reflexivity | rewrite E; apply IH].
Qed.

Lemma stats_laps (gray : list Z) (w h : Z) :
  stats gray w h = fold_left step (laps gray w h) (mkStat 0 0 0).
Proof.
  unfold stats, laps, row. rewrite fold_left_flat_map.
  apply fold_left_same. intros st yy. rewrite fold_left_map. reflexivity.
Qed.

Lemma total_snoc (xs : list Z) (x : Z) :
  total (xs ++ [x]) == total xs + inject_Z x.
Proof.
  induction xs as [|y xs IH]; cbn [app total fold_right].
  - ring.
  - fold (total (xs ++ [x])). fold (total xs). rewrite IH. ring.
Qed.

Lemma squaredDeviations_snoc (c : Q) (xs : list Z) (x : Z) :
  squaredDeviations c (xs ++ [x])
  == squaredDeviations c xs + (inject_Z x - c) * (inject_Z x - c).
Proof.
  induction xs as [|y xs IH]; cbn [app squaredDeviations fold_right].
  - ring.
  - fold (squaredDeviations c (xs ++ [x])). fold (squaredDeviations c xs).
    rewrite IH. ring.
Qed.

(** Deviations from [c] in terms of deviations from [d]. *)
Lemma squaredDeviations_shift (c d : Q) (xs : list Z) :
  squaredDeviations c xs
  == squaredDeviations d xs
     + 2 * (d - c) * (total xs - d * inject_Z (Z.of_nat (List.length xs)))
     + inject_Z (Z.of_nat (List.length xs)) * (d - c) * (d - c).
Proof.
  induction xs as [|y xs IH].
  - cbn. ring.
  - cbn [squaredDeviations total fold_right List.length].
    fold (squaredDeviations c xs). fold (squaredDeviations d xs).
    fold (total xs). rewrite IH.
    rewrite Nat2Z.inj_succ. unfold Z.succ. rewrite inject_Z_plus.
    change (inject_Z 1) with 1. ring.
Qed.

Lemma Qsquare_nonneg (d : Q) : 0 <= d * d.
Proof.
  destruct (Qlt_le_dec d 0) as [L|L].
  - setoid_replace (d * d) with ((- d) * (- d)) by ring.
    apply Qmult_le_0_compat; lra.
  - apply Qmult_le_0_compat; exact L.
Qed.

Lemma squaredDeviations_nonneg (c : Q) (xs : list Z) :
  0 <= squaredDeviations c xs.
Proof.
  induction xs as [|y xs IH]; cbn [squaredDeviations fold_right].
  - lra.
  - fold (squaredDeviations c xs).
    pose proof (Qsquare_nonneg (inject_Z y - c)). lra.
Qed.

(** What the one-pass update keeps true of the responses seen so far. *)
Lemma step_keeps (st : Stat) (seen : list Z) (x : Z) :
  n st = Z.of_nat (List.length seen) ->
  mean st * inject_Z (n st) == total seen ->
  m2 st == squaredDeviations (mean st) seen ->
  0 <= m2 st ->
  n (step st x) = Z.of_nat (List.length (seen ++ [x]))
  /\ mean (step st x) * inject_Z (n (step st x)) == total (seen ++ [x])
  /\ m2 (step st x) == squaredDeviations (mean (step st x)) (seen ++ [x])
  /\ 0 <= m2 (step st x).
Proof.
  intros N M D P.
  assert (N1 : n (step st x) = Z.of_nat (List.length (seen ++ [x]))).
  { cbn [step n]. rewrite length_app, Nat2Z.inj_add, N. reflexivity. }
  assert (Nn : 0 <= inject_Z (n st)).
  { rewrite N. change 0 with (inject_Z 0). rewrite <- Zle_Qle. lia. }
  assert (E1 : inject_Z (n st + 1) == inject_Z (n st) + 1)
    by (rewrite inject_Z_plus; reflexivity).
  assert (M1 : mean (step st x) * inject_Z (n (step st x))
               == total (seen ++ [x])).
  { cbn [step mean n]. rewrite total_snoc, <- M, E1. field. lra. }
  assert (D1 : m2 (step st x)
               == squaredDeviations (mean (step st x)) (seen ++ [x])).
  { rewrite squaredDeviations_snoc.
    rewrite (squaredDeviations_shift (mean (step st x)) (mean st) seen).
    rewrite <- D, <- M, <- N.
    cbn [step mean m2 n]. rewrite E1. field. lra. }
  refine (conj N1 (conj M1 (conj D1 _))).
  rewrite D1. apply squaredDeviations_nonneg.
Qed.

Lemma fold_step_keeps (xs : list Z) :
  forall st seen,
    n st = Z.of_nat (List.length seen) ->
    mean st * inject_Z (n st) == total seen ->
    m2 st == squaredDeviations (mean st) seen ->
    0 <= m2 st ->
    let out := fold_left step xs st in
    n out = Z.of_nat (List.length (seen ++ xs))
    /\ mean out * inject_Z (n out) == total (seen ++ xs)
    /\ m2 out == squaredDeviations (mean out) (seen ++ xs)
    /\ 0 <= m2 out.
Proof.
  induction xs as [|x xs IH]; intros st seen N M D P; cbn [fold_left].
  - cbn zeta. rewrite app_nil_r. auto.
  - destruct (step_keeps st seen x N M D P) as [N1 [M1 [D1 P1]]].
    pose proof (IH (step st x) (seen ++ [x]) N1 M1 D1 P1) as K.
    cbn zeta in K. rewrite <- app_assoc in K. exact K.
Qed.

(** X19: The sharpness loop computes, in one pass, the count, the mean and
    the sum of squared deviations from the mean of the Laplacian
    responses of the interior pixels; the variance it derives is that
    sum over the count less one, it is never negative, and so the
    sharpness is [min(1, variance / 800)]: the lower clamp never acts. *)
Theorem sharpness_is_sample_variance (gray : list Z) (w h : Z) :
  n (stats gray w h) = Z.of_nat (List.length (laps gray w h))
  /\ mean (stats gray w h) * inject_Z (n (stats gray w h))
     == total (laps gray w h)
  /\ m2 (stats gray w h)
     == squaredDeviations (mean (stats gray w h)) (laps gray w h)
  /\ ((1 < n (stats gray w h))%Z ->
      variance (stats gray w h)
      == squaredDeviations (mean (stats gray w h)) (laps gray w h)
         / inject_Z (n (stats gray w h) - 1))
  /\ 0 <= variance (stats gray w h)
  /\ sharpness gray w h == Qmin 1 (variance (stats gray w h) / 800).
Proof.
  rewrite stats_laps.
  destruct (fold_step_keeps (laps gray w h) (mkStat 0 0 0) [])
    as [N [M [D P]]]; cbn [n mean m2 List.length]; try reflexivity; try lra.
  cbn [app] in *. set (st := fold_left step (laps gray w h) (mkStat 0 0 0)) in *.
  assert (V : 0 <= variance st).
  { unfold variance. destruct (Z.ltb_spec 1 (n st)) as [L|L]; [|lra].
    apply Qle_shift_div_l; [|lra].
    change 0 with (inject_Z 0). rewrite <- Zlt_Qlt. lia. }
  refine (conj N (conj M (conj D (conj _ (conj V _))))).
  - intro L. unfold variance.
    destruct (Z.ltb_spec 1 (n st)) as [_|L']; [|lia].
    rewrite D. reflexivity.
  - unfold sharpness. rewrite stats_laps. fold st.
    apply Q.max_r. apply Q.min_glb; [lra|].
    unfold Qdiv. setoid_replace (/ 800) with (1 # 800) by reflexivity. lra.
Qed.

Lemma sharpness_is_sample_variance_witness :
  variance (stats spotGray 4 4)
  == squaredDeviations (mean (stats spotGray 4 4)) (laps spotGray 4 4)
     / inject_Z (n (stats spotGray 4 4) - 1).
Proof.
  apply (proj1 (proj2 (proj2 (proj2
           (sharpness_is_sample_variance spotGray 4 4))))).
  vm_compute. reflexivity.
Defined.

Lemma luma_byte (r g b : Z) :
  (0 <= r <= 255)%Z -> (0 <= g <= 255)%Z -> (0 <= b <= 255)%Z ->
  0 <= 0.2126 * inject_Z r + 0.7152 * inject_Z g + 0.0722 * inject_Z b <= 255.
Proof.
  intros R G B.
  assert (Br : 0 <= inject_Z r <= 255).
  { change 0 with (inject_Z 0). change 255 with (inject_Z 255).
    rewrite <- !Zle_Qle. exact R. }
  assert (Bg : 0 <= inject_Z g <= 255).
  { change 0 with (inject_Z 0). change 255 with (inject_Z 255).
    rewrite <- !Zle_Qle. exact G. }
  assert (Bb : 0 <= inject_Z b <= 255).
  { change 0 with (inject_Z 0). change 255 with (inject_Z 255).
    rewrite <- !Zle_Qle. exact B. }
  lra.
Qed.

Lemma isByte_range (a : Z) : Heatmap.isByte a = true -> (0 <= a <= 255)%Z.
Proof. unfold Heatmap.isByte. rewrite andb_true_iff. lia. Qed.

Lemma lumaSum_bounds (k : nat) :
  forall data s,
    List.length data = (4 * k)%nat ->
    forallb Heatmap.isByte data = true ->
    s <= lumaSum data s <= s + 255 * inject_Z (Z.of_nat k).
Proof.
  induction k as [|k IH]; intros data s L B.
  - destruct data; [|discriminate L]. cbn [lumaSum].
    change (inject_Z (Z.of_nat 0)) with 0. lra.
  - destruct data as [|r [|g [|b [|a rest]]]];
      try (cbn [List.length] in L; lia).
    cbn [lumaSum]. cbn [forallb] in B.
    apply andb_true_iff in B. destruct B as [Br B].
    apply andb_true_iff in B. destruct B as [Bg B].
    apply andb_true_iff in B. destruct B as [Bb B].
    apply andb_true_iff in B. destruct B as [_ B].
    assert (L' : List.length rest = (4 * k)%nat) by (cbn in L; lia).
    pose proof (luma_byte r g b (isByte_range _ Br) (isByte_range _ Bg)
                  (isByte_range _ Bb)) as Y.
    pose proof (IH rest (s + (0.2126 * inject_Z r + 0.7152 * inject_Z g
                             + 0.0722 * inject_Z b)) L' B) as K.
    rewrite Nat2Z.inj_succ. unfold Z.succ. rewrite inject_Z_plus.
    change (inject_Z 1) with 1. lra.
Qed.

Lemma lumaSum_flat (k : nat) (v a : Z) :
  forall s,
    lumaSum (flat k v v v a) s == s + inject_Z (Z.of_nat k) * inject_Z v.
Proof.
  induction k as [|k IH]; intro s; cbn [flat lumaSum].
  - cbn. ring.
  - rewrite IH. rewrite Nat2Z.inj_succ. unfold Z.succ. rewrite inject_Z_plus.
    change (inject_Z 1) with 1. ring.
Qed.

(** X20: On a frame of [w] by [h] byte pixels the brightness is the mean luma
    over 255 as it stands, the clamp to the unit interval never acting;
    in particular a frame whose pixels all are the grey [(v, v, v)] has
    brightness [v / 255]. *)
Theorem brightness_is_mean_luma (data : list Z) (w h : Z) :
  (0 < w)%Z -> (0 < h)%Z ->
  List.length data = (4 * Z.to_nat (w * h))%nat ->
  forallb Heatmap.isByte data = true ->
  brightness data w h == lumaSum data 0 / inject_Z (w * h * 255)
  /\ 0 <= brightness data w h <= 1
  /\ (forall v a, data = flat (Z.to_nat (w * h)) v v v a ->
      brightness data w h == inject_Z v / 255).
Proof.
  intros W H L B.
  pose proof (lumaSum_bounds (Z.to_nat (w * h)) data 0 L B) as K.
  rewrite Z2Nat.id in K by nia.
  assert (P : 0 < inject_Z (w * h)).
  { change 0 with (inject_Z 0). rewrite <- Zlt_Qlt. nia. }
  assert (E : inject_Z (w * h * 255) == inject_Z (w * h) * 255).
  { rewrite inject_Z_mult. reflexivity. }
  assert (R : 0 <= lumaSum data 0 / inject_Z (w * h * 255) <= 1).
  { rewrite E. split; [apply Qle_shift_div_l | apply Qle_shift_div_r]; lra. }
  assert (U : brightness data w h
              == lumaSum data 0 / inject_Z (w * h * 255)).
  { unfold brightness. rewrite (Q.min_r _ _ (proj2 R)).
    apply Q.max_r. exact (proj1 R). }
  refine (conj U (conj _ _)).
  - rewrite U. exact R.
  - intros v a D. rewrite U, D, lumaSum_flat, E.
    rewrite Z2Nat.id by nia. field. lra.
Qed.

Lemma brightness_is_mean_luma_witness :
  brightness (flat 6 140 140 140 255) 3 2
  == lumaSum (flat 6 140 140 140 255) 0 / inject_Z (3 * 2 * 255)
  /\ 0 <= brightness (flat 6 140 140 140 255) 3 2 <= 1
  /\ (forall v a, flat 6 140 140 140 255 = flat (Z.to_nat (3 * 2)) v v v a ->
      brightness (flat 6 140 140 140 255) 3 2 == inject_Z v / 255).
Proof.
  apply (brightness_is_mean_luma (flat 6 140 140 140 255) 3 2);
    try lia; reflexivity.
Defined.

End SamplerFacts.

(** ** The live heatmap *)

Section LiveHeatFacts.
Import LiveHeat.

(** X17: The colour of a heat pixel follows the strongest signal, and on a
    tie the earlier of redness, shine, texture: the chosen strength is
    the greatest of the three, redness is chosen when neither of the
    others exceeds it, shine when it exceeds redness and texture does
    not exceed it, texture when it exceeds both. *)
Theorem dominant_is_argmax (red sh tx : Q) :
  (red <= snd (dominant red sh tx)
   /\ sh <= snd (dominant red sh tx)
   /\ tx <= snd (dominant red sh tx))
  /\ (fst (dominant red sh tx) = KindRedness <-> sh <= red /\ tx <= red)
  /\ (fst (dominant red sh tx) = KindShine <-> red < sh /\ tx <= sh)
  /\ (fst (dominant red sh tx) = KindTexture <-> red < tx /\ sh < tx)
  /\ (snd (dominant red sh tx)
      = match fst (dominant red sh tx) with
        | KindRedness => red
        | KindShine => sh
        | KindTexture => tx
        end).
Proof.
  unfold dominant. cbn [snd].
  destruct (Qgtb sh red) eqn:A; cbn [snd fst].
  - apply Qgtb_gt in A.
    destruct (Qgtb tx sh) eqn:B; cbn [snd fst].
    + apply Qgtb_gt in B.
      repeat split; try discriminate; try lra; intros [? ?]; lra.
    + apply Qgtb_le in B.
      repeat split; try discriminate; try lra; intros [? ?]; lra.
  - apply Qgtb_le in A.
    destruct (Qgtb tx red) eqn:B; cbn [snd fst].
    + apply Qgtb_gt in B.
      repeat split; try discriminate; try lra; intros [? ?]; lra.
    + apply Qgtb_le in B.
      repeat split; try discriminate; try lra; intros [? ?]; lra.
Qed.

Lemma dominant_is_argmax_aux (red sh tx : Q) :
  (red <= snd (dominant red sh tx)
   /\ sh <= snd (dominant red sh tx)
   /\ tx <= snd (dominant red sh tx))
  /\ snd (dominant red sh tx)
     = match fst (dominant red sh tx) with
       | KindRedness => red
       | KindShine => sh
       | KindTexture => tx
       end.
Proof.
  unfold dominant. cbn [snd].
  destruct (Qgtb sh red) eqn:A; cbn [snd fst].
  - apply Qgtb_gt in A.
    destruct (Qgtb tx sh) eqn:B; cbn [snd fst];
      [apply Qgtb_gt in B | apply Qgtb_le in B]; repeat split; lra.
  - apply Qgtb_le in A.
    destruct (Qgtb tx red) eqn:B; cbn [snd fst];
      [apply Qgtb_gt in B | apply Qgtb_le in B]; repeat split; lra.
Qed.

Lemma clamp01_range (v : Q) : 0 <= clamp01 v <= 1.
Proof. unfold clamp01. apply clamp_unit. Qed.

Lemma clampByte_range (z : Z) : (0 <= clampByte z <= 255)%Z.
Proof. unfold clampByte. lia. Qed.

Lemma product_unit (a b : Q) : 0 <= a <= 1 -> 0 <= b <= 1 -> 0 <= a * b <= 1.
Proof.
  intros A B. split; [apply Qmult_le_0_compat; lra|].
  assert (0 <= (1 - a) * b) by (apply Qmult_le_0_compat; lra).
  lra.
Qed.

Lemma value_range (r g b : Z) :
  (0 <= r <= 255)%Z -> (0 <= g <= 255)%Z -> (0 <= b <= 255)%Z ->
  0 <= value r g b <= 1.
Proof.
  intros R G B. unfold value, max3.
  assert (M : (0 <= Z.max (Z.max r g) b <= 255)%Z) by lia.
  assert (Mq : 0 <= inject_Z (Z.max (Z.max r g) b) <= 255).
  { change 0 with (inject_Z 0). change 255 with (inject_Z 255).
    rewrite <- !Zle_Qle. exact M. }
  unfold Qdiv. setoid_replace (/ 255) with (1 # 255) by reflexivity. lra.
Qed.

Lemma signals_unit (d gray : list Z) (w h x y : Z) :
  forallb Heatmap.isByte d = true ->
  let '(red, sh, tx) := signalsAt d gray w h x y in
  0 <= red <= 1 /\ 0 <= sh <= 1 /\ 0 <= tx <= 1.
Proof.
  intro B. unfold signalsAt.
  set (i := ((y * w + x) * 4)%Z).
  pose proof (alphaAt_byte d i B) as R.
  pose proof (alphaAt_byte d (i + 1) B) as G.
  pose proof (alphaAt_byte d (i + 2) B) as Bl.
  refine (conj _ (conj _ _)).
  - unfold redness. apply product_unit; [apply clamp01_range|].
    pose proof (value_range _ _ _ R G Bl). lra.
  - unfold shine. apply product_unit; apply clamp01_range.
  - unfold texture.
    destruct ((0 <? x)%Z && (x <? w - 1)%Z && (0 <? y)%Z && (y <? h - 1)%Z);
      [apply clamp01_range | lra].
Qed.

Lemma alphaOf_le_140 (pow : Q -> Q -> Q) (m : Q) :
  (clampByte (alphaOf pow m) <= 140)%Z.
Proof.
  unfold alphaOf, jsRound.
  pose proof (Q.le_min_l 0.55 (pow m 1.2 * 0.6)) as L.
  assert (K : 255 * Qmin 0.55 (pow m 1.2 * 0.6) + (1 # 2) <= 140 + (3 # 4))
    by lra.
  apply Qfloor_resp_le in K.
  assert (F : Qfloor (140 + (3 # 4)) = 140%Z) by reflexivity.
  unfold clampByte. lia.
Qed.

(** X18: A heat pixel: on byte input the three signals lie in the unit
    interval; the pixel is fully transparent black when all three are
    below 0.12; otherwise it carries the colour of the dominant signal
    (clamped to bytes) with an alpha of at most 140, that is 55 percent,
    whatever [Math.pow] returns. *)
Theorem heat_pixel_spec (pow : Q -> Q -> Q) (primary accent : list Z)
  (d gray : list Z) (w h x y : Z) :
  forallb Heatmap.isByte d = true ->
  let '(red, sh, tx) := signalsAt d gray w h x y in
  (0 <= red <= 1 /\ 0 <= sh <= 1 /\ 0 <= tx <= 1)
  /\ (red < 0.12 -> sh < 0.12 -> tx < 0.12 ->
      heatPixel pow primary accent d gray w h x y = (0, 0, 0, 0)%Z)
  /\ (0.12 <= red \/ 0.12 <= sh \/ 0.12 <= tx ->
      exists a,
        (0 <= a <= 140)%Z
        /\ heatPixel pow primary accent d gray w h x y
           = (let '(rr, gg, bb) :=
                colourOf primary accent (fst (dominant red sh tx)) in
              (clampByte rr, clampByte gg, clampByte bb, a))).
Proof.
  intro B. pose proof (signals_unit d gray w h x y B) as U.
  unfold heatPixel.
  destruct (signalsAt d gray w h x y) as [[red sh] tx].
  split; [exact U|].
  destruct (dominant_is_argmax_aux red sh tx) as [[M1 [M2 M3]] Mx].
  destruct (dominant red sh tx) as [k m] eqn:D. cbn [fst snd] in *.
  split.
  - intros L1 L2 L3.
    assert (Lm : Qltb m 0.12 = true).
    { apply Qltb_lt. rewrite Mx. destruct k; assumption. }
    rewrite Lm. reflexivity.
  - intro Ge.
    assert (Lm : Qltb m 0.12 = false).
    { apply Qltb_ge. destruct Ge as [G | [G | G]]; lra. }
    rewrite Lm.
    destruct (colourOf primary accent k) as [[rr gg] bb].
    exists (clampByte (alphaOf pow m)). split; [|reflexivity].
    pose proof (clampByte_range (alphaOf pow m)).
    pose proof (alphaOf_le_140 pow m). lia.
Qed.

Lemma heat_pixel_spec_witness :
  exists a,
    (0 <= a <= 140)%Z
    /\ heatPixel linearPow [56; 189; 248]%Z [167; 139; 250]%Z
                 redSpot redSpotGray 3 3 1 1
       = (244, 63, 94, a)%Z.
Proof.
  pose proof (heat_pixel_spec linearPow [56; 189; 248]%Z [167; 139; 250]%Z
                redSpot redSpotGray 3 3 1 1 eq_refl) as H.
  cbv beta iota zeta delta [signalsAt] in H.
  destruct H as [_ [_ H]].
  destruct H as [a [R E]].
  - left. vm_compute. discriminate.
  - exists a. split; [exact R|]. rewrite E. vm_compute. reflexivity.
Defined.

End LiveHeatFacts.

(** ** Helpers of the scan page *)

Section PageText.
Import Page.

Ltac split_char a :=
  destruct (Ascii.eqb_spec a "&"%char) as [->|?];
  [| destruct (Ascii.eqb_spec a "<"%char) as [->|?];
     [| destruct (Ascii.eqb_spec a ">"%char) as [->|?];
        [| destruct (Ascii.eqb_spec a dquote) as [->|?];
           [| destruct (Ascii.eqb_spec a "'"%char) as [->|?]]]]].

Lemma special_cases (a : ascii) :
  (special a = true
   /\ (a = "&" \/ a = "<" \/ a = ">" \/ a = dquote \/ a = "'")%char)
  \/ (special a = false
      /\ a <> "&"%char /\ a <> "<"%char /\ a <> ">"%char
      /\ a <> dquote /\ a <> "'"%char).
Proof.
  unfold special. split_char a; cbn; auto 10.
Qed.

Lemma entity_plain (a ch : ascii) :
  In ch (list_ascii_of_string (entity a)) -> plain ch.
Proof.
  unfold entity, plain. split_char a; cbn; intro H;
    repeat (destruct H as [<- | H]; [repeat split; discriminate|]);
    contradiction.
Qed.

Lemma list_ascii_app (s t : string) :
  list_ascii_of_string (String.append s t)
  = list_ascii_of_string s ++ list_ascii_of_string t.
Proof.
  induction s as [|c s IH]; cbn; [reflexivity | rewrite IH; reflexivity].
Qed.

Lemma entity_head (a : ascii) :
  exists t, entity a = String "&" t /\ t <> EmptyString.
Proof.
  unfold entity. split_char a; cbn; eexists; split;
    try reflexivity; discriminate.
Qed.

Lemma entity_injective (a b : ascii) (s t : string) :
  special a = true -> special b = true ->
  String.append (entity a) s = String.append (entity b) t ->
  a = b /\ s = t.
Proof.
  intros A B.
  destruct (special_cases a) as [[_ Ca] | [F _]]; [|congruence].
  destruct (special_cases b) as [[_ Cb] | [F _]]; [|congruence].
  destruct Ca as [-> | [-> | [-> | [-> | ->]]]];
    destruct Cb as [-> | [-> | [-> | [-> | ->]]]];
    cbn; intro E; try discriminate E;
    (split; [reflexivity|]); injection E; auto.
Qed.

(** X21: Escaping for the SVG fallback image: the result holds none of the
    characters [<], [>], the double quote and the apostrophe; a text
    without the five special characters is returned as it is; and no two
    different texts have the same escaped form. *)
Theorem escapeSvgText_safe (v : string) :
  (forall ch, In ch (list_ascii_of_string (escapeSvgText v)) -> plain ch)
  /\ ((forall ch, In ch (list_ascii_of_string v) -> special ch = false) ->
      escapeSvgText v = v)
  /\ (forall u, escapeSvgText u = escapeSvgText v -> u = v).
Proof.
  refine (conj _ (conj _ _)).
  - induction v as [|a v IH]; cbn [escapeSvgText]; intros ch H.
    + destruct H.
    + destruct (special_cases a) as [[S _] | [S [_ [N1 [N2 [N3 N4]]]]]];
        rewrite S in H.
      * rewrite list_ascii_app in H. apply in_app_or in H.
        destruct H as [H | H]; [exact (entity_plain a ch H) | exact (IH ch H)].
      * cbn in H. destruct H as [<- | H]; [repeat split; assumption|].
        exact (IH ch H).
  - induction v as [|a v IH]; cbn [escapeSvgText]; intro H;
      [reflexivity|].
    rewrite (H a (or_introl eq_refl)). rewrite IH; [reflexivity|].
    intros ch I. apply H. right. exact I.
  - induction v as [|b v IH]; intros u E.
    + destruct u as [|a u]; [reflexivity|]. cbn [escapeSvgText] in E.
      destruct (special a).
      * destruct (entity_head a) as [t [Et _]]. rewrite Et in E.
        discriminate E.
      * discriminate E.
    + destruct u as [|a u]; cbn [escapeSvgText] in E.
      * destruct (special b).
        -- destruct (entity_head b) as [t [Et _]]. rewrite Et in E.
           discriminate E.
        -- discriminate E.
      * destruct (special_cases a) as [[Sa _] | [Sa [Na _]]];
          destruct (special_cases b) as [[Sb _] | [Sb [Nb _]]];
          rewrite Sa, Sb in E.
        -- destruct (entity_injective a b _ _ Sa Sb E) as [-> Er].
           rewrite (IH u Er). reflexivity.
        -- destruct (entity_head a) as [t [Et _]]. rewrite Et in E.
           cbn in E. injection E as E1 _. congruence.
        -- destruct (entity_head b) as [t [Et _]]. rewrite Et in E.
           cbn in E. injection E as E1 _. congruence.
        -- injection E as -> Er. rewrite (IH u Er). reflexivity.
Qed.

Lemma toggle_absent (l : list string) (value : string) :
  ~ In value l -> toggle l value = l ++ [value].
Proof.
  intro N. unfold toggle.
  destruct (existsb (String.eqb value) l) eqn:E; [|reflexivity].
  apply existsb_exists in E. destruct E as [x [I Ex]].
  apply String.eqb_eq in Ex. subst x. contradiction.
Qed.

Lemma toggle_present (l : list string) (value : string) :
  In value l ->
  toggle l value = filter (fun x => negb (String.eqb x value)) l.
Proof.
  intro I. unfold toggle.
  destruct (existsb (String.eqb value) l) eqn:E; [reflexivity|].
  assert (T : existsb (String.eqb value) l = true).
  { apply existsb_exists. exists value. split; [exact I|].
    apply String.eqb_refl. }
  congruence.
Qed.

(** X22: Toggling a chip flips the membership of its value and of nothing
    else: the value is in the new list exactly when it was not in the
    old one, every other value keeps its place in or out of the list,
    and toggling a value that was absent twice gives the old list
    back. *)
Theorem toggle_flips (l : list string) (value : string) :
  (In value (toggle l value) <-> ~ In value l)
  /\ (forall x, x <> value -> (In x (toggle l value) <-> In x l))
  /\ (~ In value l -> toggle (toggle l value) value = l).
Proof.
  destruct (in_dec string_dec value l) as [I | N].
  - rewrite (toggle_present l value I).
    refine (conj _ (conj _ _)).
    + split; [|contradiction]. intro H. apply filter_In in H.
      destruct H as [_ H]. rewrite String.eqb_refl in H. discriminate H.
    + intros x Nx. rewrite filter_In. split; [intros [H _]; exact H|].
      intro H. split; [exact H|]. apply negb_true_iff, String.eqb_neq.
      exact Nx.
    + contradiction.
  - rewrite (toggle_absent l value N).
    refine (conj _ (conj _ _)).
    + split; [intros _; exact N|]. intros _. apply in_or_app. right.
      left. reflexivity.
    + intros x Nx. rewrite in_app_iff. cbn [In]. intuition congruence.
    + intros _. rewrite toggle_present
        by (apply in_or_app; right; left; reflexivity).
      rewrite filter_app. cbn [filter]. rewrite String.eqb_refl.
      cbn [negb]. rewrite app_nil_r.
      clear - N. induction l as [|x l IH]; cbn [filter]; [reflexivity|].
      destruct (String.eqb_spec x value) as [->|_].
      * exfalso. apply N. left. reflexivity.
      * cbn [negb]. rewrite IH; [reflexivity|].
        intro I. apply N. right. exact I.
Qed.

End PageText.

Section PageLists.
Import Page.

Lemma firstn_incl {A : Type} (k : nat) (l : list A) : incl (firstn k l) l.
Proof.
  intros x I. rewrite <- (firstn_skipn k l). apply in_or_app. left. exact I.
Qed.

Lemma StronglySorted_firstn {A : Type} (R : A -> A -> Prop) (k : nat)
  (l : list A) :
  StronglySorted R l -> StronglySorted R (firstn k l).
Proof.
  intro S. revert k. induction S as [|a l S IH F]; intro k;
    destruct k; cbn [firstn]; try constructor.
  - apply IH.
  - rewrite Forall_forall in *. intros x I. apply F.
    exact (firstn_incl k l x I).
Qed.

Lemma StronglySorted_filter {A : Type} (R : A -> A -> Prop) (f : A -> bool)
  (l : list A) :
  StronglySorted R l -> StronglySorted R (filter f l).
Proof.
  induction 1 as [|a l S IH F]; cbn [filter]; [constructor|].
  destruct (f a); [|exact IH]. constructor; [exact IH|].
  rewrite Forall_forall in *. intros x I. apply F.
  apply filter_In in I. apply I.
Qed.

Lemma filter_length_perm {A : Type} (f : A -> bool) (l l' : list A) :
  Permutation l l' -> List.length (filter f l) = List.length (filter f l').
Proof.
  induction 1 as [| x l l' P IH | x y l | l l' l'' P1 IH1 P2 IH2];
    cbn [filter].
  - reflexivity.
  - destruct (f x); cbn [List.length]; rewrite IH; reflexivity.
  - destruct (f x), (f y); reflexivity.
  - rewrite IH1. exact IH2.
Qed.

Lemma insertBySeverity_perm (c : Metric) (l : list Metric) :
  Permutation (c :: l) (insertBySeverity c l).
Proof.
  induction l as [|h t IH]; cbn [insertBySeverity].
  - reflexivity.
  - destruct (Qltb (severity h) (severity c)).
    + reflexivity.
    + rewrite perm_swap. apply perm_skip. exact IH.
Qed.

Lemma insertBySeverity_sorted (c : Metric) (l : list Metric) :
  StronglySorted worseFirst l -> StronglySorted worseFirst (insertBySeverity c l).
Proof.
  induction 1 as [|h t St IH Fa]; cbn [insertBySeverity].
  - repeat constructor.
  - destruct (Qltb (severity h) (severity c)) eqn:L.
    + apply Qltb_lt in L. constructor.
      * constructor; assumption.
      * constructor.
        -- unfold worseFirst. lra.
        -- rewrite Forall_forall in *. intros x Ix. unfold worseFirst in *.
           specialize (Fa x Ix). lra.
    + apply Qltb_ge in L. constructor; [exact IH|].
      rewrite Forall_forall in *. intros x Ix.
      apply (Permutation_in _ (Permutation_sym (insertBySeverity_perm c t)))
        in Ix.
      destruct Ix as [<- | Ix]; [exact L | exact (Fa x Ix)].
Qed.

Lemma sortBySeverity_from (ms : list Metric) :
  forall acc,
    StronglySorted worseFirst acc ->
    Permutation (acc ++ ms) (fold_left (fun a c => insertBySeverity c a) ms acc)
    /\ StronglySorted worseFirst
         (fold_left (fun a c => insertBySeverity c a) ms acc).
Proof.
  induction ms as [|c rest IH]; intros acc S; cbn [fold_left].
  - rewrite app_nil_r. auto.
  - destruct (IH (insertBySeverity c acc) (insertBySeverity_sorted c acc S))
      as [P S'].
    split; [|exact S'].
    rewrite <- P, <- (insertBySeverity_perm c acc).
    symmetry. apply Permutation_middle.
Qed.

(** X23: The top-concerns pick: at most six metrics and, when there are
    metrics at all, at least three of them or all; every one is a metric
    of the result, in falling order of severity; and when three or more
    metrics have a severity of 12 or more, only such metrics are
    picked.  A missing result gives the empty list. *)
Theorem topConcernMetrics_spec (metrics : list Metric) :
  (Nat.min 3 (List.length metrics)
   <= List.length (topConcernMetrics (Some metrics)) <= 6)%nat
  /\ incl (topConcernMetrics (Some metrics)) metrics
  /\ StronglySorted worseFirst (topConcernMetrics (Some metrics))
  /\ ((3 <= List.length (filter (fun m => Qgeb (severity m) 12) metrics))%nat ->
      Forall (fun m => 12 <= severity m) (topConcernMetrics (Some metrics)))
  /\ topConcernMetrics None = [].
Proof.
  destruct (sortBySeverity_from metrics [] (SSorted_nil _)) as [P S].
  cbn [app] in P. fold (sortBySeverity metrics) in P, S.
  cbn [topConcernMetrics].
  set (sorted := sortBySeverity metrics) in *.
  set (filtered := filter (fun m => Qgeb (severity m) 12) sorted).
  assert (Ln : List.length sorted = List.length metrics)
    by (symmetry; apply Permutation_length; exact P).
  assert (Lf : List.length filtered
               = List.length (filter (fun m => Qgeb (severity m) 12) metrics))
    by (symmetry; apply filter_length_perm; exact P).
  assert (Lfn : (List.length filtered <= List.length metrics)%nat).
  { rewrite <- Ln. apply filter_length_le. }
  assert (Is : incl sorted metrics).
  { intros x I. apply (Permutation_in _ (Permutation_sym P)). exact I. }
  assert (If : incl filtered sorted).
  { intros x I. apply filter_In in I. apply I. }
  refine (conj _ (conj _ (conj _ (conj _ eq_refl)))).
  - rewrite length_firstn.
    destruct (Nat.leb_spec 3 (List.length filtered)) as [L|L].
    + lia.
    + rewrite length_firstn. lia.
  - destruct (3 <=? List.length filtered)%nat.
    + intros x I. apply Is, If. exact (firstn_incl 6 _ x I).
    + intros x I. apply Is. apply (firstn_incl 3).
      exact (firstn_incl 6 _ x I).
  - destruct (3 <=? List.length filtered)%nat.
    + apply StronglySorted_firstn, StronglySorted_filter. exact S.
    + apply StronglySorted_firstn, StronglySorted_firstn. exact S.
  - intro L. rewrite <- Lf in L.
    destruct (Nat.leb_spec 3 (List.length filtered)) as [_|L']; [|lia].
    apply Forall_forall. intros x I.
    apply (firstn_incl 6) in I. apply filter_In in I.
    destruct I as [_ G]. apply Qgeb_le in G. exact G.
Qed.

Lemma topConcernMetrics_spec_witness :
  Forall (fun m => 12 <= severity m)
         (topConcernMetrics
            (Some (mkMetric "puffy_eyes" "Puffy eyes" 30 0.5 :: someMetrics))).
Proof.
  apply (proj1 (proj2 (proj2 (proj2
           (topConcernMetrics_spec
              (mkMetric "puffy_eyes" "Puffy eyes" 30 0.5 :: someMetrics)))))).
  vm_compute. lia.
Defined.

Lemma jsRound_integer (z : Z) : jsRound (inject_Z z) = z.
Proof.
  unfold jsRound.
  pose proof (Qfloor_le (inject_Z z + (1 # 2))) as Lo.
  pose proof (Qlt_floor (inject_Z z + (1 # 2))) as Hi.
  set (f := Qfloor (inject_Z z + (1 # 2))) in *.
  assert (A : inject_Z f < inject_Z (z + 1)).
  { rewrite inject_Z_plus. change (inject_Z 1) with 1. lra. }
  assert (B : inject_Z z < inject_Z (f + 1)) by lra.
  rewrite <- Zlt_Qlt in A, B. lia.
Qed.

Lemma jsRound_mono (a b : Q) : a <= b -> (jsRound a <= jsRound b)%Z.
Proof. intro L. unfold jsRound. apply Qfloor_resp_le. lra. Qed.

Lemma jsRound_eq (a b : Q) : a == b -> jsRound a = jsRound b.
Proof. intro E. unfold jsRound. apply Qfloor_comp. rewrite E. reflexivity. Qed.

(** X24: The thumbnail canvas: never wider than 240 pixels and at least one
    pixel each way; an image up to 240 wide keeps its size and a wider
    one is brought to a width of exactly 240 with a height no greater
    than it had. *)
Theorem thumbSize_spec (width height : Z) :
  (0 <= width)%Z -> (0 <= height)%Z ->
  (1 <= fst (thumbSize width height) <= 240)%Z
  /\ (1 <= snd (thumbSize width height))%Z
  /\ ((width <= 240)%Z ->
      thumbSize width height = (Z.max 1 width, Z.max 1 height))
  /\ ((240 < width)%Z ->
      fst (thumbSize width height) = 240%Z
      /\ (snd (thumbSize width height) <= Z.max 1 height)%Z).
Proof.
  intros W H.
  assert (Small : (width <= 240)%Z ->
                  thumbSize width height = (Z.max 1 width, Z.max 1 height)).
  { intro L. unfold thumbSize.
    assert (E : (if (width =? 0)%Z then 1
                 else Qmin 1 (240 / inject_Z width)) == 1).
    { destruct (Z.eqb_spec width 0) as [_|N]; [reflexivity|].
      apply Q.min_l. apply Qle_shift_div_l.
      - change 0 with (inject_Z 0). rewrite <- Zlt_Qlt. lia.
      - change 240 with (inject_Z 240).
        setoid_replace (1 * inject_Z width) with (inject_Z width) by ring.
        rewrite <- Zle_Qle. exact L. }
    rewrite (jsRound_eq (inject_Z width * _) (inject_Z width))
      by (rewrite E; ring).
    rewrite (jsRound_eq (inject_Z height * _) (inject_Z height))
      by (rewrite E; ring).
    rewrite !jsRound_integer. reflexivity. }
  assert (Big : (240 < width)%Z ->
                fst (thumbSize width height) = 240%Z
                /\ (snd (thumbSize width height) <= Z.max 1 height)%Z).
  { intro L. unfold thumbSize. cbn [fst snd].
    destruct (Z.eqb_spec width 0) as [Z0|N]; [lia|].
    assert (Wq : 240 < inject_Z width).
    { change 240 with (inject_Z 240). rewrite <- Zlt_Qlt. exact L. }
    assert (Hq : 0 <= inject_Z height).
    { change 0 with (inject_Z 0). rewrite <- Zle_Qle. exact H. }
    assert (R : 0 <= 240 / inject_Z width <= 1).
    { split; [apply Qle_shift_div_l | apply Qle_shift_div_r]; lra. }
    assert (E : Qmin 1 (240 / inject_Z width) == 240 / inject_Z width)
      by (apply Q.min_r; lra).
    split.
    - rewrite (jsRound_eq _ (inject_Z 240)).
      + rewrite jsRound_integer. reflexivity.
      + rewrite E. change (inject_Z 240) with 240. field. lra.
    - assert (M : inject_Z height * Qmin 1 (240 / inject_Z width)
                  <= inject_Z height).
      { rewrite E.
        assert (0 <= inject_Z height * (1 - 240 / inject_Z width))
          by (apply Qmult_le_0_compat; lra).
        lra. }
      apply jsRound_mono in M. rewrite jsRound_integer in M. lia. }
  refine (conj _ (conj _ (conj Small Big))).
  - destruct (Z_le_gt_dec width 240) as [L|L].
    + rewrite (Small L). cbn [fst]. lia.
    + destruct (Big ltac:(lia)) as [E _]. rewrite E. lia.
  - unfold thumbSize. cbn [snd]. lia.
Qed.

Lemma thumbSize_spec_witness :
  (1 <= fst (thumbSize 1280 720) <= 240)%Z
  /\ (1 <= snd (thumbSize 1280 720))%Z
  /\ ((1280 <= 240)%Z ->
      thumbSize 1280 720 = (Z.max 1 1280, Z.max 1 720))
  /\ ((240 < 1280)%Z ->
      fst (thumbSize 1280 720) = 240%Z
      /\ (snd (thumbSize 1280 720) <= Z.max 1 720)%Z).
Proof.
  apply (thumbSize_spec 1280 720); lia.
Defined.

(** X25: Saving to the history: the list written back starts with the new
    entry, has at most 25 entries, holds nothing but the new entry and
    earlier entries with other ids, and keeps ids unique when they were;
    while fewer than 25 entries were stored, no earlier entry with
    another id is lost. *)
Theorem saveToHistory_spec (entry : StoredAnalysis)
  (current : list StoredAnalysis) :
  hd_error (saveToHistory entry current) = Some entry
  /\ (List.length (saveToHistory entry current) <= 25)%nat
  /\ (forall x, In x (saveToHistory entry current) ->
        x = entry \/ (In x current /\ storedId x <> storedId entry))
  /\ (NoDup (map storedId current) ->
      NoDup (map storedId (saveToHistory entry current)))
  /\ ((List.length current < 25)%nat ->
      forall x, In x current -> storedId x <> storedId entry ->
                In x (saveToHistory entry current)).
Proof.
  unfold saveToHistory.
  set (others := filter (fun x => negb (String.eqb (storedId x)
                                                   (storedId entry)))
                        current).
  assert (Io : forall x, In x others <->
                         In x current /\ storedId x <> storedId entry).
  { intro x. unfold others. rewrite filter_In, negb_true_iff.
    rewrite String.eqb_neq. reflexivity. }
  refine (conj eq_refl (conj (firstn_le_length 25 _) (conj _ (conj _ _)))).
  - intros x I. apply (firstn_incl 25) in I. destruct I as [<- | I].
    + left. reflexivity.
    + right. apply Io. exact I.
  - intro N. rewrite <- firstn_map.
    apply (NoDup_app_remove_r _ (skipn 25 (map storedId (entry :: others)))).
    rewrite firstn_skipn. cbn [map]. constructor.
    + intro I. apply in_map_iff in I. destruct I as [x [E I]].
      apply Io in I. destruct I as [_ Ne]. contradiction.
    + unfold others. clear - N. induction current as [|c l IH];
        cbn [filter map]; [constructor|].
      cbn [map] in N. inversion N as [|? ? Nc Nl]; subst.
      destruct (negb (String.eqb (storedId c) (storedId entry)));
        [|exact (IH Nl)].
      cbn [map]. constructor; [|exact (IH Nl)].
      intro I. apply Nc. apply in_map_iff in I. destruct I as [x [E I]].
      apply filter_In in I. apply in_map_iff. exists x. tauto.
  - intros L x I Ne.
    rewrite firstn_all2.
    + right. apply Io. split; assumption.
    + cbn [List.length]. pose proof (filter_length_le
        (fun x => negb (String.eqb (storedId x) (storedId entry))) current).
      fold others in H. lia.
Qed.

End PageLists.

(** ** Closed instances *)

Section ClosedInstances.
Import AutoCapture Heatmap Page.

Lemma heatmapAnchor_cache_witness :
  exists p,
    fst (heatmapAnchor true (onePixelEntries 2 200) 400 600 [] "redness")
    = Some p
    /\ heatmapAnchor false [] 1 1
         (snd (heatmapAnchor true (onePixelEntries 2 200) 400 600 []
                             "redness"))
         "redness"
       = (Some p,
          snd (heatmapAnchor true (onePixelEntries 2 200) 400 600 []
                             "redness")).
Proof.
  destruct (fst (heatmapAnchor true (onePixelEntries 2 200) 400 600 []
                               "redness")) as [p|] eqn:E.
  - exists p. split; [reflexivity|].
    apply (proj1 (heatmapAnchor_cache true (onePixelEntries 2 200) 400 600 []
                    "redness") p E).
  - vm_compute in E. discriminate E.
Defined.

Lemma removeCapture_exact_witness :
  captures (removeCapture "f1"
              (addFiles (Some [mkFileIn [1%Z] "f1" "blob:2"]) atZeroFull))
  = captures atZeroFull.
Proof.
  apply (proj2 (proj2 (removeCapture_exact "f1" atZeroFull))
           (mkFileIn [1%Z] "f1" "blob:2") eq_refl).
  cbn. intros c [<- | [<- | [<- | []]]]; cbn; discriminate.
Defined.

Lemma escapeSvgText_safe_witness : escapeSvgText "CeraVe" = "CeraVe"%string.
Proof.
  apply (proj1 (proj2 (escapeSvgText_safe "CeraVe"))).
  cbn. intros ch H.
  repeat (destruct H as [<- | H]; [reflexivity|]). contradiction.
Defined.

Lemma toggle_flips_witness :
  toggle (toggle ["redness"%string] "acne") "acne" = ["redness"%string].
Proof.
  apply (proj2 (proj2 (toggle_flips ["redness"%string] "acne"))).
  cbn. intros [H | []]. discriminate H.
Defined.

Lemma saveToHistory_spec_witness :
  NoDup (map storedId
           (saveToHistory (mkStored "a2" "2024-05-02" None 2)
              [mkStored "a1" "2024-05-01" None 1;
               mkStored "a2" "2024-04-30" None 0])).
Proof.
  apply (proj1 (proj2 (proj2 (proj2
           (saveToHistory_spec (mkStored "a2" "2024-05-02" None 2)
              [mkStored "a1" "2024-05-01" None 1;
               mkStored "a2" "2024-04-30" None 0]))))).
  cbn. repeat constructor; cbn; intuition discriminate.
Defined.

End ClosedInstances.
